(** * FastCP control plane: site registry, Caddyfile generator, resource limits

    A shallow embedding of three Go packages of the repository:
    - [sites]  (internal/sites/manager.go, the second of the two revisions
      in that file, the one with user limits),
    - [caddy]  (the Caddyfile generator, which follows the Makefile's own
      text in src/Makefile),
    - [limits] (internal/limits/limits.go),
    together with the small part of the Go standard library they rely on
    ([unicode/utf8], [unicode], [strings], [strconv], [path/filepath], [os],
    [encoding/json]).

    Conventions.
    - Go [int]/[int64] values are [Z]; where the source multiplies, the
      64-bit wrap-around is written out with [wrap64].
    - A Go map is a [gmap]; a slice or map that may be [nil] is an [option].
    - [*models.Site] pointers stored in the registry are modelled by value:
      an in-place write through the pointer is a write to the map entry.
    - The order in which [range] visits a Go map is not specified by the
      language: it is an explicit argument of type [RangeOrder].
    - The operating system is a [World] (files, directories and the trace of
      mutating system calls) and a [Host] (the answers the machine gives:
      which calls fail and what a failed write leaves behind, the user
      database, the output of spawned tools).
    - A file written with [json.MarshalIndent] holds the slice it was given;
      what [json.Unmarshal] makes of a file is a [json.Codec], fixed on the
      files so written (strings come back with their invalid bytes replaced)
      and left open on every other file.
    - A nil pointer dereference is the error [ErrNilPointer]: the call
      panics, and the state is the one it had reached. *)

From Stdlib Require Import ZArith Lia Ascii String.
From stdpp Require Import base option list sorting strings gmap pretty.

Local Open Scope Z_scope.
Set Warnings "-clear-no-such-hyp".

(** ** Errors and results *)

#[warnings="-register-all"]
Inductive error : Type :=
| ErrSiteNotFound
| ErrDomainExists
| ErrInvalidPHPVersion
| ErrSiteLimitReached
| ErrAliasExists (alias : string)
| ErrCreateDirectories (cause : error)
| ErrCreateCgroup (cause : error)
| ErrUserNotFound (cause : error)
| ErrCgroup (cause : error)
| ErrQuota (cause : error)
| ErrSomeLimits (causes : list error)
| ErrNotExist (path : string)
| ErrOS (op path : string)
| ErrJSON
| ErrExec (argv : list string)
| ErrDfOutput
| ErrNilPointer.   (* a run-time panic: the call does not return *)

Inductive result (A : Type) : Type :=
| Ok (a : A)
| Err (e : error).
Arguments Ok {A} a.
Arguments Err {A} e.

Definition is_ok {A} (r : result A) : bool :=
  match r with Ok _ => true | Err _ => false end.

(** A computation over a state [S] that may stop with an error.  The state
    reached so far is kept when it stops: Go does not roll back the writes a
    function made before an early [return err]. *)
Definition Step (S A : Type) : Type := S → result A * S.

Definition step_ret {S A} (a : A) : Step S A := λ s, (Ok a, s).
Definition step_fail {S A} (e : error) : Step S A := λ s, (Err e, s).
Definition step_bind {S A B} (c : Step S A) (k : A → Step S B) : Step S B :=
  λ s, match c s with
       | (Ok a, s') => k a s'
       | (Err e, s') => (Err e, s')
       end.
Definition step_get {S} : Step S S := λ s, (Ok s, s).
Definition step_modify {S} (f : S → S) : Step S unit := λ s, (Ok tt, f s).
(** [c] run for its effects, its error (if any) dropped: [_ = f()]. *)
Definition step_ignore {S A} (c : Step S A) : Step S unit :=
  λ s, (Ok tt, (c s).2).
(** [c] run, its error returned as a value: [if err := f(); err != nil]. *)
Definition step_try {S A} (c : Step S A) : Step S (result A) :=
  λ s, (Ok (c s).1, (c s).2).

(** [fmt.Errorf('...: %w', err)]: the error wrapped on its way out. *)
Definition wrap_error {S A} (f : error → error) (c : Step S A) : Step S A :=
  λ s, match c s with
       | (Err e, s') => (Err (f e), s')
       | ok => ok
       end.

Notation "'do' x <- c ; k" := (step_bind c (λ x, k))
  (at level 10, x name, c at level 100, k at level 200,
   format "'[v' 'do'  x  <-  c ; '/' k ']'").
Notation "'do_' c ; k" := (step_bind c (λ _, k))
  (at level 10, c at level 100, k at level 200,
   format "'[v' 'do_'  c ; '/' k ']'").

(** [for _, x := range l { body x }] with early return on error. *)
Fixpoint step_for {S A} (l : list A) (body : A → Step S unit) : Step S unit :=
  match l with
  | [] => step_ret tt
  | x :: l' => do_ body x; step_for l' body
  end.

(** The order in which one [range] statement visits the entries of a map. *)
Definition RangeOrder : Type := ∀ A : Type, gmap string A → list (string * A).
Definition range_valid (r : RangeOrder) : Prop :=
  ∀ A (m : gmap string A), r A m ≡ₚ map_to_list m.

Definition wrap64 (z : Z) : Z := (z + 2 ^ 63) `mod` 2 ^ 64 - 2 ^ 63.

(** ** Packages [unicode/utf8] and [unicode] *)

Module utf8.

Definition RuneError : Z := 65533.

Definition byte (c : ascii) : Z := Z.of_N (N_of_ascii c).

(** For a leading byte, the number of bytes that follow it and the range
    the first of them must lie in (the tables [first] and [acceptRanges]). *)
Definition leading (b0 : Z) : option (nat * Z * Z) :=
  if decide (194 ≤ b0 ≤ 223) then Some (1%nat, 128, 191)
  else if decide (b0 = 224) then Some (2%nat, 160, 191)
  else if decide (225 ≤ b0 ≤ 236) then Some (2%nat, 128, 191)
  else if decide (b0 = 237) then Some (2%nat, 128, 159)
  else if decide (238 ≤ b0 ≤ 239) then Some (2%nat, 128, 191)
  else if decide (b0 = 240) then Some (3%nat, 144, 191)
  else if decide (241 ≤ b0 ≤ 243) then Some (3%nat, 128, 191)
  else if decide (b0 = 244) then Some (3%nat, 128, 143)
  else None.

Definition continuation (b : Z) : bool := bool_decide (128 ≤ b ≤ 191).

(** [utf8.DecodeRuneInString]: the rune at the front of [p] and its width
    in bytes; [(RuneError, 1)] where the bytes are not the encoding of a
    rune. *)
Definition DecodeRune (p : list ascii) : Z * nat :=
  match p with
  | [] => (RuneError, 0%nat)
  | c0 :: p1 =>
      let b0 := byte c0 in
      if decide (b0 < 128) then (b0, 1%nat)
      else
        match leading b0, p1 with
        | Some (1%nat, lo, hi), c1 :: _ =>
            let b1 := byte c1 in
            if bool_decide (lo ≤ b1 ≤ hi)
            then (Z.land b0 31 * 64 + Z.land b1 63, 2%nat)
            else (RuneError, 1%nat)
        | Some (2%nat, lo, hi), c1 :: c2 :: _ =>
            let b1 := byte c1 in
            let b2 := byte c2 in
            if bool_decide (lo ≤ b1 ≤ hi) && continuation b2
            then (Z.land b0 15 * 4096 + Z.land b1 63 * 64 + Z.land b2 63, 3%nat)
            else (RuneError, 1%nat)
        | Some (3%nat, lo, hi), c1 :: c2 :: c3 :: _ =>
            let b1 := byte c1 in
            let b2 := byte c2 in
            let b3 := byte c3 in
            if bool_decide (lo ≤ b1 ≤ hi) && continuation b2 && continuation b3
            then (Z.land b0 7 * 262144 + Z.land b1 63 * 4096
                  + Z.land b2 63 * 64 + Z.land b3 63, 4%nat)
            else (RuneError, 1%nat)
        | _, _ => (RuneError, 1%nat)
        end
  end.

(** The runes of a string in order, each with the bytes it was decoded
    from: what [for _, r := range s] and repeated [DecodeRuneInString] see.
    A byte that starts no rune is a [RuneError] of width 1. *)
Fixpoint runes_go (fuel : nat) (p : list ascii) : list (Z * list ascii) :=
  match fuel, p with
  | S fuel, _ :: _ =>
      let size := (DecodeRune p).2 in
      ((DecodeRune p).1, take size p) :: runes_go fuel (drop size p)
  | _, _ => []
  end.

Definition runes (s : string) : list (Z * list ascii) :=
  runes_go (String.length s) (list_ascii_of_string s).

(** The bytes of a sequence of runes. *)
Definition bytes (rs : list (Z * list ascii)) : string :=
  string_of_list_ascii (concat rs.*2).

(** A byte of the string that is not part of the encoding of a rune. *)
Definition invalid (r : Z * list ascii) : bool :=
  bool_decide (r.1 = RuneError) && bool_decide (length r.2 = 1%nat).

Definition ValidString (s : string) : bool :=
  forallb (λ r, negb (invalid r)) (runes s).

End utf8.

Module unicode.

(** [unicode.IsSpace]: the code points with the White_Space property. *)
Definition IsSpace (r : Z) : bool :=
  bool_decide (9 ≤ r ≤ 13) || bool_decide (r = 32) ||
  bool_decide (r = 133) || bool_decide (r = 160) ||
  bool_decide (r = 5760) || bool_decide (8192 ≤ r ≤ 8202) ||
  bool_decide (r = 8232) || bool_decide (r = 8233) ||
  bool_decide (r = 8239) || bool_decide (r = 8287) ||
  bool_decide (r = 12288).

End unicode.

(** ** Package [strings] and [strconv] *)

Module strings.

Fixpoint replace_byte (old new : ascii) (s : string) : string :=
  match s with
  | EmptyString => EmptyString
  | String c s' =>
      String (if Ascii.eqb c old then new else c) (replace_byte old new s')
  end.

(** [strings.ReplaceAll(s, old, new)] for one-byte [old] and [new]. *)
Definition ReplaceAll (s : string) (old new : ascii) : string :=
  replace_byte old new s.

(** [strings.Split(s, sep)] for a one-byte separator. *)
Fixpoint Split (s : string) (sep : ascii) : list string :=
  match s with
  | EmptyString => [EmptyString]
  | String c s' =>
      if Ascii.eqb c sep then EmptyString :: Split s' sep
      else match Split s' sep with
           | e :: es => String c e :: es
           | [] => [String c EmptyString]
           end
  end.

Definition Join (elems : list string) (sep : string) : string :=
  String.concat sep elems.

Definition is_space (r : Z * list ascii) : bool := unicode.IsSpace r.1.

(** [strings.Fields]: the maximal runs of runes that are not white space. *)
Fixpoint fields_go (cur : list (Z * list ascii)) (rs : list (Z * list ascii))
    : list string :=
  match rs with
  | [] => if decide (cur = []) then [] else [utf8.bytes cur]
  | r :: rs' =>
      if is_space r
      then (if decide (cur = []) then [] else [utf8.bytes cur]) ++ fields_go [] rs'
      else fields_go (cur ++ [r]) rs'
  end.

Definition Fields (s : string) : list string := fields_go [] (utf8.runes s).

Fixpoint trim_left (rs : list (Z * list ascii)) : list (Z * list ascii) :=
  match rs with
  | r :: rs' => if is_space r then trim_left rs' else rs
  | [] => []
  end.

(** [strings.TrimSpace]: the string without its leading and trailing white
    space, as [unicode.IsSpace] defines it. *)
Definition TrimSpace (s : string) : string :=
  utf8.bytes (reverse (trim_left (reverse (trim_left (utf8.runes s))))).

Definition HasPrefix (s p : string) : bool := String.prefix p s.

(** [strings.Contains(s, substr)]. *)
Fixpoint Contains (s substr : string) : bool :=
  String.prefix substr s ||
  match s with
  | EmptyString => false
  | String _ s' => Contains s' substr
  end.

End strings.

Module strconv.

Definition Itoa (n : Z) : string := pretty n.
Definition FormatInt (n : Z) : string := pretty n.

Fixpoint digits (acc : Z) (s : string) : option Z :=
  match s with
  | EmptyString => Some acc
  | String c s' =>
      match Ascii.is_nat c with
      | Some d => digits (10 * acc + Z.of_nat d) s'
      | None => None
      end
  end.

(** [n, _ := strconv.Atoi(s)]: the value returned when the error is dropped
    (0 on a syntax error, the nearest bound on a range error). *)
Definition Atoi (s : string) : Z :=
  let clamp z := Z.max (- 2 ^ 63) (Z.min (2 ^ 63 - 1) z) in
  match s with
  | EmptyString => 0
  | String "-" (String _ _ as t) => from_option (λ z, clamp (- z)) 0 (digits 0 t)
  | String "+" (String _ _ as t) => from_option clamp 0 (digits 0 t)
  | _ => from_option clamp 0 (digits 0 s)
  end.

(** [strconv.ParseInt(s, 10, 64)], and [strconv.Atoi] where the error is
    looked at: [None] stands for a syntax or range error. *)
Definition ParseInt (s : string) : option Z :=
  let parse (neg : bool) (t : string) :=
    match t with
    | EmptyString => None
    | _ => z ← digits 0 t;
           let n := if neg then - z else z in
           if decide (- 2 ^ 63 ≤ n ≤ 2 ^ 63 - 1) then Some n else None
    end in
  match s with
  | String "-" t => parse true t
  | String "+" t => parse false t
  | _ => parse false s
  end.

End strconv.

(** ** Package [path/filepath] (Unix) *)

Module filepath.

Definition IsAbs (path : string) : bool := strings.HasPrefix path "/".

(** One element of the path processed by [Clean]; [stack] holds the elements
    kept so far, last one first. *)
Definition clean_step (rooted : bool) (stack : list string) (e : string)
    : list string :=
  if decide (e = "" ∨ e = ".") then stack
  else if decide (e = "..") then
    match stack with
    | top :: rest =>
        if decide (top = "..") then (if rooted then stack else ".." :: stack)
        else rest
    | [] => if rooted then [] else [".."]
    end
  else e :: stack.

Definition Clean (path : string) : string :=
  let rooted := IsAbs path in
  let stack := foldl (clean_step rooted) [] (strings.Split path "/") in
  let body := strings.Join (rev stack) "/" in
  let out := if rooted then "/" +:+ body else body in
  if decide (out = "") then "." else out.

Fixpoint drop_empty (elem : list string) : list string :=
  match elem with
  | e :: rest => if decide (e = "") then drop_empty rest else elem
  | [] => []
  end.

Definition Join (elem : list string) : string :=
  match drop_empty elem with
  | [] => ""
  | es => Clean (strings.Join es "/")
  end.

(** [path[:i+1]], [i] the index of the last slash of [path]. *)
Fixpoint up_to_last_slash (path : string) : string :=
  match path with
  | EmptyString => EmptyString
  | String c rest =>
      if strings.Contains path "/" then String c (up_to_last_slash rest)
      else EmptyString
  end.

Definition Dir (path : string) : string := Clean (up_to_last_slash path).

End filepath.


(** ** Package [models]

    The package is not part of the sources at hand; the records list the
    fields the three packages read and write, with the types they are used
    at. *)

Module models.

Record Site : Type := mkSite {
  ID : string;
  UserID : string;
  Name : string;
  Domain : string;
  Aliases : option (list string);
  PHPVersion : string;
  RootPath : string;
  PublicPath : string;
  Status : string;
  WorkerMode : bool;
  WorkerFile : string;
  WorkerNum : Z;
  Environment : option (gmap string string);
  CreatedAt : Z;
  UpdatedAt : Z
}.

Definition set_ID (v : string) (s : Site) : Site :=
  mkSite v (UserID s) (Name s) (Domain s) (Aliases s) (PHPVersion s)
    (RootPath s) (PublicPath s) (Status s) (WorkerMode s) (WorkerFile s)
    (WorkerNum s) (Environment s) (CreatedAt s) (UpdatedAt s).
Definition set_Name (v : string) (s : Site) : Site :=
  mkSite (ID s) (UserID s) v (Domain s) (Aliases s) (PHPVersion s)
    (RootPath s) (PublicPath s) (Status s) (WorkerMode s) (WorkerFile s)
    (WorkerNum s) (Environment s) (CreatedAt s) (UpdatedAt s).
Definition set_Domain (v : string) (s : Site) : Site :=
  mkSite (ID s) (UserID s) (Name s) v (Aliases s) (PHPVersion s)
    (RootPath s) (PublicPath s) (Status s) (WorkerMode s) (WorkerFile s)
    (WorkerNum s) (Environment s) (CreatedAt s) (UpdatedAt s).
Definition set_Aliases (v : option (list string)) (s : Site) : Site :=
  mkSite (ID s) (UserID s) (Name s) (Domain s) v (PHPVersion s)
    (RootPath s) (PublicPath s) (Status s) (WorkerMode s) (WorkerFile s)
    (WorkerNum s) (Environment s) (CreatedAt s) (UpdatedAt s).
Definition set_PHPVersion (v : string) (s : Site) : Site :=
  mkSite (ID s) (UserID s) (Name s) (Domain s) (Aliases s) v
    (RootPath s) (PublicPath s) (Status s) (WorkerMode s) (WorkerFile s)
    (WorkerNum s) (Environment s) (CreatedAt s) (UpdatedAt s).
Definition set_RootPath (v : string) (s : Site) : Site :=
  mkSite (ID s) (UserID s) (Name s) (Domain s) (Aliases s) (PHPVersion s)
    v (PublicPath s) (Status s) (WorkerMode s) (WorkerFile s)
    (WorkerNum s) (Environment s) (CreatedAt s) (UpdatedAt s).
Definition set_PublicPath (v : string) (s : Site) : Site :=
  mkSite (ID s) (UserID s) (Name s) (Domain s) (Aliases s) (PHPVersion s)
    (RootPath s) v (Status s) (WorkerMode s) (WorkerFile s)
    (WorkerNum s) (Environment s) (CreatedAt s) (UpdatedAt s).
Definition set_Status (v : string) (s : Site) : Site :=
  mkSite (ID s) (UserID s) (Name s) (Domain s) (Aliases s) (PHPVersion s)
    (RootPath s) (PublicPath s) v (WorkerMode s) (WorkerFile s)
    (WorkerNum s) (Environment s) (CreatedAt s) (UpdatedAt s).
Definition set_WorkerMode (v : bool) (s : Site) : Site :=
  mkSite (ID s) (UserID s) (Name s) (Domain s) (Aliases s) (PHPVersion s)
    (RootPath s) (PublicPath s) (Status s) v (WorkerFile s)
    (WorkerNum s) (Environment s) (CreatedAt s) (UpdatedAt s).
Definition set_WorkerFile (v : string) (s : Site) : Site :=
  mkSite (ID s) (UserID s) (Name s) (Domain s) (Aliases s) (PHPVersion s)
    (RootPath s) (PublicPath s) (Status s) (WorkerMode s) v
    (WorkerNum s) (Environment s) (CreatedAt s) (UpdatedAt s).
Definition set_WorkerNum (v : Z) (s : Site) : Site :=
  mkSite (ID s) (UserID s) (Name s) (Domain s) (Aliases s) (PHPVersion s)
    (RootPath s) (PublicPath s) (Status s) (WorkerMode s) (WorkerFile s)
    v (Environment s) (CreatedAt s) (UpdatedAt s).
Definition set_Environment (v : option (gmap string string)) (s : Site) : Site :=
  mkSite (ID s) (UserID s) (Name s) (Domain s) (Aliases s) (PHPVersion s)
    (RootPath s) (PublicPath s) (Status s) (WorkerMode s) (WorkerFile s)
    (WorkerNum s) v (CreatedAt s) (UpdatedAt s).
Definition set_CreatedAt (v : Z) (s : Site) : Site :=
  mkSite (ID s) (UserID s) (Name s) (Domain s) (Aliases s) (PHPVersion s)
    (RootPath s) (PublicPath s) (Status s) (WorkerMode s) (WorkerFile s)
    (WorkerNum s) (Environment s) v (UpdatedAt s).
Definition set_UpdatedAt (v : Z) (s : Site) : Site :=
  mkSite (ID s) (UserID s) (Name s) (Domain s) (Aliases s) (PHPVersion s)
    (RootPath s) (PublicPath s) (Status s) (WorkerMode s) (WorkerFile s)
    (WorkerNum s) (Environment s) (CreatedAt s) v.

(** Ranging over a slice that may be nil. *)
Definition aliases (s : Site) : list string := default [] (Aliases s).

Record UserLimits : Type := mkUserLimits {
  Username : string;
  MaxSites : Z;
  MaxDiskMB : Z;
  MaxRAMMB : Z;
  MaxCPUPercent : Z;
  MaxProcesses : Z
}.

Record PHPVersionConfig : Type := mkPHPVersionConfig {
  Version : string;
  Port : Z;
  AdminPort : Z;
  Enabled : bool
}.

End models.

(** ** Package [config]: the fields of [config.Get()] that are read. *)

Module config.

Record Config : Type := mkConfig {
  PHPVersions : list models.PHPVersionConfig;
  SitesDir : string;
  LogDir : string
}.

End config.

(** ** The operating system *)

Module os.

(** What a file holds: the landing page of a site, the bytes
    [json.MarshalIndent] gives for a slice of sites or of limits, a text, or
    what a write that failed half-way left of one of these (a prefix of its
    bytes, possibly none). *)
Inductive Content : Type :=
| LandingPage (name domain : string)
| SitesDoc (sites : list models.Site)
| LimitsDoc (limits : list models.UserLimits)
| Text (s : string)
| Partial (data : Content).

(** What a failed [os.WriteFile] leaves of the file: the open failed and the
    file is as it was; the file was truncated and the write stopped short;
    or all bytes were written and the error came after. *)
Inductive Fault : Type := NotOpened | Truncated | Completed.

(** Mutating system calls, as attempted. *)
Inductive SysCall : Type :=
| SysMkdirAll (path : string)
| SysWriteFile (path : string) (data : Content)
| SysChown (path : string) (uid gid : Z)
| SysChownTree (root : string) (uid gid : Z)
| SysExec (argv : list string).

Record World : Type := mkWorld {
  files : gmap string Content;
  dirs : gset string;
  trace : list SysCall   (* most recent call first *)
}.

Record User : Type := mkUser { Username : string; Uid : string; Gid : string }.

Record Host : Type := mkHost {
  GOOS : string;                            (* runtime.GOOS *)
  LookupId : string → option User;          (* os/user *)
  Lookup : string → option User;
  mkdir_ok : string → bool;                 (* does os.MkdirAll succeed *)
  write_ok : string → bool;                 (* does os.WriteFile succeed *)
  read_ok : string → bool;                  (* may the path be read, stat'ed *)
  look_path : string → bool;                (* exec.LookPath finds the tool *)
  run : list string → option string;        (* output of a spawned command *)
  write_fault : string → Fault              (* what a failed write leaves *)
}.

Definition log (c : SysCall) (w : World) : World :=
  mkWorld (files w) (dirs w) (c :: trace w).

Definition exists_ (w : World) (path : string) : bool :=
  bool_decide (is_Some (files w !! path)) || bool_decide (path ∈ dirs w).

Definition MkdirAll (h : Host) (path : string) : Step World unit :=
  λ w, if mkdir_ok h path
       then (Ok tt, mkWorld (files w) ({[path]} ∪ dirs w)
                      (SysMkdirAll path :: trace w))
       else (Err (ErrOS "mkdir" path), log (SysMkdirAll path) w).

(** [os.WriteFile] opens with [O_TRUNC]: a write that fails may have
    emptied or partly rewritten the file already. *)
Definition WriteFile (h : Host) (path : string) (data : Content)
    : Step World unit :=
  λ w, if write_ok h path
       then (Ok tt, mkWorld (<[path := data]> (files w)) (dirs w)
                      (SysWriteFile path data :: trace w))
       else (Err (ErrOS "write" path),
             mkWorld (match write_fault h path with
                      | NotOpened => files w
                      | Truncated => <[path := Partial data]> (files w)
                      | Completed => <[path := data]> (files w)
                      end)
                     (dirs w) (SysWriteFile path data :: trace w)).

(** The proper ancestors of a path: what stands before each of its
    slashes. *)
Fixpoint ancestors_go (before rest : string) : list string :=
  match rest with
  | EmptyString => []
  | String c rest' =>
      (if Ascii.eqb c "/" && negb (bool_decide (before = ""))
       then [before] else [])
      ++ ancestors_go (before +:+ String c EmptyString) rest'
  end.

Definition ancestors (path : string) : list string := ancestors_go "" path.

(** A regular file stands where the path needs a directory ([ENOTDIR]). *)
Definition under_file (w : World) (path : string) : bool :=
  existsb (λ dir, bool_decide (is_Some (files w !! dir))) (ancestors path).

(** The error of a system call on a path that names no file: the path is
    reported as not existing ([ENOENT], which [os.IsNotExist] accepts) only
    when nothing else is in the way. *)
Definition absent (h : Host) (w : World) (op path : string) : error :=
  if under_file w path then ErrOS op path
  else if read_ok h path then ErrNotExist path
  else ErrOS op path.

Definition ReadFile (h : Host) (path : string) : Step World Content :=
  λ w, match files w !! path with
       | None =>
           if bool_decide (path ∈ dirs w) then (Err (ErrOS "read" path), w)
           else (Err (absent h w "read" path), w)
       | Some c => if read_ok h path then (Ok c, w)
                   else (Err (ErrOS "read" path), w)
       end.

(** [_, err := os.Stat(path)]. *)
Definition Stat (h : Host) (path : string) : Step World unit :=
  λ w, if exists_ w path
       then (if read_ok h path then (Ok tt, w) else (Err (ErrOS "stat" path), w))
       else (Err (absent h w "stat" path), w).

Definition IsNotExist {A} (r : result A) : bool :=
  match r with Err (ErrNotExist _) => true | _ => false end.

Definition Chown (path : string) (uid gid : Z) : Step World unit :=
  step_modify (log (SysChown path uid gid)).

(** [exec.Command(argv...).Run()], [.Output()], [.CombinedOutput()]. *)
Definition Exec (h : Host) (argv : list string) : Step World string :=
  λ w, match run h argv with
       | Some out => (Ok out, log (SysExec argv) w)
       | None => (Err (ErrExec argv), log (SysExec argv) w)
       end.

End os.

(** ** Package [encoding/json] on the records of package [models] *)

Module json.
Import models.

(** A string as it comes back from [json.Marshal] and [json.Unmarshal]:
    every byte that is not part of the encoding of a rune is written as
    [\ufffd] and read back as the three bytes of U+FFFD. *)
Definition replacement : list ascii := ["239"; "191"; "189"]%char.

Definition text (s : string) : string :=
  utf8.bytes ((λ r, if utf8.invalid r then (utf8.RuneError, replacement) else r)
              <$> utf8.runes s).

(** A [map[string]string]: the encoder writes the keys in ascending order
    and the decoder keeps the last value of a key written twice. *)
Definition object (m : gmap string string) : gmap string string :=
  list_to_map
    (reverse ((λ kv : string * string, (text kv.1, text kv.2))
              <$> merge_sort (λ a b : string * string, String.le a.1 b.1)
                    (map_to_list m))).

(** Modelled from the spec: the struct tags of [models.Site] and
    [models.UserLimits] (package [models] is not among the sources).  The
    snapshots are arrays of whole records: every field is written under a
    name of its own and none is left out, so that a record comes back with
    its numbers, booleans and time stamps as they were and its strings as
    [text] gives them. *)
Definition site (s : Site) : Site :=
  mkSite (text (ID s)) (text (UserID s)) (text (Name s)) (text (Domain s))
    ((λ l : list string, text <$> l) <$> Aliases s) (text (PHPVersion s)) (text (RootPath s))
    (text (PublicPath s)) (text (Status s)) (WorkerMode s)
    (text (WorkerFile s)) (WorkerNum s) (object <$> Environment s)
    (CreatedAt s) (UpdatedAt s).

Definition limits (l : UserLimits) : UserLimits :=
  mkUserLimits (text (models.Username l)) (MaxSites l) (MaxDiskMB l)
    (MaxRAMMB l) (MaxCPUPercent l) (MaxProcesses l).

(** [json.Unmarshal] into [[]*models.Site] and into [[]*models.UserLimits]:
    the entries of the array, [None] for a [null], or no array at all when
    the bytes do not decode.  What the bytes of an arbitrary file decode to
    is left open; of the documents [json.MarshalIndent] writes, the decoder
    gives every record back, its strings as [text] has them. *)
Record Codec : Type := mkCodec {
  unmarshal_sites : os.Content → option (list (option Site));
  unmarshal_limits : os.Content → option (list (option UserLimits));
  unmarshal_sites_doc l :
    unmarshal_sites (os.SitesDoc l) = Some (Some ∘ site <$> l);
  unmarshal_limits_doc l :
    unmarshal_limits (os.LimitsDoc l) = Some (Some ∘ limits <$> l)
}.

End json.

(** ** Package [sites]: the site registry *)

Module sites.
Import models.

Record Manager : Type := mkManager {
  sites : gmap string Site;
  domains : gmap string string;          (* domain -> site ID *)
  userLimits : gmap string UserLimits;   (* username -> limits *)
  dataPath : string
}.

Definition NewManager (dataPath : string) : Manager :=
  mkManager ∅ ∅ ∅ dataPath.

(** The registry together with the machine it runs on. *)
Definition St : Type := Manager * os.World.

Definition get_mgr : Step St Manager := λ s, (Ok s.1, s).
Definition in_world {A} (c : Step os.World A) : Step St A :=
  λ s, ((c s.2).1, (s.1, (c s.2).2)).
Definition modify_sites (f : gmap string Site → gmap string Site) : Step St unit :=
  step_modify (λ s : St,
    (mkManager (f (sites s.1)) (domains s.1) (userLimits s.1) (dataPath s.1), s.2)).
Definition modify_domains (f : gmap string string → gmap string string)
    : Step St unit :=
  step_modify (λ s : St,
    (mkManager (sites s.1) (f (domains s.1)) (userLimits s.1) (dataPath s.1), s.2)).
Definition modify_userLimits (f : gmap string UserLimits → gmap string UserLimits)
    : Step St unit :=
  step_modify (λ s : St,
    (mkManager (sites s.1) (domains s.1) (f (userLimits s.1)) (dataPath s.1), s.2)).
(** A write through the [*models.Site] stored under [id]. *)
Definition modify_site (id : string) (f : Site → Site) : Step St unit :=
  modify_sites (alter f id).

(** [m.sites[site.ID] = site; m.domains[site.Domain] = site.ID;
     for _, alias := range site.Aliases { m.domains[alias] = site.ID }],
    the statements [Load] and [Create] both run. *)
Definition add_to_maps (site : Site) : Step St unit :=
  do_ modify_sites <[ID site := site]>;
  do_ modify_domains <[Domain site := ID site]>;
  step_for (aliases site) (λ alias, modify_domains <[alias := ID site]>).

(** The body of the loop over the decoded sites; on a [nil] entry
    [site.ID] panics. *)
Definition load_site (site : option Site) : Step St unit :=
  match site with
  | Some site => add_to_maps site
  | None => step_fail ErrNilPointer
  end.

(** The body of the loop over the decoded limits; on a [nil] entry
    [limit.Username] panics. *)
Definition load_limit (limit : option UserLimits) : Step St unit :=
  match limit with
  | Some limit => modify_userLimits <[models.Username limit := limit]>
  | None => step_fail ErrNilPointer
  end.

Definition Load (cdc : json.Codec) (h : os.Host) : Step St unit :=
  do m <- get_mgr;
  let sitesFile := filepath.Join [dataPath m; "sites.json"] in
  do data <- step_try (in_world (os.ReadFile h sitesFile));
  do_ match data with
      | Err e => if os.IsNotExist data then step_ret tt else step_fail e
      | Ok data =>
          match json.unmarshal_sites cdc data with
          | Some sites => step_for sites load_site
          | None => step_fail ErrJSON
          end
      end;
  let limitsFile := filepath.Join [dataPath m; "user_limits.json"] in
  do limitsData <- step_try (in_world (os.ReadFile h limitsFile));
  match limitsData with
  | Ok limitsData =>
      match json.unmarshal_limits cdc limitsData with
      | Some limits => step_for limits load_limit
      | None => step_ret tt
      end
  | Err _ => step_ret tt
  end.

(** [saveUnlocked]; [Save] is the same code under the read lock. *)
Definition saveUnlocked (h : os.Host) (r : RangeOrder) : Step St unit :=
  do m <- get_mgr;
  let sites := (r _ (sites m)).*2 in
  do_ in_world (os.MkdirAll h (dataPath m));
  in_world (os.WriteFile h (filepath.Join [dataPath m; "sites.json"])
              (os.SitesDoc sites)).


Definition getUsernameFromID (h : os.Host) (userID : string) : string :=
  if decide (userID = "" ∨ userID = "admin") then ""
  else match os.LookupId h userID with
       | Some u => os.Username u
       | None => match os.Lookup h userID with
                 | Some u => os.Username u
                 | None => ""
                 end
       end.

Definition getUIDGID (h : os.Host) (userID : string) : Z * Z :=
  if decide (userID = "" ∨ userID = "admin") then (0, 0)
  else match os.LookupId h userID with
       | Some u => (strconv.Atoi (os.Uid u), strconv.Atoi (os.Gid u))
       | None => match os.Lookup h userID with
                 | Some u => (strconv.Atoi (os.Uid u), strconv.Atoi (os.Gid u))
                 | None => (0, 0)
                 end
       end.

Definition setOwnership (path : string) (uid gid : Z) : Step os.World unit :=
  if decide (uid ≤ 0) then step_ret tt else os.Chown path uid gid.

Definition setOwnershipRecursive (path : string) (uid gid : Z)
    : Step os.World unit :=
  if decide (uid ≤ 0) then step_ret tt
  else step_modify (os.log (os.SysChownTree path uid gid)).

Definition setACL (h : os.Host) (path username : string) : Step os.World unit :=
  if decide (os.GOOS h ≠ "linux") then step_ret tt
  else
    do_ step_ignore (os.Exec h ["chmod"; "750"; path]);
    let cmds := [
      ["setfacl"; "-b"; path];
      ["setfacl"; "-m"; "u:" +:+ username +:+ ":rwx"; path];
      ["setfacl"; "-m"; "u:root:rwx"; path];
      ["setfacl"; "-m"; "g::---"; path];
      ["setfacl"; "-m"; "o::---"; path];
      ["setfacl"; "-d"; "-m"; "u:" +:+ username +:+ ":rwx"; path];
      ["setfacl"; "-d"; "-m"; "u:root:rwx"; path];
      ["setfacl"; "-d"; "-m"; "g::---"; path];
      ["setfacl"; "-d"; "-m"; "o::---"; path]
    ] in
    step_for cmds (λ cmdArgs, step_ignore (os.Exec h cmdArgs)).

Definition createSiteDirectories (h : os.Host) (cfg : config.Config)
    (site : Site) : Step os.World unit :=
  let username := getUsernameFromID h (UserID site) in
  let uid := (getUIDGID h (UserID site)).1 in
  let gid := (getUIDGID h (UserID site)).2 in
  do_ (if decide (username ≠ "" ∧ username ≠ "admin") then
         let userBaseDir := filepath.Join [config.SitesDir cfg; username] in
         do_ os.MkdirAll h userBaseDir;
         if decide (os.GOOS h = "linux") then
           do_ step_ignore (setOwnership userBaseDir uid gid);
           step_ignore (setACL h userBaseDir username)
         else step_ret tt
       else step_ret tt);
  let dirs := [
    RootPath site;
    filepath.Join [RootPath site; PublicPath site];
    filepath.Join [config.LogDir cfg; "sites"; ID site]
  ] in
  do_ step_for dirs (λ dir,
        do_ os.MkdirAll h dir;
        if decide (os.GOOS h = "linux" ∧ 0 < uid)
        then step_ignore (setOwnership dir uid gid)
        else step_ret tt);
  let indexPath := filepath.Join [RootPath site; PublicPath site; "index.php"] in
  do st <- step_try (os.Stat h indexPath);
  do_ (if os.IsNotExist st then
         do_ os.WriteFile h indexPath (os.LandingPage (Name site) (Domain site));
         if decide (os.GOOS h = "linux" ∧ 0 < uid)
         then step_ignore (os.Chown indexPath uid gid)
         else step_ret tt
       else step_ret tt);
  if decide (os.GOOS h = "linux" ∧ 0 < uid)
  then step_ignore (setOwnershipRecursive (RootPath site) uid gid)
  else step_ret tt.

Definition countUserSitesUnlocked (m : Manager) (userID : string) : Z :=
  map_fold (λ _ site count,
              if decide (UserID site = userID) then count + 1 else count)
           0 (sites m).

(** The loop over [cfg.PHPVersions] that sets [validPHP]. *)
Definition validPHP (cfg : config.Config) (version : string) : bool :=
  existsb (λ pv, bool_decide (Version pv = version) && Enabled pv)
          (config.PHPVersions cfg).

(** [Create], "Check if domain already exists". *)
Definition check_domain (m : Manager) (site : Site) : Step St unit :=
  do_ (if decide (is_Some (domains m !! Domain site))
       then step_fail ErrDomainExists else step_ret tt);
  step_for (aliases site) (λ alias,
    if decide (is_Some (domains m !! alias))
    then step_fail (ErrAliasExists alias) else step_ret tt).

(** [Create], "Check site limit for user". *)
Definition check_site_limit (h : os.Host) (m : Manager) (site : Site)
    : Step St unit :=
  if decide (UserID site ≠ "" ∧ UserID site ≠ "admin") then
    let username := getUsernameFromID h (UserID site) in
    match userLimits m !! username with
    | Some limit =>
        if decide (0 < MaxSites limit) then
          let currentCount := countUserSitesUnlocked m (UserID site) in
          if decide (MaxSites limit ≤ currentCount)
          then step_fail ErrSiteLimitReached else step_ret tt
        else step_ret tt
    | None => step_ret tt
    end
  else step_ret tt.

(** [Create] and [Update], "Validate PHP version". *)
Definition check_php_version (cfg : config.Config) (version : string)
    : Step St unit :=
  if validPHP cfg version then step_ret tt else step_fail ErrInvalidPHPVersion.

(** [Create], "Set defaults" up to the two time stamps.  [fresh] is the
    string [uuid.New().String()] returns, [t1] and [t2] the two readings of
    [time.Now()]. *)
Definition with_defaults (h : os.Host) (cfg : config.Config)
    (fresh : string) (t1 t2 : Z) (site : Site) : Site :=
  let site := if decide (ID site = "") then set_ID fresh site else site in
  let site := if decide (Status site = "") then set_Status "active" site else site in
  let site := if decide (PublicPath site = "")
              then set_PublicPath "public" site else site in
  let site :=
    if decide (RootPath site = "") then
      let username := getUsernameFromID h (UserID site) in
      if decide (username ≠ "" ∧ username ≠ "admin")
      then set_RootPath
             (filepath.Join [config.SitesDir cfg; username; Domain site]) site
      else set_RootPath (filepath.Join [config.SitesDir cfg; Domain site]) site
    else site in
  set_UpdatedAt t2 (set_CreatedAt t1 site).

Definition Create (h : os.Host) (cfg : config.Config) (r : RangeOrder)
    (fresh : string) (t1 t2 : Z) (site : Site) : Step St Site :=
  do m <- get_mgr;
  do_ check_domain m site;
  do_ check_site_limit h m site;
  do_ check_php_version cfg (PHPVersion site);
  let site := with_defaults h cfg fresh t1 t2 site in
  do_ wrap_error ErrCreateDirectories
        (in_world (createSiteDirectories h cfg site));
  do_ add_to_maps site;
  do_ saveUnlocked h r;
  step_ret site.

Definition Get (m : Manager) (id : string) : result Site :=
  match sites m !! id with
  | Some site => Ok site
  | None => Err ErrSiteNotFound
  end.

(** [GetByDomain] returns [m.sites[id]], a nil pointer when the index names
    an ID the registry does not hold. *)
Definition GetByDomain (m : Manager) (domain : string) : result (option Site) :=
  match domains m !! domain with
  | Some id => Ok (sites m !! id)
  | None => Err ErrSiteNotFound
  end.

(** [Update], "Check if new domain conflicts with existing". *)
Definition update_domain (id : string) (site updates : Site) : Step St unit :=
  do m <- get_mgr;
  if decide (Domain updates ≠ "" ∧ Domain updates ≠ Domain site) then
    if decide (is_Some (domains m !! Domain updates))
    then step_fail ErrDomainExists
    else
      do_ modify_domains (delete (Domain site));
      do_ modify_site id (set_Domain (Domain updates));
      modify_domains <[Domain updates := id]>
  else step_ret tt.

(** [Update], the block under [if updates.Aliases != nil]. *)
Definition update_aliases (id : string) (site : Site)
    (newAliases : list string) : Step St unit :=
  do_ step_for (aliases site) (λ alias, modify_domains (delete alias));
  do_ step_for newAliases (λ alias,
        do m <- get_mgr;
        match domains m !! alias with
        | Some existingID =>
            if decide (existingID ≠ id)
            then step_fail (ErrAliasExists alias)
            else modify_domains <[alias := id]>
        | None => modify_domains <[alias := id]>
        end);
  modify_site id (set_Aliases (Some newAliases)).

Definition Update (h : os.Host) (cfg : config.Config) (r : RangeOrder)
    (now : Z) (id : string) (updates : Site) : Step St Site :=
  do m <- get_mgr;
  match sites m !! id with
  | None => step_fail ErrSiteNotFound
  | Some site =>
      do_ update_domain id site updates;
      do_ (if decide (Name updates ≠ "")
           then modify_site id (set_Name (Name updates)) else step_ret tt);
      do_ (if decide (PHPVersion updates ≠ "") then
             do_ check_php_version cfg (PHPVersion updates);
             modify_site id (set_PHPVersion (PHPVersion updates))
           else step_ret tt);
      do_ match Aliases updates with
          | Some newAliases => update_aliases id site newAliases
          | None => step_ret tt
          end;
      do_ (if decide (PublicPath updates ≠ "")
           then modify_site id (set_PublicPath (PublicPath updates))
           else step_ret tt);
      do_ (if decide (Status updates ≠ "")
           then modify_site id (set_Status (Status updates)) else step_ret tt);
      do_ modify_site id (set_WorkerMode (WorkerMode updates));
      do_ (if decide (WorkerFile updates ≠ "")
           then modify_site id (set_WorkerFile (WorkerFile updates))
           else step_ret tt);
      do_ (if decide (0 < WorkerNum updates)
           then modify_site id (set_WorkerNum (WorkerNum updates))
           else step_ret tt);
      do_ match Environment updates with
          | Some env => modify_site id (set_Environment (Some env))
          | None => step_ret tt
          end;
      do_ modify_site id (set_UpdatedAt now);
      do_ saveUnlocked h r;
      do m' <- get_mgr;
      step_ret (default site (sites m' !! id))
  end.

Definition Delete (h : os.Host) (r : RangeOrder) (id : string) : Step St unit :=
  do m <- get_mgr;
  match sites m !! id with
  | None => step_fail ErrSiteNotFound
  | Some site =>
      do_ modify_domains (delete (Domain site));
      do_ step_for (aliases site) (λ alias, modify_domains (delete alias));
      do_ modify_sites (delete id);
      saveUnlocked h r
  end.

Definition Suspend (h : os.Host) (r : RangeOrder) (now : Z) (id : string)
    : Step St unit :=
  do m <- get_mgr;
  match sites m !! id with
  | None => step_fail ErrSiteNotFound
  | Some _ =>
      do_ modify_site id (set_Status "suspended");
      do_ modify_site id (set_UpdatedAt now);
      saveUnlocked h r
  end.

Definition Unsuspend (h : os.Host) (r : RangeOrder) (now : Z) (id : string)
    : Step St unit :=
  do m <- get_mgr;
  match sites m !! id with
  | None => step_fail ErrSiteNotFound
  | Some _ =>
      do_ modify_site id (set_Status "active");
      do_ modify_site id (set_UpdatedAt now);
      saveUnlocked h r
  end.

Definition GetUserLimit (m : Manager) (username : string) : UserLimits :=
  match userLimits m !! username with
  | Some limit => limit
  | None => mkUserLimits username 0 0 0 0 0
  end.

Definition saveUserLimitsUnlocked (h : os.Host) (r : RangeOrder) : Step St unit :=
  do m <- get_mgr;
  let limits := (r _ (userLimits m)).*2 in
  do_ in_world (os.MkdirAll h (dataPath m));
  in_world (os.WriteFile h (filepath.Join [dataPath m; "user_limits.json"])
              (os.LimitsDoc limits)).

Definition SetUserLimit (h : os.Host) (r : RangeOrder) (limit : UserLimits)
    : Step St unit :=
  do_ modify_userLimits <[models.Username limit := limit]>;
  saveUserLimitsUnlocked h r.

(** [List]: the sites of one user, all of them for the empty user ID, in
    the order the [range] over the registry visits them. *)
Definition List (r : RangeOrder) (m : Manager) (userID : string) : list Site :=
  filter (λ site, userID = "" ∨ UserID site = userID) (r _ (sites m)).*2.

Definition GetAll (r : RangeOrder) (m : Manager) : list Site :=
  (r _ (sites m)).*2.

Definition CountByPHPVersion (r : RangeOrder) (m : Manager) : gmap string Z :=
  foldl (λ (counts : gmap string Z) (entry : string * Site),
           let site := entry.2 in
           if decide (Status site = "active")
           then <[PHPVersion site := default 0 (counts !! PHPVersion site) + 1]>
                  counts
           else counts)
        ∅ (r _ (sites m)).

(** [GetStats] returns [(total, active)]. *)
Definition GetStats (r : RangeOrder) (m : Manager) : Z * Z :=
  let total := Z.of_nat (size (sites m)) in
  let active :=
    foldl (λ (active : Z) (entry : string * Site),
             if decide (Status entry.2 = "active") then active + 1 else active)
          0 (r _ (sites m)) in
  (total, active).

Definition SecureBaseDirectory (h : os.Host) (sitesDir : string)
    : Step os.World unit :=
  if decide (os.GOOS h ≠ "linux") then step_ret tt
  else
    do_ step_ignore (os.Exec h ["chown"; "root:root"; sitesDir]);
    do_ step_ignore (os.Exec h ["chmod"; "751"; sitesDir]);
    step_ret tt.

End sites.

(** ** Package [caddy]: the Caddyfile generator *)

Module caddy.
Import models.

Definition nl : string := String "010"%char EmptyString.
Definition tab : string := String "009"%char EmptyString.
Definition dq : string := String "034"%char EmptyString.

(** Successive [buf.WriteString] calls, and the pieces of one [Sprintf]. *)
Definition cat (chunks : list string) : string := String.concat "" chunks.

(** sanitizeName converts a string to a valid Caddy matcher name *)
Definition sanitizeName (s : string) : string :=
  strings.ReplaceAll (strings.ReplaceAll s "-" "_") "." "_".

Definition log_block (logPath : string) : list string := [
  tab; "log {"; nl;
  tab; tab; "output file "; logPath; " {"; nl;
  tab; tab; tab; "roll_size 100mb"; nl;
  tab; tab; tab; "roll_keep 5"; nl;
  tab; tab; "}"; nl;
  tab; tab; "format json"; nl;
  tab; "}"; nl;
  "}"; nl;
  nl
].

Definition main_header (httpPort httpsPort : Z) (logPath : string) : string :=
  cat ([
    "# FastCP Main Proxy Configuration"; nl;
    "# Auto-generated - Do not edit manually"; nl;
    nl;
    "{"; nl;
    tab; "admin localhost:2019"; nl;
    tab; nl;
    tab; "# Disable automatic HTTPS for local development"; nl;
    tab; "auto_https off"; nl;
    tab; nl;
    tab; "# HTTP port configuration"; nl;
    tab; "http_port "; pretty httpPort; nl;
    tab; "https_port "; pretty httpsPort; nl;
    tab; nl
  ] ++ log_block logPath).

(** [versionPorts]: the port of each enabled PHP version. *)
Definition versionPorts (phpVersions : list PHPVersionConfig) : gmap string Z :=
  foldl (λ (ports : gmap string Z) pv,
           if Enabled pv then <[Version pv := Port pv]> ports else ports)
        ∅ phpVersions.

Definition proxy_block (ports : gmap string Z) (site : Site) : string :=
  if decide (Status site ≠ "active") then ""
  else match ports !! PHPVersion site with
       | None => ""
       | Some port =>
           let domains := Domain site :: aliases site in
           let domains := (λ d, "http://" +:+ d) <$> domains in
           cat [
             cat ["# Site: "; Name site; " (PHP "; PHPVersion site; ")"; nl];
             strings.Join domains ", ";
             " {"; nl;
             cat [tab; "reverse_proxy localhost:"; pretty port; nl];
             "}"; nl; nl
           ]
       end.

Definition GenerateMainProxy (cfg : config.Config) (sites : list Site)
    (phpVersions : list PHPVersionConfig) (httpPort httpsPort : Z)
    : string * option error :=
  let logPath := filepath.Join [config.LogDir cfg; "caddy-proxy.log"] in
  let ports := versionPorts phpVersions in
  (cat [
     main_header httpPort httpsPort logPath;
     cat (proxy_block ports <$> sites);
     cat [
       "# Default fallback for unmatched domains"; nl;
       ":"; pretty httpPort; " {"; nl;
       tab; "respond "; dq; "Site not found. Configure your domain in FastCP.";
       dq; " 404"; nl;
       "}"; nl
     ]
   ], None).

Definition instance_header (version : string) (adminPort : Z) (logPath : string)
    : string :=
  cat ([
    "# FastCP PHP "; version; " Instance Configuration"; nl;
    "# Auto-generated - Do not edit manually"; nl;
    nl;
    "{"; nl;
    tab; "admin localhost:"; pretty adminPort; nl;
    tab; nl;
    tab; "frankenphp"; nl;
    tab; nl
  ] ++ log_block logPath).

(** [for key, value := range site.Environment], in the order [entries]. *)
Definition env_lines (entries : list (string * string)) : string :=
  cat ((λ kv, cat [tab; tab; tab; "env "; kv.1; " "; kv.2; nl]) <$> entries).

Definition env_entries (r : RangeOrder) (site : Site) : list (string * string) :=
  match Environment site with
  | Some env => r _ env
  | None => []
  end.

Definition worker_fallback (workerPath : string) : string :=
  cat [
    tab; tab; "# WARNING: Worker file not found, falling back to regular mode"; nl;
    tab; tab; "# Expected: "; workerPath; nl;
    tab; tab; "php_server"; nl
  ].

Definition worker_directive (workerPath : string) (workerNum : Z)
    (entries : list (string * string)) : string :=
  cat [
    tab; tab; "php_server {"; nl;
    cat [tab; tab; tab; "worker "; workerPath; " "; pretty workerNum; nl];
    env_lines entries;
    tab; tab; "}"; nl
  ].

(** [len(site.Environment)]. *)
Definition env_len (site : Site) : nat :=
  match Environment site with
  | Some env => size env
  | None => 0
  end.

Definition standard_directive (len : nat) (entries : list (string * string))
    : string :=
  cat [
    tab; tab; "php_server";
    if decide (0 < len)%nat
    then cat [" {"; nl; env_lines entries; tab; tab; "}"] else "";
    nl
  ].

(** The [php_server] directive of one site. *)
Definition php_server (h : os.Host) (w : os.World) (r : RangeOrder)
    (site : Site) (rootPath : string) : string :=
  if WorkerMode site && bool_decide (WorkerFile site ≠ "") then
    let workerNum := if decide (WorkerNum site ≤ 0) then 2 else WorkerNum site in
    let workerPath :=
      if filepath.IsAbs (WorkerFile site) then WorkerFile site
      else filepath.Join [rootPath; WorkerFile site] in
    match (os.Stat h workerPath w).1 with
    | Err _ => worker_fallback workerPath
    | Ok _ => worker_directive workerPath workerNum (env_entries r site)
    end
  else standard_directive (env_len site) (env_entries r site).

(** The body of the loop over [versionSites]. *)
Definition site_block (h : os.Host) (w : os.World) (r : RangeOrder)
    (site : Site) : string :=
  let domains := Domain site :: aliases site in
  let matcherName := sanitizeName (ID site) in
  let rootPath := filepath.Join [RootPath site; PublicPath site] in
  cat [
    cat [nl; tab; "# Site: "; Name site; " ("; Domain site; ")"; nl];
    cat [tab; "@"; matcherName; " host "; strings.Join domains " "; nl];
    cat [tab; "handle @"; matcherName; " {"; nl];
    cat [tab; tab; "root * "; rootPath; nl];
    cat [tab; tab; "encode zstd br gzip"; nl];
    php_server h w r site rootPath;
    cat [tab; "}"; nl]
  ].

Definition versionSites (version : string) (sites : list Site) : list Site :=
  filter (λ site, PHPVersion site = version ∧ Status site = "active") sites.

(** [r i] is the order of the [range] over the environment of the [i]-th
    rendered site. *)
Definition GeneratePHPInstance (h : os.Host) (w : os.World)
    (cfg : config.Config) (r : nat → RangeOrder)
    (version : string) (port adminPort : Z) (sites : list Site)
    : string * option error :=
  let versionSites := versionSites version sites in
  let logPath :=
    filepath.Join [config.LogDir cfg; cat ["php-"; version; ".log"]] in
  let header := instance_header version adminPort logPath in
  if decide (length versionSites = 0%nat) then
    (cat [
       header;
       cat ["# No sites configured for PHP "; version; nl];
       cat [":"; pretty port; " {"; nl];
       cat [tab; "respond "; dq; "No sites configured"; dq; " 503"; nl];
       "}"; nl
     ], None)
  else
    (cat [
       header;
       cat [":"; pretty port; " {"; nl];
       cat (imap (λ i site, site_block h w (r i) site) versionSites);
       cat [nl; tab; "# Default fallback"; nl];
       cat [tab; "handle {"; nl];
       cat [tab; tab; "respond "; dq; "Site not found"; dq; " 404"; nl];
       cat [tab; "}"; nl];
       "}"; nl
     ], None).

Record Generator : Type := mkGenerator {
  templatesDir : string;
  outputDir : string
}.

Definition NewGenerator (templatesDir outputDir : string) : Generator :=
  mkGenerator templatesDir outputDir.

Definition writeFile (h : os.Host) (path content : string) : Step os.World unit :=
  let dir := filepath.Dir path in
  do_ os.MkdirAll h dir;
  os.WriteFile h path (os.Text content).

Definition WriteMainProxy (h : os.Host) (g : Generator) (content : string)
    : Step os.World unit :=
  let path := filepath.Join [outputDir g; "Caddyfile.proxy"] in
  writeFile h path content.

Definition WritePHPInstance (h : os.Host) (g : Generator)
    (version content : string) : Step os.World unit :=
  let path := filepath.Join [outputDir g; cat ["Caddyfile.php-"; version]] in
  writeFile h path content.

End caddy.

(** ** Package [limits]: cgroup limits and disk quota *)

Module limits.
Import models.

Record Manager : Type := mkManager { cgroupPath : string }.

Definition NewManager : Manager := mkManager "/sys/fs/cgroup".

Definition isCgroupV2 (h : os.Host) (m : Manager) (w : os.World) : bool :=
  is_ok (os.Stat h (filepath.Join [cgroupPath m; "cgroup.controllers"]) w).1.

Definition cgroupDir (m : Manager) (limits : UserLimits) : string :=
  filepath.Join [cgroupPath m; "fastcp-" +:+ models.Username limits].

(** The three control files of the tenant's cgroup. *)
Definition memFile (m : Manager) (limits : UserLimits) : string :=
  filepath.Join [cgroupDir m limits; "memory.max"].
Definition cpuFile (m : Manager) (limits : UserLimits) : string :=
  filepath.Join [cgroupDir m limits; "cpu.max"].
Definition pidsFile (m : Manager) (limits : UserLimits) : string :=
  filepath.Join [cgroupDir m limits; "pids.max"].

Definition applyCgroupLimits (h : os.Host) (m : Manager) (limits : UserLimits)
    : Step os.World unit :=
  do w <- step_get;
  if negb (isCgroupV2 h m w) then step_ret tt
  else
    let cgroupDir := cgroupDir m limits in
    do_ wrap_error ErrCreateCgroup (os.MkdirAll h cgroupDir);
    let controllers := "+cpu +memory +pids" in
    do_ step_ignore (os.WriteFile h
          (filepath.Join [cgroupPath m; "cgroup.subtree_control"])
          (os.Text controllers));
    do_ (if decide (0 < MaxRAMMB limits) then
           let memBytes := wrap64 (wrap64 (MaxRAMMB limits * 1024) * 1024) in
           step_ignore (os.WriteFile h (memFile m limits)
                          (os.Text (strconv.FormatInt memBytes)))
         else step_ret tt);
    do_ (if decide (0 < MaxCPUPercent limits) then
           let period := 100000 in
           let quota := wrap64 (MaxCPUPercent limits * period) `quot` 100 in
           let cpuMax := pretty quota +:+ " " +:+ pretty period in
           step_ignore (os.WriteFile h (cpuFile m limits) (os.Text cpuMax))
         else step_ret tt);
    (if decide (0 < MaxProcesses limits) then
       step_ignore (os.WriteFile h (pidsFile m limits)
                      (os.Text (strconv.Itoa (MaxProcesses limits))))
     else step_ret tt).

Record userInfo : Type := mkUserInfo { Username : string; UID : Z; GID : Z }.

Definition lookupUser (h : os.Host) (username : string)
    : Step os.World userInfo :=
  do uidOutput <- os.Exec h ["id"; "-u"; username];
  let uid := strconv.Atoi (strings.TrimSpace uidOutput) in
  do gidOutput <- os.Exec h ["id"; "-g"; username];
  let gid := strconv.Atoi (strings.TrimSpace gidOutput) in
  step_ret (mkUserInfo username uid gid).

Definition getFilesystem (h : os.Host) (path : string) : Step os.World string :=
  do output <- os.Exec h ["df"; "-P"; path];
  match strings.Split output "010" with
  | _ :: line1 :: _ =>
      match strings.Fields line1 with
      | field0 :: _ => step_ret field0
      | [] => step_fail ErrDfOutput
      end
  | _ => step_fail ErrDfOutput
  end.

Definition applyDiskQuota (h : os.Host) (limits : UserLimits)
    : Step os.World unit :=
  if decide (MaxDiskMB limits = 0) then step_ret tt
  else if negb (os.look_path h "setquota") then step_ret tt
  else
    do u <- wrap_error ErrUserNotFound (lookupUser h (models.Username limits));
    let softLimit := wrap64 (MaxDiskMB limits * 1024) in
    let hardLimit := wrap64 (MaxDiskMB limits * 1024) in
    let softInodes := 100000 in
    let hardInodes := 150000 in
    do fs <- step_try (getFilesystem h "/var/www");
    match fs with
    | Err _ => step_ret tt
    | Ok filesystem =>
        step_ignore (os.Exec h [
          "setquota"; "-u"; Username u;
          strconv.FormatInt softLimit;
          strconv.FormatInt hardLimit;
          strconv.FormatInt softInodes;
          strconv.FormatInt hardInodes;
          filesystem
        ])
    end.

Definition ApplyLimits (h : os.Host) (m : Manager) (limits : UserLimits)
    : Step os.World unit :=
  if decide (os.GOOS h ≠ "linux") then step_ret tt
  else
    do cg <- step_try (applyCgroupLimits h m limits);
    let errors := match cg with
                  | Err e => [ErrCgroup e]
                  | Ok _ => []
                  end in
    do dq <- step_try (applyDiskQuota h limits);
    let errors := match dq with
                  | Err e => errors ++ [ErrQuota e]
                  | Ok _ => errors
                  end in
    if decide (0 < length errors)%nat
    then step_fail (ErrSomeLimits errors)
    else step_ret tt.

Record ResourceUsage : Type := mkResourceUsage {
  UsageUsername : string;       (* the field [Username] *)
  RAMUsedMB : Z;
  CPUUsageMicros : Z;
  DiskUsedMB : Z;
  ProcessCount : Z
}.

(** The first line of the [quota] report that names a file system and whose
    second field is a number gives the blocks used. *)
Definition quota_line (line : string) : option Z :=
  if strings.Contains line "/" then
    match strings.Fields line with
    | _ :: field1 :: _ => strconv.ParseInt field1
    | _ => None
    end
  else None.

Definition getDiskUsage (h : os.Host) (username : string) : Step os.World Z :=
  do quota <- step_try (os.Exec h ["quota"; "-u"; username]);
  let used := match quota with
              | Ok output => head (omap quota_line (strings.Split output "010"))
              | Err _ => None
              end in
  match used with
  | Some used => step_ret (used `quot` 1024)
  | None =>
      let userDir := filepath.Join ["/var/www"; username] in
      do output <- os.Exec h ["du"; "-sm"; userDir];
      match strings.Fields output with
      | field0 :: _ => step_ret (strconv.Atoi field0)
      | [] => step_ret 0
      end
  end.

(** The [usage_usec] figure of one line of [cpu.stat], if it has one. *)
Definition usage_usec (line : string) : option Z :=
  if strings.HasPrefix line "usage_usec" then
    match strings.Fields line with
    | _ :: part1 :: _ => strconv.ParseInt part1
    | _ => None
    end
  else None.

(** [GetUsage].  [bytes] gives the text of a file, [string(data)]. *)
Definition GetUsage (h : os.Host) (bytes : os.Content → string) (m : Manager)
    (username : string) : Step os.World ResourceUsage :=
  if decide (os.GOOS h ≠ "linux") then
    step_ret (mkResourceUsage username 0 0 0 0)
  else
    let cgroupDir := filepath.Join [cgroupPath m; "fastcp-" +:+ username] in
    do mem <- step_try (os.ReadFile h (filepath.Join [cgroupDir; "memory.current"]));
    let ram := match mem with
               | Ok data =>
                   match strconv.ParseInt (strings.TrimSpace (bytes data)) with
                   | Some n => n `quot` (1024 * 1024)
                   | None => 0
                   end
               | Err _ => 0
               end in
    do stat <- step_try (os.ReadFile h (filepath.Join [cgroupDir; "cpu.stat"]));
    let cpu := match stat with
               | Ok data =>
                   foldl (λ cpu line, default cpu (usage_usec line)) 0
                         (strings.Split (bytes data) "010")
               | Err _ => 0
               end in
    do pids <- step_try (os.ReadFile h (filepath.Join [cgroupDir; "pids.current"]));
    let count := match pids with
                 | Ok data =>
                     default 0 (strconv.ParseInt (strings.TrimSpace (bytes data)))
                 | Err _ => 0
                 end in
    do diskUsage <- step_try (getDiskUsage h username);
    let disk := match diskUsage with
                | Ok mb => mb
                | Err _ => 0
                end in
    step_ret (mkResourceUsage username ram cpu disk count).

Definition AddProcessToCgroup (h : os.Host) (m : Manager) (username : string)
    (pid : Z) : Step os.World unit :=
  if decide (os.GOOS h ≠ "linux") then step_ret tt
  else
    let cgroupDir := filepath.Join [cgroupPath m; "fastcp-" +:+ username] in
    let procsFile := filepath.Join [cgroupDir; "cgroup.procs"] in
    os.WriteFile h procsFile (os.Text (strconv.Itoa pid)).

End limits.

(** ** Sample machine, configuration and sites used in the examples *)

Module sample.
Import models.

Definition bob : os.User := os.mkUser "bob" "1001" "1001".

Definition host : os.Host :=
  os.mkHost "linux"
    (λ id, if decide (id = "1001") then Some bob else None)
    (λ name, if decide (name = "bob") then Some bob else None)
    (λ _, true) (λ _, true) (λ _, true) (λ _, false) (λ _, None)
    (λ _, os.NotOpened).

(** A decoder that reads the documents the registry writes, and the text
    [[null]] as an array of one [null]. *)
Definition codec : json.Codec :=
  json.mkCodec
    (λ data, match data with
             | os.SitesDoc l => Some (Some ∘ json.site <$> l)
             | os.Text "[null]" => Some [None]
             | _ => None
             end)
    (λ data, match data with
             | os.LimitsDoc l => Some (Some ∘ json.limits <$> l)
             | os.Text "[null]" => Some [None]
             | _ => None
             end)
    (λ _, eq_refl) (λ _, eq_refl).

Definition cfg : config.Config :=
  config.mkConfig
    [mkPHPVersionConfig "8.3" 9001 2020 true;
     mkPHPVersionConfig "8.2" 9002 2021 false]
    "/var/www" "/var/log/fastcp".

(** Two admissible iteration orders. *)
Definition ascending : RangeOrder := λ A m, map_to_list m.
Definition descending : RangeOrder := λ A m, reverse (map_to_list m).

Definition world0 : os.World := os.mkWorld ∅ ∅ [].
Definition start : sites.St := (sites.NewManager "/var/lib/fastcp", world0).

Definition site (id owner domain : string) (aliases : option (list string))
    (php : string) : Site :=
  mkSite id owner id domain aliases php "" "" "" false "" 0 None 0 0.

Definition siteA : Site := site "a" "" "a.test" (Some ["www.a.test"]) "8.3".
Definition siteB : Site := site "b" "" "b.test" None "8.3".

(** The registry after [Create(siteA)] and [Create(siteB)]. *)
Definition two_sites : sites.St :=
  (sites.Create host cfg ascending "u2" 2 2 siteB
     (sites.Create host cfg ascending "u1" 1 1 siteA start).2).2.



(** A patch that only sets the aliases, to a hostname [siteB] holds. *)
Definition alias_patch : Site := site "" "" "" (Some ["b.test"]) "".

(** The registry after the [Update] of [siteA] with [alias_patch]. *)
Definition after_failed_update : sites.St :=
  (sites.Update host cfg ascending 3 "a" alias_patch two_sites).2.

(** A patch with every field empty, zero, false or nil. *)
Definition empty_patch : Site := site "" "" "" None "".

(** A patch that renames the site and turns worker mode on. *)
Definition rename_patch : Site :=
  mkSite "" "" "renamed" "" None "" "" "" "" true "worker.php" 4 None 0 0.

(** A site on a taken domain and a PHP version that is not installed, and
    one on a free domain. *)
Definition clash : Site := site "c" "" "a.test" None "5.6".
Definition no_php : Site := site "c" "" "c.test" None "5.6".

(** An owner limited to one site, who has one. *)
Definition bob_limit : UserLimits := mkUserLimits "bob" 1 0 0 0 0.
Definition bob_site : Site := site "s1" "bob" "bob.test" None "8.3".
Definition bob_again : Site := site "s2" "bob" "bob.test" None "8.3".
Definition bob_other : Site := site "s3" "bob" "other.test" None "8.3".
Definition admin_site : Site := site "s4" "admin" "admin.test" None "8.3".
Definition bob_full : sites.St :=
  (sites.Create host cfg ascending "u1" 1 1 bob_site
     (sites.SetUserLimit host ascending bob_limit start).2).2.

(** Sites for the generator. *)
Definition env_site : Site :=
  mkSite "e" "" "env" "env.test" None "8.3" "/var/www/env.test" "public"
    "active" false "" 0 (Some {["APP_ENV" := "prod"; "DEBUG" := "0"]}) 0 0.
Definition spaced_site : Site :=
  mkSite "my site" "" "spaced" "s.test" None "8.3" "/var/www/s.test" "public"
    "active" false "" 0 None 0 0.
Definition worker_site : Site :=
  mkSite "w" "" "worker" "w.test" None "8.3" "/var/www/w.test" "public"
    "active" true "worker.php" 0 None 0 0.

(** A Linux machine with cgroup v2 mounted, and a tenant without limits. *)
Definition cgroup_world : os.World :=
  os.mkWorld {["/sys/fs/cgroup/cgroup.controllers" := os.Text "cpu memory pids"]}
    ∅ [].
Definition no_limits : UserLimits := mkUserLimits "bob" 0 0 0 0 0.

(** The site [Create(siteA)] stores, and the registry after that call. *)
Definition stored_a : Site := sites.with_defaults host cfg "u1" 1 1 siteA.
Definition one_site : sites.St :=
  (sites.Create host cfg ascending "u1" 1 1 siteA start).2.

(** The same machine with a snapshot file that cannot be written, and a
    machine that is not Linux. *)
Definition no_snapshot_host : os.Host :=
  os.mkHost "linux"
    (λ id, if decide (id = "1001") then Some bob else None)
    (λ name, if decide (name = "bob") then Some bob else None)
    (λ _, true) (λ path, bool_decide (path ≠ "/var/lib/fastcp/sites.json"))
    (λ _, true) (λ _, false) (λ _, None) (λ _, os.Truncated).
(** A machine whose disk is full: every write stops after the file has been
    truncated. *)
Definition full_disk_host : os.Host :=
  os.mkHost "linux" (λ _, None) (λ _, None)
    (λ _, true) (λ _, false) (λ _, true) (λ _, false) (λ _, None)
    (λ _, os.Truncated).
Definition darwin_host : os.Host :=
  os.mkHost "darwin" (λ _, None) (λ _, None)
    (λ _, true) (λ _, true) (λ _, true) (λ _, false) (λ _, None)
    (λ _, os.NotOpened).

(** The UTF-8 encodings of the no-break space U+00A0 and of the next-line
    character U+0085. *)
Definition nbsp : string := String "194" (String "160" EmptyString).
Definition nel : string := String "194" (String "133" EmptyString).

(** A tenant with every cgroup limit set, and the counters of its cgroup:
    the process count as the kernel prints it, the memory with a no-break
    space before it and a next-line character after it. *)
Definition bob_limits : UserLimits := mkUserLimits "bob" 5 0 512 50 100.
Definition usage_world : os.World :=
  os.mkWorld
    {["/sys/fs/cgroup/fastcp-bob/memory.current" :=
        os.Text (nbsp +:+ "1073741824" +:+ nel +:+ caddy.nl);
      "/sys/fs/cgroup/fastcp-bob/pids.current" := os.Text ("7" +:+ caddy.nl)]}
    ∅ [].
Definition text (data : os.Content) : string :=
  match data with
  | os.Text s => s
  | _ => ""
  end.

(** Sites for the main proxy: one suspended, one on a disabled version. *)
Definition suspended_site : Site :=
  mkSite "x" "" "parked" "x.test" None "8.3" "/var/www/x.test" "public"
    "suspended" false "" 0 None 0 0.
Definition legacy_site : Site :=
  mkSite "l" "" "legacy" "l.test" None "8.2" "/var/www/l.test" "public"
    "active" false "" 0 None 0 0.

End sample.


(** ** Notions the properties are stated with *)

(** The hostnames a site answers to. *)
Definition claims (site : models.Site) (host : string) : Prop :=
  models.Domain site = host ∨ host ∈ models.aliases site.

(** The domain index maps [host] to [id] exactly when the registry holds a
    site with that ID whose domain or aliases include [host]. *)
Definition index_consistent (m : sites.Manager) : Prop :=
  ∀ host id,
    sites.domains m !! host = Some id ↔
    ∃ site, sites.sites m !! id = Some site ∧ claims site host.

(** Every site is stored under its own ID. *)
Definition keyed_by_id (m : sites.Manager) : Prop :=
  ∀ id site, sites.sites m !! id = Some site → models.ID site = id.

(** The states a registry goes through: created empty on some machine, then
    any sequence of the operations, whether they return an error or not. *)
Inductive reachable : sites.St → Prop :=
| reach_new dataPath w :
    reachable (sites.NewManager dataPath, w)
| reach_Load cdc h s :
    reachable s → reachable (sites.Load cdc h s).2
| reach_Create h cfg r fresh t1 t2 site s :
    reachable s → reachable (sites.Create h cfg r fresh t1 t2 site s).2
| reach_Update h cfg r now id updates s :
    reachable s → reachable (sites.Update h cfg r now id updates s).2
| reach_Delete h r id s :
    reachable s → reachable (sites.Delete h r id s).2
| reach_Suspend h r now id s :
    reachable s → reachable (sites.Suspend h r now id s).2
| reach_Unsuspend h r now id s :
    reachable s → reachable (sites.Unsuspend h r now id s).2.

(** The index entries [add_to_maps] writes for one site. *)
Definition index_site (site : models.Site) (d : gmap string string)
    : gmap string string :=
  foldl (λ d alias, <[alias := models.ID site]> d)
        (<[models.Domain site := models.ID site]> d) (models.aliases site).


(** [Create]'s first check: the domain or an alias is already indexed. *)
Definition domain_conflict (m : sites.Manager) (site : models.Site) : Prop :=
  is_Some (sites.domains m !! models.Domain site) ∨
  ∃ alias, alias ∈ models.aliases site ∧ is_Some (sites.domains m !! alias).

(** [Create]'s second check: a limited owner already has [MaxSites] sites. *)
Definition over_quota (h : os.Host) (m : sites.Manager) (site : models.Site)
    : Prop :=
  models.UserID site ≠ "" ∧ models.UserID site ≠ "admin" ∧
  ∃ limit,
    sites.userLimits m !! sites.getUsernameFromID h (models.UserID site)
      = Some limit ∧
    0 < models.MaxSites limit ∧
    models.MaxSites limit ≤ sites.countUserSitesUnlocked m (models.UserID site).

(** What [Create] does once the three checks have passed. *)
Definition Create_register (h : os.Host) (cfg : config.Config) (r : RangeOrder)
    (fresh : string) (t1 t2 : Z) (site : models.Site) : Step sites.St models.Site :=
  let site := sites.with_defaults h cfg fresh t1 t2 site in
  do_ wrap_error ErrCreateDirectories
        (sites.in_world (sites.createSiteDirectories h cfg site));
  do_ sites.add_to_maps site;
  do_ sites.saveUnlocked h r;
  step_ret site.

(** What a successful [Update(id, patch)] leaves under [id], given the site
    [old] that was there: the patch merged field by field. *)
Definition merge_patch (now : Z) (patch old : models.Site) : models.Site :=
  models.mkSite
    (models.ID old)
    (models.UserID old)
    (if decide (models.Name patch = "")
     then models.Name old else models.Name patch)
    (if decide (models.Domain patch = "")
     then models.Domain old else models.Domain patch)
    (match models.Aliases patch with
     | Some newAliases => Some newAliases
     | None => models.Aliases old
     end)
    (if decide (models.PHPVersion patch = "")
     then models.PHPVersion old else models.PHPVersion patch)
    (models.RootPath old)
    (if decide (models.PublicPath patch = "")
     then models.PublicPath old else models.PublicPath patch)
    (if decide (models.Status patch = "")
     then models.Status old else models.Status patch)
    (models.WorkerMode patch)
    (if decide (models.WorkerFile patch = "")
     then models.WorkerFile old else models.WorkerFile patch)
    (if decide (0 < models.WorkerNum patch)
     then models.WorkerNum patch else models.WorkerNum old)
    (match models.Environment patch with
     | Some env => Some env
     | None => models.Environment old
     end)
    (models.CreatedAt old)
    now.

(** [f] applied when [P] holds: [if P { site.X = v }]. *)
Definition when (P : Prop) `{!Decision P} (f : models.Site → models.Site)
    (site : models.Site) : models.Site :=
  if decide P then f site else site.

(** When [c] succeeds, the registry's sites are the ones before with [f]
    applied to the site stored under [id], and [post] holds of the value
    returned and the state reached. *)
Definition updates_site {A} (id : string) (f : models.Site → models.Site)
    (post : A → sites.St → Prop) (c : Step sites.St A) : Prop :=
  ∀ s a s', c s = (Ok a, s') →
    sites.sites s'.1 = alter f id (sites.sites s.1) ∧ post a s'.

(** Every error a computation can stop with satisfies [Q]. *)
Definition fails_with {S A} (Q : error → Prop) (c : Step S A) : Prop :=
  ∀ s e, (c s).1 = Err e → Q e.

(** [part] is a contiguous piece of [doc]. *)
Definition occurs_in (part doc : string) : Prop :=
  ∃ pre post, doc = pre +:+ part +:+ post.

(** [index_consistent], as a test that can be run on a given registry. *)
Definition claims_b (site : models.Site) (host : string) : bool :=
  bool_decide (models.Domain site = host) ||
  bool_decide (host ∈ models.aliases site).

Definition index_consistent_b (m : sites.Manager) : bool :=
  forallb (λ hi : string * string,
             match sites.sites m !! hi.2 with
             | Some site => claims_b site hi.1
             | None => false
             end)
          (map_to_list (sites.domains m)) &&
  forallb (λ entry : string * models.Site,
             forallb (λ host,
                        bool_decide (sites.domains m !! host = Some entry.1))
                     (models.Domain entry.2 :: models.aliases entry.2))
          (map_to_list (sites.sites m)).

(** The system calls a computation adds to the trace all satisfy [P]. *)
Definition emits {A} (P : os.SysCall → Prop) (c : Step os.World A) : Prop :=
  ∀ w, ∃ calls, os.trace (c w).2 = calls ++ os.trace w ∧ Forall P calls.

(** The calls a run of [ApplyLimits] may make, given which limits are zero. *)
Definition respects_zero (m : limits.Manager) (lim : models.UserLimits)
    (c : os.SysCall) : Prop :=
  (models.MaxRAMMB lim = 0 →
     ∀ data, c ≠ os.SysWriteFile (limits.memFile m lim) data) ∧
  (models.MaxCPUPercent lim = 0 →
     ∀ data, c ≠ os.SysWriteFile (limits.cpuFile m lim) data) ∧
  (models.MaxProcesses lim = 0 →
     ∀ data, c ≠ os.SysWriteFile (limits.pidsFile m lim) data) ∧
  (models.MaxDiskMB lim = 0 → ∀ argv, c ≠ os.SysExec argv).

(** The last element of a slash-separated path. *)
Definition last_element (path : string) : option string :=
  last (strings.Split path "/").

Fixpoint has_byte (c : ascii) (s : string) : bool :=
  match s with
  | EmptyString => false
  | String c' s' => Ascii.eqb c' c || has_byte c s'
  end.

(** A file name proper: not empty, not [.] or [..], without a slash. *)
Definition plain_name (name : string) : Prop :=
  name ≠ "" ∧ name ≠ "." ∧ name ≠ ".." ∧ has_byte "/" name = false.

(** Two sites that answer to the same hostnames. *)
Definition same_hosts (a b : models.Site) : Prop :=
  models.Domain a = models.Domain b ∧ models.Aliases a = models.Aliases b.

(** From [s] to [s'] the domain index is unchanged, the same IDs are stored
    and every site answers to the hostnames it answered to. *)
Definition index_neutral (s s' : sites.St) : Prop :=
  sites.domains s'.1 = sites.domains s.1 ∧
  ∀ id, option_Forall2 same_hosts (sites.sites s.1 !! id) (sites.sites s'.1 !! id).

(** Every run of [c] takes a state to one related to it by [R], whether it
    returns an error or not. *)
Definition preserves {A} (R : relation sites.St) (c : Step sites.St A) : Prop :=
  ∀ s, R s (c s).2.

(** The entries of a decoded array before its first [null], where the loop
    over them stops. *)
Fixpoint before_null {A} (entries : list (option A)) : list A :=
  match entries with
  | Some x :: rest => x :: before_null rest
  | _ => []
  end.

Definition has_null {A} (entries : list (option A)) : bool :=
  existsb (λ entry, negb (bool_decide (is_Some entry))) entries.

(** The registry after the statements of [Load]'s first loop have run for
    the sites [l], and after those of its second loop have run for the
    limits [l]. *)
Definition with_sites (l : list models.Site) (m : sites.Manager) : sites.Manager :=
  sites.mkManager
    (foldl (λ m site, <[models.ID site := site]> m) (sites.sites m) l)
    (foldl (λ d site, index_site site d) (sites.domains m) l)
    (sites.userLimits m) (sites.dataPath m).

Definition with_limits (l : list models.UserLimits) (m : sites.Manager)
    : sites.Manager :=
  sites.mkManager (sites.sites m) (sites.domains m)
    (foldl (λ ul limit, <[models.Username limit := limit]> ul)
           (sites.userLimits m) l)
    (sites.dataPath m).

(** What [Load] gets when it reads the snapshot file of the data directory
    [dataPath] on the machine [w]. *)
Definition read_sites (h : os.Host) (dataPath : string) (w : os.World)
    : result os.Content :=
  (os.ReadFile h (filepath.Join [dataPath; "sites.json"]) w).1.

(** The entries of the limits file: none when the file cannot be read or
    does not decode, in which case [Load] goes on without them. *)
Definition limits_entries (cdc : json.Codec) (h : os.Host) (dataPath : string)
    (w : os.World) : list (option models.UserLimits) :=
  match (os.ReadFile h (filepath.Join [dataPath; "user_limits.json"]) w).1 with
  | Ok data => default [] (json.unmarshal_limits cdc data)
  | Err _ => []
  end.

(** [Load] gets past the snapshot file: the file is reported as not
    existing, or it is read and decodes to an array without [null]. *)
Definition snapshot_loads (cdc : json.Codec) (h : os.Host) (dataPath : string)
    (w : os.World) : bool :=
  match read_sites h dataPath w with
  | Ok data =>
      match json.unmarshal_sites cdc data with
      | Some entries => negb (has_null entries)
      | None => false
      end
  | Err e => os.IsNotExist (Err (A := os.Content) e)
  end.


(** A snapshot in which no two entries share an ID or a hostname. *)
Definition well_formed_snapshot (l : list models.Site) : Prop :=
  ∀ a b, a ∈ l → b ∈ l →
    (models.ID a = models.ID b ∨ ∃ host, claims a host ∧ claims b host) → a = b.

(** The limits are stored under the user name they carry. *)
Definition limits_keyed (m : sites.Manager) : Prop :=
  ∀ name limit, sites.userLimits m !! name = Some limit →
    models.Username limit = name.

(** What [Create] may do to the ownership and the permissions of files on
    behalf of [site]: hand them to the site's owner, a user other than root,
    and run [chmod] and [setfacl], all of it on Linux only. *)
Definition owner_call (h : os.Host) (site : models.Site) (c : os.SysCall) : Prop :=
  match c with
  | os.SysChown _ uid gid | os.SysChownTree _ uid gid =>
      os.GOOS h = "linux" ∧ 0 < uid ∧
      (uid, gid) = sites.getUIDGID h (models.UserID site)
  | os.SysExec argv =>
      os.GOOS h = "linux" ∧ (take 1 argv = ["chmod"] ∨ take 1 argv = ["setfacl"])
  | _ => True
  end.

(** The calls made between two states all satisfy [P]. *)
Definition calls_between (P : os.SysCall → Prop) (s s' : sites.St) : Prop :=
  ∃ calls, os.trace s'.2 = calls ++ os.trace s.2 ∧ Forall P calls.

(** The calls [applyCgroupLimits] makes once the tenant's cgroup exists, most
    recent first: the directory, the controllers, then one write per limit
    above zero. *)
Definition cgroup_calls (m : limits.Manager) (lim : models.UserLimits) : list os.SysCall :=
  (if decide (0 < models.MaxProcesses lim)
   then [os.SysWriteFile (limits.pidsFile m lim)
           (os.Text (pretty (models.MaxProcesses lim)))]
   else []) ++
  (if decide (0 < models.MaxCPUPercent lim)
   then [os.SysWriteFile (limits.cpuFile m lim)
           (os.Text (pretty (models.MaxCPUPercent lim * 1000) +:+ " 100000"))]
   else []) ++
  (if decide (0 < models.MaxRAMMB lim)
   then [os.SysWriteFile (limits.memFile m lim)
           (os.Text (pretty (models.MaxRAMMB lim * 1048576)))]
   else []) ++
  [os.SysWriteFile (filepath.Join [limits.cgroupPath m; "cgroup.subtree_control"])
     (os.Text "+cpu +memory +pids");
   os.SysMkdirAll (limits.cgroupDir m lim)].

(** A string of white space only, as [unicode.IsSpace] has it. *)
Definition white_space (s : string) : bool :=
  forallb strings.is_space (utf8.runes s).

(** A spawned command. *)
Definition is_exec (c : os.SysCall) : Prop :=
  match c with os.SysExec _ => True | _ => False end.

(** * Proofs *)

(** ** Strings and paths *)

Lemma append_cons c (a b : string) : String c a +:+ b = String c (a +:+ b).
Proof. reflexivity. Qed.

Lemma append_nil_l (a : string) : "" +:+ a = a.
Proof. reflexivity. Qed.

Lemma append_nil_r (a : string) : a +:+ "" = a.
Proof. induction a as [|c a IH]; [done|]. by rewrite append_cons, IH. Qed.

Lemma append_assoc (a b c : string) : (a +:+ b) +:+ c = a +:+ (b +:+ c).
Proof. induction a as [|x a IH]; [done|]. by rewrite !append_cons, IH. Qed.

Lemma Split_nonempty s sep : strings.Split s sep ≠ [].
Proof.
  destruct s as [|c s]; simpl; [done|].
  destruct (Ascii.eqb c sep); [done|]. by destruct (strings.Split s sep).
Qed.

Lemma Split_plain s sep : has_byte sep s = false → strings.Split s sep = [s].
Proof.
  induction s as [|c s IH]; simpl; [done|].
  intros [Hc Hs]%orb_false_iff. rewrite Hc, (IH Hs). done.
Qed.

Lemma Split_app_sep a f sep :
  has_byte sep f = false →
  strings.Split (a +:+ String sep f) sep = strings.Split a sep ++ [f].
Proof.
  intros Hf. induction a as [|c a IH].
  - rewrite append_nil_l. simpl. by rewrite Ascii.eqb_refl, (Split_plain _ _ Hf).
  - rewrite append_cons. simpl. destruct (Ascii.eqb c sep).
    + by rewrite IH.
    + rewrite IH. pose proof (Split_nonempty a sep).
      by destruct (strings.Split a sep).
Qed.

Lemma concat_snoc (l : list string) (f : string) :
  strings.Join (l ++ [f]) "/" =
    match l with [] => f | _ => strings.Join l "/" +:+ String "/" f end.
Proof.
  unfold strings.Join. induction l as [|x l IH]; [done|].
  destruct l as [|y l].
  - simpl. done.
  - change (String.concat "/" ((x :: y :: l) ++ [f]))
      with (x +:+ "/" +:+ String.concat "/" ((y :: l) ++ [f])).
    rewrite IH.
    change (String.concat "/" (x :: y :: l))
      with (x +:+ "/" +:+ String.concat "/" (y :: l)).
    by rewrite !append_assoc.
Qed.

Lemma clean_step_plain rooted stack f :
  plain_name f → filepath.clean_step rooted stack f = f :: stack.
Proof.
  intros (? & ? & ? & _). unfold filepath.clean_step.
  rewrite decide_False by (by intros [?|?]). by rewrite decide_False.
Qed.

Lemma Clean_last_plain p f :
  plain_name f →
  (p = f ∨ ∃ a, p = a +:+ String "/" f) →
  last_element (filepath.Clean p) = Some f.
Proof.
  intros Hf Hp. unfold filepath.Clean, last_element.
  assert (∃ l, strings.Split p "/" = l ++ [f]) as [l Hl].
  { destruct Hf as (_ & _ & _ & Hf). destruct Hp as [->|[a ->]].
    - exists []. by apply Split_plain.
    - eexists. by apply Split_app_sep. }
  rewrite Hl, foldl_app. simpl. rewrite clean_step_plain by done.
  simpl. rewrite concat_snoc.
  set (st := rev (foldl _ [] l)).
  assert (∃ b, (if filepath.IsAbs p
                then "/" +:+ match st with
                             | [] => f
                             | _ :: _ => strings.Join st "/" +:+ String "/" f
                             end
                else match st with
                     | [] => f
                     | _ :: _ => strings.Join st "/" +:+ String "/" f
                     end) = b ∧ (b = f ∨ ∃ a, b = a +:+ String "/" f))
    as (b & -> & Hb).
  { eexists; split; [done|].
    destruct (filepath.IsAbs p), st.
    - right. by exists "".
    - right. eexists ("/" +:+ _). by rewrite append_assoc.
    - by left.
    - right. by eexists. }
  destruct Hf as (Hne & _ & _ & Hf).
  assert (b ≠ "") as Hbne.
  { destruct Hb as [->|[a ->]]; [done|]. by destruct a. }
  rewrite decide_False by done.
  destruct Hb as [->|[a ->]].
  - by rewrite Split_plain.
  - rewrite Split_app_sep by done. by rewrite last_snoc.
Qed.

(** [filepath.Join(dir, name)] ends with [name]. *)
Lemma Join_last_element dir name :
  plain_name name → last_element (filepath.Join [dir; name]) = Some name.
Proof.
  intros Hf. unfold filepath.Join. simpl.
  destruct Hf as (Hne & Hf).
  case_decide as Hd.
  - rewrite decide_False by done. apply Clean_last_plain; [done|]. by left.
  - apply Clean_last_plain; [done|]. right. by exists dir.
Qed.

Lemma Join_distinct dir1 dir2 name1 name2 :
  plain_name name1 → plain_name name2 → name1 ≠ name2 →
  filepath.Join [dir1; name1] ≠ filepath.Join [dir2; name2].
Proof.
  intros H1 H2 Hne Heq.
  pose proof (Join_last_element dir1 name1 H1) as E1.
  pose proof (Join_last_element dir2 name2 H2) as E2.
  rewrite Heq in E1. congruence.
Qed.

(** ** System calls added to the trace *)

Section emits.
Context (P : os.SysCall → Prop).

Lemma emits_ret {A} (a : A) : emits P (step_ret a).
Proof. intros w. exists []. by split. Qed.

Lemma emits_fail {A} e : emits P (@step_fail _ A e).
Proof. intros w. exists []. by split. Qed.

Lemma emits_get : emits P step_get.
Proof. intros w. exists []. by split. Qed.

Lemma emits_bind {A B} (c : Step os.World A) (k : A → Step os.World B) :
  emits P c → (∀ a, emits P (k a)) → emits P (step_bind c k).
Proof.
  intros Hc Hk w. unfold step_bind.
  destruct (Hc w) as (l1 & E1 & F1).
  destruct (c w) as [[a|e] w1]; simpl in *; [|by eauto].
  destruct (Hk a w1) as (l2 & E2 & F2).
  exists (l2 ++ l1). rewrite E2, E1, app_assoc. split; [done|].
  by apply Forall_app.
Qed.

Lemma emits_ignore {A} (c : Step os.World A) :
  emits P c → emits P (step_ignore c).
Proof. intros Hc w. apply Hc. Qed.

Lemma emits_try {A} (c : Step os.World A) : emits P c → emits P (step_try c).
Proof. intros Hc w. apply Hc. Qed.

Lemma emits_wrap_error {A} f (c : Step os.World A) :
  emits P c → emits P (wrap_error f c).
Proof.
  intros Hc w. unfold wrap_error. destruct (Hc w) as (l & E & F).
  exists l. by destruct (c w) as [[a|e] w1].
Qed.

Lemma emits_MkdirAll h path :
  P (os.SysMkdirAll path) → emits P (os.MkdirAll h path).
Proof.
  intros HP w. exists [os.SysMkdirAll path]. unfold os.MkdirAll.
  destruct (os.mkdir_ok h path); simpl; split; by try constructor.
Qed.

Lemma emits_WriteFile h path data :
  P (os.SysWriteFile path data) → emits P (os.WriteFile h path data).
Proof.
  intros HP w. exists [os.SysWriteFile path data]. unfold os.WriteFile.
  destruct (os.write_ok h path); simpl; split; by try constructor.
Qed.

Lemma emits_Exec h argv : P (os.SysExec argv) → emits P (os.Exec h argv).
Proof.
  intros HP w. exists [os.SysExec argv]. unfold os.Exec.
  destruct (os.run h argv); simpl; split; by try constructor.
Qed.

End emits.

(** ** Resource limits *)

Section limits_facts.
Context (h : os.Host) (m : limits.Manager) (lim : models.UserLimits).

Local Abbreviation memFile := (limits.memFile m lim).
Local Abbreviation cpuFile := (limits.cpuFile m lim).
Local Abbreviation pidsFile := (limits.pidsFile m lim).
Local Abbreviation respects_zero := (respects_zero m lim).

Lemma respects_zero_mkdir path : respects_zero (os.SysMkdirAll path).
Proof. repeat split; intros; discriminate. Qed.

Lemma respects_zero_write dir name data :
  plain_name name →
  (name = "memory.max" → 0 < models.MaxRAMMB lim) →
  (name = "cpu.max" → 0 < models.MaxCPUPercent lim) →
  (name = "pids.max" → 0 < models.MaxProcesses lim) →
  respects_zero (os.SysWriteFile (filepath.Join [dir; name]) data).
Proof.
  intros Hn Hmem Hcpu Hpids.
  assert (plain_name "memory.max") by done.
  assert (plain_name "cpu.max") by done.
  assert (plain_name "pids.max") by done.
  repeat split; try discriminate; intros Hz data' [= Hpath _]; revert Hpath.
  - destruct (decide (name = "memory.max")) as [E|Hne]; [specialize (Hmem E); lia|].
    by apply Join_distinct.
  - destruct (decide (name = "cpu.max")) as [E|Hne]; [specialize (Hcpu E); lia|].
    by apply Join_distinct.
  - destruct (decide (name = "pids.max")) as [E|Hne]; [specialize (Hpids E); lia|].
    by apply Join_distinct.
Qed.

Lemma respects_zero_exec argv :
  models.MaxDiskMB lim ≠ 0 → respects_zero (os.SysExec argv).
Proof. intros Hd. repeat split; try discriminate. done. Qed.

Lemma applyCgroupLimits_emits :
  emits respects_zero (limits.applyCgroupLimits h m lim).
Proof.
  unfold limits.applyCgroupLimits.
  apply emits_bind; [apply emits_get|]. intros w.
  destruct (negb _); [apply emits_ret|].
  apply emits_bind.
  { apply emits_wrap_error, emits_MkdirAll, respects_zero_mkdir. }
  intros _. apply emits_bind.
  { apply emits_ignore, emits_WriteFile, respects_zero_write; done. }
  intros _. apply emits_bind.
  { case_decide; [|apply emits_ret].
    apply emits_ignore, emits_WriteFile, respects_zero_write; done. }
  intros _. apply emits_bind.
  { case_decide; [|apply emits_ret].
    apply emits_ignore, emits_WriteFile, respects_zero_write; done. }
  intros _. case_decide; [|apply emits_ret].
  apply emits_ignore, emits_WriteFile, respects_zero_write; done.
Qed.

Lemma applyDiskQuota_emits :
  emits respects_zero (limits.applyDiskQuota h lim).
Proof.
  unfold limits.applyDiskQuota.
  case_decide as Hd; [apply emits_ret|].
  destruct (negb _); [apply emits_ret|].
  pose proof (λ argv, emits_Exec respects_zero h argv
                        (respects_zero_exec argv Hd)) as Hexec.
  apply emits_bind.
  { apply emits_wrap_error. unfold limits.lookupUser.
    apply emits_bind; [apply Hexec|]. intros uidOutput.
    apply emits_bind; [apply Hexec|]. intros gidOutput. apply emits_ret. }
  intros u. apply emits_bind.
  { apply emits_try. unfold limits.getFilesystem.
    apply emits_bind; [apply Hexec|]. intros out.
    destruct (strings.Split out _) as [|? [|line1 ?]]; try apply emits_fail.
    destruct (strings.Fields line1); [apply emits_fail|apply emits_ret]. }
  intros [fs|e]; [|apply emits_ret].
  apply emits_ignore, Hexec.
Qed.

Lemma ApplyLimits_emits : emits respects_zero (limits.ApplyLimits h m lim).
Proof.
  unfold limits.ApplyLimits. case_decide; [apply emits_ret|].
  apply emits_bind; [apply emits_try, applyCgroupLimits_emits|]. intros cg.
  apply emits_bind; [apply emits_try, applyDiskQuota_emits|]. intros dq.
  case_decide; [apply emits_fail|apply emits_ret].
Qed.

(** C9. Applying limits with [MaxRAMMB = 0] never writes the tenant's
    [memory.max]; likewise [MaxCPUPercent = 0] leaves [cpu.max] unwritten,
    [MaxProcesses = 0] leaves [pids.max] unwritten, and [MaxDiskMB = 0]
    spawns no command at all (no [setquota], nor the lookups before it).
    [calls] are the system calls the run adds to the trace. *)
Theorem ApplyLimits_zero_writes_no_control (w : os.World) :
  ∃ calls,
    os.trace (limits.ApplyLimits h m lim w).2 = calls ++ os.trace w ∧
    (models.MaxRAMMB lim = 0 →
       ∀ data, os.SysWriteFile memFile data ∉ calls) ∧
    (models.MaxCPUPercent lim = 0 →
       ∀ data, os.SysWriteFile cpuFile data ∉ calls) ∧
    (models.MaxProcesses lim = 0 →
       ∀ data, os.SysWriteFile pidsFile data ∉ calls) ∧
    (models.MaxDiskMB lim = 0 → ∀ argv, os.SysExec argv ∉ calls).
Proof.
  destruct (ApplyLimits_emits w) as (calls & E & F).
  exists calls. split; [done|].
  rewrite Forall_forall in F.
  repeat split; intros Hz x Hin;
    destruct (F _ Hin) as (F1 & F2 & F3 & F4); naive_solver.
Qed.

End limits_facts.

(** ** Errors a computation can stop with *)

Section fails_with.
Context {S : Type} (Q : error → Prop).

Lemma fails_ret {A} (a : A) : fails_with Q (@step_ret S A a).
Proof. intros s e. discriminate. Qed.

Lemma fails_modify (f : S → S) : fails_with Q (step_modify f).
Proof. intros s e. discriminate. Qed.

Lemma fails_fail {A} e : Q e → fails_with Q (@step_fail S A e).
Proof. intros HQ s e' [= <-]. done. Qed.

Lemma fails_bind {A B} (c : Step S A) (k : A → Step S B) :
  fails_with Q c → (∀ a, fails_with Q (k a)) → fails_with Q (step_bind c k).
Proof.
  intros Hc Hk s e. unfold step_bind.
  specialize (Hc s). destruct (c s) as [[a|e'] s1]; simpl in *.
  - apply Hk.
  - intros [= <-]. by apply Hc.
Qed.

Lemma fails_for {A} (l : list A) (body : A → Step S unit) :
  (∀ x, fails_with Q (body x)) → fails_with Q (step_for l body).
Proof.
  intros Hb. induction l as [|x l IH]; simpl; [apply fails_ret|].
  apply fails_bind; [apply Hb|]. intros _. apply IH.
Qed.

Lemma fails_wrap_error {A} f (c : Step S A) :
  (∀ e, Q (f e)) → fails_with Q (wrap_error f c).
Proof.
  intros Hf s e. unfold wrap_error.
  destruct (c s) as [[a|e'] s1]; simpl; [done|]. intros [= <-]. apply Hf.
Qed.

End fails_with.

Lemma fails_in_world {A} Q (c : Step os.World A) :
  fails_with Q c → fails_with Q (sites.in_world c).
Proof. intros Hc s e. unfold sites.in_world. simpl. apply Hc. Qed.

Lemma fails_MkdirAll (Q : error → Prop) h path :
  Q (ErrOS "mkdir" path) → fails_with Q (os.MkdirAll h path).
Proof.
  intros HQ w e. unfold os.MkdirAll.
  destruct (os.mkdir_ok h path); simpl; [done|]. by intros [= <-].
Qed.

Lemma fails_WriteFile (Q : error → Prop) h path data :
  Q (ErrOS "write" path) → fails_with Q (os.WriteFile h path data).
Proof.
  intros HQ w e. unfold os.WriteFile.
  destruct (os.write_ok h path); simpl; [done|]. by intros [= <-].
Qed.

Lemma fails_add_to_maps Q site : fails_with Q (sites.add_to_maps site).
Proof.
  unfold sites.add_to_maps.
  apply fails_bind; [apply fails_modify|]. intros _.
  apply fails_bind; [apply fails_modify|]. intros _.
  apply fails_for. intros x. apply fails_modify.
Qed.

Lemma fails_saveUnlocked h r :
  fails_with (λ e, ∃ op path, e = ErrOS op path) (sites.saveUnlocked h r).
Proof.
  unfold sites.saveUnlocked.
  apply fails_bind; [intros s e; discriminate|]. intros m.
  apply fails_bind.
  - apply fails_in_world, fails_MkdirAll. eauto.
  - intros _. apply fails_in_world, fails_WriteFile. eauto.
Qed.

(** Past its checks, [Create] can only fail on the file system. *)
Lemma fails_Create_register h cfg r fresh t1 t2 site :
  fails_with (λ e, (∃ cause, e = ErrCreateDirectories cause) ∨
                   (∃ op path, e = ErrOS op path))
    (Create_register h cfg r fresh t1 t2 site).
Proof.
  unfold Create_register.
  apply fails_bind; [apply fails_wrap_error; eauto|]. intros _.
  apply fails_bind; [apply fails_add_to_maps|]. intros _.
  apply fails_bind.
  - intros s e He. right. by apply (fails_saveUnlocked h r s).
  - intros _. apply fails_ret.
Qed.

(** ** The registry: [Create] *)

(** The count [Create] compares with [MaxSites] is the number of stored
    sites whose [UserID] is the owner's. *)
Lemma countUserSitesUnlocked_size (m : sites.Manager) (userID : string) :
  sites.countUserSitesUnlocked m userID =
    Z.of_nat (size (filter (λ entry : string * models.Site,
                              models.UserID entry.2 = userID)
                           (sites.sites m))).
Proof.
  unfold sites.countUserSitesUnlocked.
  apply (map_fold_weak_ind
           (λ count sites,
              count = Z.of_nat (size (filter (λ entry : string * models.Site,
                                        models.UserID entry.2 = userID) sites)))).
  - by rewrite map_filter_empty.
  - intros i site sites' count Hi ->.
    rewrite map_filter_insert. simpl. case_decide.
    + rewrite map_size_insert_None; [lia|].
      by rewrite map_lookup_filter, Hi.
    + by rewrite delete_id.
Qed.

Section create_facts.
Context (h : os.Host) (cfg : config.Config) (r : RangeOrder).
Context (fresh : string) (t1 t2 : Z).

Lemma check_aliases_spec (d : gmap string string) (l : list string) (s : sites.St) :
  let c := step_for l (λ alias,
             if decide (is_Some (d !! alias))
             then step_fail (ErrAliasExists alias) else step_ret tt) in
  (c s).2 = s ∧
  (((∃ alias, alias ∈ l ∧ is_Some (d !! alias)) ∧
    ∃ alias, (c s).1 = Err (ErrAliasExists alias)) ∨
   (¬ (∃ alias, alias ∈ l ∧ is_Some (d !! alias)) ∧ (c s).1 = Ok tt)).
Proof.
  induction l as [|a l IH]; simpl.
  - split; [done|]. right. split; [|done]. intros (? & []%elem_of_nil & _).
  - unfold step_bind. case_decide as Ha; simpl.
    + split; [done|]. left. split; [|by eauto].
      exists a. split; [left|done].
    + destruct IH as (IH1 & [[(x & Hx & Hs) IH2]|[Hno IH2]]).
      * split; [exact IH1|]. left. split; [|done].
        exists x. split; [by right|done].
      * split; [exact IH1|]. right. split; [|done].
        intros (x & [->|Hx]%elem_of_cons & Hs); [done|]. apply Hno. eauto.
Qed.

(** The domain check leaves the state alone, fails on a conflict and only
    then. *)
Lemma check_domain_spec (m : sites.Manager) site (s : sites.St) :
  (sites.check_domain m site s).2 = s ∧
  ((domain_conflict m site ∧
    ((sites.check_domain m site s).1 = Err ErrDomainExists ∨
     ∃ alias, (sites.check_domain m site s).1 = Err (ErrAliasExists alias))) ∨
   (¬ domain_conflict m site ∧ (sites.check_domain m site s).1 = Ok tt)).
Proof.
  unfold sites.check_domain, step_bind, domain_conflict.
  case_decide as Hd; simpl.
  - split; [done|]. left. split; by left.
  - destruct (check_aliases_spec (sites.domains m) (models.aliases site) s)
      as (E1 & [[Ha E2]|[Hno E2]]); simpl in *.
    + split; [exact E1|]. left. split; by right.
    + split; [exact E1|]. right. split; [|done]. by intros [?|?].
Qed.

Lemma check_site_limit_spec (m : sites.Manager) site (s : sites.St) :
  (sites.check_site_limit h m site s).2 = s ∧
  ((over_quota h m site ∧
    (sites.check_site_limit h m site s).1 = Err ErrSiteLimitReached) ∨
   (¬ over_quota h m site ∧ (sites.check_site_limit h m site s).1 = Ok tt)).
Proof.
  unfold sites.check_site_limit, over_quota.
  case_decide as Hu; [|split; [done|]; right; naive_solver].
  destruct (sites.userLimits m !! _) as [limit|] eqn:El;
    [|split; [done|]; right; naive_solver].
  case_decide as Hm; [|split; [done|]; right; naive_solver].
  case_decide as Hc; (split; [done|]); [left|right]; naive_solver.
Qed.

Lemma check_php_version_spec version (s : sites.St) :
  sites.check_php_version cfg version s =
    (if sites.validPHP cfg version then Ok tt else Err ErrInvalidPHPVersion, s).
Proof. unfold sites.check_php_version. by destruct (sites.validPHP _ _). Qed.

Lemma Create_eq site (s : sites.St) :
  sites.Create h cfg r fresh t1 t2 site s =
    match (sites.check_domain s.1 site s).1 with
    | Err e => (Err e, s)
    | Ok _ =>
        match (sites.check_site_limit h s.1 site s).1 with
        | Err e => (Err e, s)
        | Ok _ =>
            if sites.validPHP cfg (models.PHPVersion site)
            then Create_register h cfg r fresh t1 t2 site s
            else (Err ErrInvalidPHPVersion, s)
        end
    end.
Proof.
  unfold sites.Create. unfold step_bind at 1. unfold sites.get_mgr.
  cbv beta iota.
  destruct (check_domain_spec s.1 site s) as (D1 & _).
  destruct (check_site_limit_spec s.1 site s) as (Q1 & _).
  unfold step_bind at 1.
  destruct (sites.check_domain s.1 site s) as [[[]|e] s1]; simpl in D1;
    subst s1; [|done].
  unfold step_bind at 1.
  destruct (sites.check_site_limit h s.1 site s) as [[[]|e] s1]; simpl in Q1;
    subst s1; [|done].
  unfold step_bind at 1. rewrite check_php_version_spec.
  unfold Create_register. cbn [fst].
  destruct (sites.validPHP cfg (models.PHPVersion site)); reflexivity.
Qed.

(** [Create] up to its three checks: either one of them rejects the site,
    with that check's error and the state the call started from, or the call
    goes on to materialize and register the site. *)
Lemma Create_checks site (s : sites.St) :
  (domain_conflict s.1 site ∧
   ∃ e, sites.Create h cfg r fresh t1 t2 site s = (Err e, s) ∧
        (e = ErrDomainExists ∨ ∃ alias, e = ErrAliasExists alias)) ∨
  (¬ domain_conflict s.1 site ∧ over_quota h s.1 site ∧
   sites.Create h cfg r fresh t1 t2 site s = (Err ErrSiteLimitReached, s)) ∨
  (¬ domain_conflict s.1 site ∧ ¬ over_quota h s.1 site ∧
   sites.validPHP cfg (models.PHPVersion site) = false ∧
   sites.Create h cfg r fresh t1 t2 site s = (Err ErrInvalidPHPVersion, s)) ∨
  (¬ domain_conflict s.1 site ∧ ¬ over_quota h s.1 site ∧
   sites.validPHP cfg (models.PHPVersion site) = true ∧
   sites.Create h cfg r fresh t1 t2 site s =
     Create_register h cfg r fresh t1 t2 site s).
Proof.
  rewrite Create_eq.
  destruct (check_domain_spec s.1 site s) as (_ & [[Hc D]|[Hc ->]]).
  { left. split; [done|].
    destruct D as [->|[a ->]]; eexists; (split; [done|]); eauto. }
  right.
  destruct (check_site_limit_spec s.1 site s) as (_ & [[Hq ->]|[Hq ->]]);
    [by left|].
  right.
  destruct (sites.validPHP cfg (models.PHPVersion site)); [by right|by left].
Qed.

(** C4 (amended). A [Create] whose PHP version is not an enabled entry of the
    version table fails and changes nothing: the registry (sites, domain
    index, limits) and the machine (directories, files, the snapshot, the
    trace of system calls) are the ones it started from.  The error is
    [ErrInvalidPHPVersion] unless the domain/alias check or the site-limit
    check, which run first, reject the site with their own error. *)
Theorem Create_invalid_php_no_effect site (s : sites.St) :
  sites.validPHP cfg (models.PHPVersion site) = false →
  ∃ e, sites.Create h cfg r fresh t1 t2 site s = (Err e, s) ∧
    (e = ErrInvalidPHPVersion ∨ e = ErrDomainExists ∨
     (∃ alias, e = ErrAliasExists alias) ∨ e = ErrSiteLimitReached) ∧
    (¬ domain_conflict s.1 site → ¬ over_quota h s.1 site →
       e = ErrInvalidPHPVersion).
Proof.
  intros Hphp.
  destruct (Create_checks site s)
    as [(Hc & e & E & He)|[(Hc & Hq & E)|[(Hc & Hq & _ & E)|(_ & _ & Hv & _)]]];
    [| | |congruence].
  - exists e. split; [done|]. split; [|done].
    destruct He as [->|?]; eauto.
  - eexists. split; [done|]. split; [eauto|done].
  - eexists. split; [done|]. split; [eauto|done].
Qed.

(** C6 (amended). For an owner that is not exempt ([UserID] neither empty
    nor "admin") and has stored limits with [MaxSites > 0], a [Create] whose
    domain and aliases are all unclaimed fails with [ErrSiteLimitReached]
    exactly when the owner's site count is at least [MaxSites]; and no
    [Create] is rejected with [ErrSiteLimitReached] when the owner is exempt,
    has no stored limits, or has [MaxSites = 0]. *)
Theorem Create_site_limit site (s : sites.St) :
  let username := sites.getUsernameFromID h (models.UserID site) in
  let outcome := (sites.Create h cfg r fresh t1 t2 site s).1 in
  (∀ limit,
     models.UserID site ≠ "" → models.UserID site ≠ "admin" →
     sites.userLimits s.1 !! username = Some limit →
     0 < models.MaxSites limit →
     ¬ domain_conflict s.1 site →
     (outcome = Err ErrSiteLimitReached ↔
      models.MaxSites limit ≤
        sites.countUserSitesUnlocked s.1 (models.UserID site))) ∧
  (models.UserID site = "" ∨ models.UserID site = "admin" ∨
   sites.userLimits s.1 !! username = None ∨
   (∃ limit, sites.userLimits s.1 !! username = Some limit ∧
             models.MaxSites limit = 0) →
   outcome ≠ Err ErrSiteLimitReached).
Proof.
  intros username outcome. subst outcome.
  pose proof (fails_Create_register h cfg r fresh t1 t2 site s) as Hreg.
  destruct (Create_checks site s)
    as [(Hc & e & E & He)|[(Hc & Hq & E)|[(Hc & Hq & _ & E)|(Hc & Hq & _ & E)]]];
    rewrite E; cbn [fst].
  - split.
    + intros; done.
    + intros _ [= ->]. destruct He as [?|[? ?]]; done.
  - destruct Hq as (U1 & U2 & limit' & El & Hpos & Hcount). split.
    + intros limit _ _ El' _ _. fold username in El. by simplify_eq.
    + fold username in El. intros [?|[?|[?|(l & ? & ?)]]]; simplify_eq. lia.
  - split; [|done].
    intros limit U1 U2 El Hpos _. split; [done|].
    intros Hcount. destruct Hq. unfold over_quota. eauto 10.
  - assert ((Create_register h cfg r fresh t1 t2 site s).1
              ≠ Err ErrSiteLimitReached) as Hne.
    { intros Hbad. destruct (Hreg _ Hbad) as [[? ?]|(? & ? & ?)]; done. }
    split; [|done].
    intros limit U1 U2 El Hpos _. split; [done|].
    intros Hcount. destruct Hq. unfold over_quota. eauto 10.
Qed.

End create_facts.

(** ** The registry: [Update] *)

Section update_facts.
Context (h : os.Host) (cfg : config.Config) (r : RangeOrder).
Context (now : Z) (id : string).

Local Abbreviation any := (λ (_ : unit) (_ : sites.St), True).

Lemma updates_site_bind {A B} f g post
    (c : Step sites.St A) (k : A → Step sites.St B) :
  updates_site id f (λ _ _, True) c → (∀ a, updates_site id g post (k a)) →
  updates_site id (g ∘ f) post (step_bind c k).
Proof.
  intros Hc Hk s b s'. unfold step_bind.
  destruct (c s) as [[a|e] s1] eqn:Ec; [|done].
  intros Ek. destruct (Hc _ _ _ Ec) as [E1 _].
  destruct (Hk _ _ _ _ Ek) as [E2 Hpost]. split; [|done].
  by rewrite E2, E1, alter_alter_eq.
Qed.

Lemma updates_site_ext {A} f g post (c : Step sites.St A) :
  (∀ site, f site = g site) →
  updates_site id f post c → updates_site id g post c.
Proof.
  intros Hfg Hc s a s' E. destruct (Hc _ _ _ E) as [E1 Hpost].
  split; [|done]. rewrite E1. by apply alter_ext.
Qed.

Lemma updates_site_keep {A} post (c : Step sites.St A) :
  (∀ s a s', c s = (Ok a, s') → sites.sites s'.1 = sites.sites s.1 ∧ post a s') →
  updates_site id (λ site, site) post c.
Proof.
  intros Hc s a s' E. destruct (Hc _ _ _ E) as [E1 Hpost].
  split; [|done]. rewrite E1. symmetry. by apply alter_id.
Qed.

Lemma updates_site_ret : updates_site id (λ site, site) any (step_ret tt).
Proof. apply updates_site_keep. by intros s a s' [= _ <-]. Qed.

Lemma updates_site_modify_site f :
  updates_site id f any (sites.modify_site id f).
Proof. by intros s a s' [= _ <-]. Qed.

Lemma updates_site_modify_domains f :
  updates_site id (λ site, site) any (sites.modify_domains f).
Proof. apply updates_site_keep. by intros s a s' [= _ <-]. Qed.

Lemma updates_site_if (P : Prop) `{!Decision P} f (c : Step sites.St unit) :
  updates_site id f any c →
  updates_site id (when P f) any (if decide P then c else step_ret tt).
Proof.
  intros Hc. unfold when.
  case_decide; [by apply (updates_site_ext f)|apply updates_site_ret].
Qed.

Lemma keeps_sites_for {A} (l : list A) (body : A → Step sites.St unit) :
  (∀ x s a s', body x s = (Ok a, s') → sites.sites s'.1 = sites.sites s.1) →
  ∀ s a s', step_for l body s = (Ok a, s') → sites.sites s'.1 = sites.sites s.1.
Proof.
  intros Hb. induction l as [|x l IH]; simpl; intros s a s'.
  - by intros [= _ <-].
  - unfold step_bind. destruct (body x s) as [[[]|e] s1] eqn:Eb; [|done].
    intros El. rewrite (IH _ _ _ El). by eapply Hb.
Qed.

Lemma updates_site_domain site patch :
  updates_site id
    (when (models.Domain patch ≠ "" ∧ models.Domain patch ≠ models.Domain site)
          (models.set_Domain (models.Domain patch)))
    any (sites.update_domain id site patch).
Proof.
  unfold sites.update_domain, when. intros s a s'.
  unfold step_bind at 1. unfold sites.get_mgr. cbv beta iota.
  case_decide as Hd; [|apply updates_site_ret].
  case_decide; [done|]. by intros [= _ <-].
Qed.

Lemma updates_site_aliases site newAliases :
  updates_site id (models.set_Aliases (Some newAliases)) any
    (sites.update_aliases id site newAliases).
Proof.
  unfold sites.update_aliases.
  apply (updates_site_ext
           (models.set_Aliases (Some newAliases) ∘ (λ s, s) ∘ (λ s, s)));
    [done|].
  apply updates_site_bind; [|intros _; apply updates_site_bind].
  - apply updates_site_keep. intros s a s' E. split; [|done].
    revert s a s' E. apply keeps_sites_for. by intros x s a s' [= _ <-].
  - apply updates_site_keep. intros s a s' E. split; [|done].
    revert s a s' E. apply keeps_sites_for. intros x s a s'.
    unfold step_bind, sites.get_mgr. cbv beta iota.
    destruct (sites.domains s.1 !! x) as [existingID|].
    + case_decide; [done|]. by intros [= _ <-].
    + by intros [= _ <-].
  - intros _. apply updates_site_modify_site.
Qed.

Lemma updates_site_check_php version :
  updates_site id (λ site, site) any (sites.check_php_version cfg version).
Proof.
  apply updates_site_keep. intros s a s'.
  rewrite check_php_version_spec. by intros [= _ <-].
Qed.

Lemma saveUnlocked_mgr (s : sites.St) : (sites.saveUnlocked h r s).2.1 = s.1.
Proof.
  unfold sites.saveUnlocked, step_bind, sites.get_mgr, sites.in_world.
  cbv beta iota. simpl.
  destruct (os.MkdirAll h (sites.dataPath s.1) s.2) as [[[]|e] w1]; done.
Qed.

Lemma updates_site_save :
  updates_site id (λ site, site) any (sites.saveUnlocked h r).
Proof.
  apply updates_site_keep. intros s a s' E. split; [|done].
  by rewrite <- (saveUnlocked_mgr s), E.
Qed.

Lemma updates_site_last site :
  updates_site id (λ s, s)
    (λ a s', a = default site (sites.sites s'.1 !! id))
    (do m' <- sites.get_mgr; step_ret (default site (sites.sites m' !! id))).
Proof. apply updates_site_keep. by intros s a s' [= <- <-]. Qed.

Ltac update_step :=
  lazymatch goal with
  | |- updates_site _ _ _ (sites.update_domain _ _ _) =>
      apply updates_site_domain
  | |- updates_site _ _ _ (sites.update_aliases _ _ _) =>
      apply updates_site_aliases
  | |- updates_site _ _ _ (sites.modify_site _ _) =>
      apply updates_site_modify_site
  | |- updates_site _ _ _ (sites.saveUnlocked _ _) => apply updates_site_save
  | |- updates_site _ _ _ (sites.check_php_version _ _) =>
      apply updates_site_check_php
  | |- updates_site _ _ _ (step_ret _) => apply updates_site_ret
  | |- updates_site _ _ _ (if decide _ then _ else step_ret _) =>
      apply updates_site_if
  | |- updates_site _ _ _ (step_bind sites.get_mgr _) =>
      apply updates_site_last
  | |- updates_site _ _ _ (step_bind _ _) =>
      eapply updates_site_bind; [|intros _]
  end.

(** One layer of the patch applied to a site spelled out field by field. *)
Section layers.
Context (P : Prop) `{!Decision P}.
Context (a1 a2 a3 a4 : string) (a5 : option (list string)).
Context (a6 a7 a8 a9 : string) (a10 : bool) (a11 : string) (a12 : Z).
Context (a13 : option (gmap string string)) (a14 a15 : Z).

Local Abbreviation here :=
  (models.mkSite a1 a2 a3 a4 a5 a6 a7 a8 a9 a10 a11 a12 a13 a14 a15).

Lemma when_set_Domain v :
  when P (models.set_Domain v) here =
    models.mkSite a1 a2 a3 (if decide P then v else a4) a5 a6 a7 a8 a9 a10
      a11 a12 a13 a14 a15.
Proof. unfold when. by case_decide. Qed.

Lemma when_set_Name v :
  when P (models.set_Name v) here =
    models.mkSite a1 a2 (if decide P then v else a3) a4 a5 a6 a7 a8 a9 a10
      a11 a12 a13 a14 a15.
Proof. unfold when. by case_decide. Qed.

Lemma when_set_PHPVersion v :
  when P (λ site, models.set_PHPVersion v site) here =
    models.mkSite a1 a2 a3 a4 a5 (if decide P then v else a6) a7 a8 a9 a10
      a11 a12 a13 a14 a15.
Proof. unfold when. by case_decide. Qed.

Lemma when_set_PublicPath v :
  when P (models.set_PublicPath v) here =
    models.mkSite a1 a2 a3 a4 a5 a6 a7 (if decide P then v else a8) a9 a10
      a11 a12 a13 a14 a15.
Proof. unfold when. by case_decide. Qed.

Lemma when_set_Status v :
  when P (models.set_Status v) here =
    models.mkSite a1 a2 a3 a4 a5 a6 a7 a8 (if decide P then v else a9) a10
      a11 a12 a13 a14 a15.
Proof. unfold when. by case_decide. Qed.

Lemma when_set_WorkerFile v :
  when P (models.set_WorkerFile v) here =
    models.mkSite a1 a2 a3 a4 a5 a6 a7 a8 a9 a10
      (if decide P then v else a11) a12 a13 a14 a15.
Proof. unfold when. by case_decide. Qed.

Lemma when_set_WorkerNum v :
  when P (models.set_WorkerNum v) here =
    models.mkSite a1 a2 a3 a4 a5 a6 a7 a8 a9 a10 a11
      (if decide P then v else a12) a13 a14 a15.
Proof. unfold when. by case_decide. Qed.

Lemma set_Aliases_here v :
  models.set_Aliases v here =
    models.mkSite a1 a2 a3 a4 v a6 a7 a8 a9 a10 a11 a12 a13 a14 a15.
Proof. reflexivity. Qed.

Lemma set_WorkerMode_here v :
  models.set_WorkerMode v here =
    models.mkSite a1 a2 a3 a4 a5 a6 a7 a8 a9 v a11 a12 a13 a14 a15.
Proof. reflexivity. Qed.

Lemma set_Environment_here v :
  models.set_Environment v here =
    models.mkSite a1 a2 a3 a4 a5 a6 a7 a8 a9 a10 a11 a12 v a14 a15.
Proof. reflexivity. Qed.

Lemma set_UpdatedAt_here v :
  models.set_UpdatedAt v here =
    models.mkSite a1 a2 a3 a4 a5 a6 a7 a8 a9 a10 a11 a12 a13 a14 v.
Proof. reflexivity. Qed.

End layers.

Ltac merge_layers :=
  repeat first
    [ rewrite when_set_Domain | rewrite when_set_Name
    | rewrite when_set_PHPVersion | rewrite when_set_PublicPath
    | rewrite when_set_Status | rewrite when_set_WorkerFile
    | rewrite when_set_WorkerNum | rewrite set_Aliases_here
    | rewrite set_WorkerMode_here | rewrite set_Environment_here
    | rewrite set_UpdatedAt_here ].

Ltac fold_projections :=
  cbn [models.ID models.UserID models.Name models.Domain models.Aliases
       models.PHPVersion models.RootPath models.PublicPath models.Status
       models.WorkerMode models.WorkerFile models.WorkerNum
       models.Environment models.CreatedAt models.UpdatedAt] in *.

Ltac merge_domain :=
  match goal with
  | H : ¬ (?d ≠ _ ∧ ?d ≠ ?o) |- _ =>
      destruct (decide (d = o)); [congruence|exfalso; apply H; done]
  end.

(** C3 (amended). After a successful [Update(id, patch)] the site stored
    under [id], which is also the site returned, is the old one with the
    patch merged in ([merge_patch]): [WorkerMode] is the patch's value
    whatever it is; [Status], like [Name], [Domain], [PHPVersion],
    [PublicPath] and [WorkerFile], is the patch's value when that is not
    empty and the old value otherwise; [Aliases] and [Environment] are
    replaced unless nil in the patch; [WorkerNum] is replaced when the
    patch's is positive; [UpdatedAt] is the time of the call. *)
Theorem Update_merges_patch patch (s s' : sites.St) (site' : models.Site) :
  sites.Update h cfg r now id patch s = (Ok site', s') →
  ∃ old,
    sites.sites s.1 !! id = Some old ∧
    sites.sites s'.1 !! id = Some site' ∧
    site' = merge_patch now patch old ∧
    models.WorkerMode site' = models.WorkerMode patch ∧
    models.Status site' =
      (if decide (models.Status patch = "")
       then models.Status old else models.Status patch).
Proof.
  unfold sites.Update. unfold step_bind at 1. unfold sites.get_mgr at 1.
  cbv beta iota. simpl fst.
  destruct (sites.sites s.1 !! id) as [old|] eqn:Hold; [|done].
  intros E. exists old. split; [done|].
  assert (sites.sites s'.1 !! id = Some site' ∧
          site' = merge_patch now patch old) as [E1 E2];
    [|by rewrite E2 at 3 4].
  revert E.
  destruct (models.Aliases patch) as [newAliases|] eqn:Hal;
    destruct (models.Environment patch) as [env|] eqn:Henv;
    intros E;
    (match type of E with
     | ?c s = _ =>
         eassert (updates_site id ?[F]
                    (λ a s', a = default old (sites.sites s'.1 !! id)) c)
           as Hchain
     end;
     [ repeat update_step
     | destruct (Hchain _ _ _ E) as [Es ->];
       rewrite Es, lookup_alter_eq, Hold;
       cbn [fmap option_fmap option_map from_option]; split; [done|];
       unfold merge_patch; rewrite Hal, Henv; clear;
       destruct old, patch; fold_projections;
       unfold compose, Datatypes.id; merge_layers; f_equal;
       repeat (case_decide; destruct_and?; try done);
       solve [merge_domain | congruence] ]).
Qed.

End update_facts.

(** ** The registry: every site is stored under its own ID *)

























(** ** The registry: [Save] then [Load] *)

Lemma for_modify_domains (f : string → gmap string string → gmap string string)
    (l : list string) (s : sites.St) :
  step_for l (λ alias, sites.modify_domains (f alias)) s =
    (Ok tt, (sites.mkManager (sites.sites s.1)
               (foldl (λ d alias, f alias d) (sites.domains s.1) l)
               (sites.userLimits s.1) (sites.dataPath s.1), s.2)).
Proof.
  revert s. induction l as [|a l IH]; intros [[] w]; [done|].
  simpl. unfold step_bind. simpl. by rewrite IH.
Qed.

Lemma add_to_maps_run site (s : sites.St) :
  sites.add_to_maps site s =
    (Ok tt, (sites.mkManager (<[models.ID site := site]> (sites.sites s.1))
               (index_site site (sites.domains s.1))
               (sites.userLimits s.1) (sites.dataPath s.1), s.2)).
Proof.
  unfold sites.add_to_maps, step_bind. simpl.
  by rewrite for_modify_domains.
Qed.

(** Lookups in the maps [Load] builds. *)

Lemma foldl_insert_alias_lookup (id : string) (l : list string)
    (d : gmap string string) (host : string) :
  foldl (λ d alias, <[alias := id]> d) d l !! host =
    if decide (host ∈ l) then Some id else d !! host.
Proof.
  revert d. induction l as [|a l IH]; intros d.
  - done.
  - cbn [foldl]. rewrite IH. destruct (decide (host ∈ l)) as [Hin|Hin].
    + rewrite decide_True; [done|]. by right.
    + destruct (decide (host = a)) as [->|Hne].
      * rewrite decide_True by left. by rewrite lookup_insert_eq.
      * rewrite decide_False by (by intros [?|?]%elem_of_cons).
        by rewrite lookup_insert_ne.
Qed.

Lemma index_site_lookup site (d : gmap string string) (host : string) :
  (claims site host ∧ index_site site d !! host = Some (models.ID site)) ∨
  (¬ claims site host ∧ index_site site d !! host = d !! host).
Proof.
  unfold index_site, claims. rewrite foldl_insert_alias_lookup.
  destruct (decide (host ∈ models.aliases site)) as [Hin|Hin].
  { left. split; [by right|done]. }
  destruct (decide (models.Domain site = host)) as [<-|Hne].
  { left. split; [by left|]. by rewrite lookup_insert_eq. }
  right. split; [by intros [?|?]|]. by rewrite lookup_insert_ne.
Qed.

Lemma index_sites_lookup (l : list models.Site) (d : gmap string string)
    (host id : string) :
  foldl (λ d site, index_site site d) d l !! host = Some id →
  (∃ site, site ∈ l ∧ models.ID site = id ∧ claims site host) ∨
  d !! host = Some id.
Proof.
  revert d. induction l as [|a l IH]; intros d; simpl; [by right|].
  intros [(site & Hin & Hid & Hc)|Hd]%IH.
  - left. exists site. split; [by right|done].
  - destruct (index_site_lookup a d host) as [[Hc E]|[Hc E]];
      rewrite E in Hd.
    + left. exists a. split; [left|]. by simplify_eq.
    + by right.
Qed.

Lemma index_sites_claimed (l : list models.Site) (d : gmap string string)
    (host : string) :
  (is_Some (d !! host) ∨ ∃ site, site ∈ l ∧ claims site host) →
  is_Some (foldl (λ d site, index_site site d) d l !! host).
Proof.
  revert d. induction l as [|a l IH]; intros d; simpl.
  - intros [?|(? & []%elem_of_nil & _)]; done.
  - intros H. apply IH.
    destruct (index_site_lookup a d host) as [[Hc E]|[Hc E]];
      rewrite E; [left; eauto|].
    destruct H as [?|(site & [->|Hin]%elem_of_cons & Hcs)]; eauto. done.
Qed.

Lemma insert_sites_lookup (l : list models.Site) (m : gmap string models.Site)
    (id : string) site :
  foldl (λ m site, <[models.ID site := site]> m) m l !! id = Some site →
  (site ∈ l ∧ models.ID site = id) ∨ m !! id = Some site.
Proof.
  revert m. induction l as [|a l IH]; intros m; simpl; [by right|].
  intros [[Hin Hid]|Hm]%IH.
  - left. split; [by right|done].
  - rewrite lookup_insert in Hm. case_decide; [|by right].
    left. simplify_eq. split; [left|done].
Qed.

Lemma insert_sites_present (l : list models.Site) (m : gmap string models.Site)
    (id : string) :
  (is_Some (m !! id) ∨ ∃ site, site ∈ l ∧ models.ID site = id) →
  is_Some (foldl (λ m site, <[models.ID site := site]> m) m l !! id).
Proof.
  revert m. induction l as [|a l IH]; intros m; simpl.
  - intros [?|(? & []%elem_of_nil & _)]; done.
  - intros H. apply IH. rewrite lookup_insert. case_decide; [left; eauto|].
    destruct H as [?|(site & [->|Hin]%elem_of_cons & Hid)]; eauto. done.
Qed.

(** The snapshot [Save] writes lists exactly the registry's sites. *)
Lemma snapshot_sites (r : RangeOrder) (m : gmap string models.Site) site :
  range_valid r →
  site ∈ (r _ m).*2 ↔ ∃ id, m !! id = Some site.
Proof.
  intros Hr. rewrite list_elem_of_fmap. split.
  - intros ([id s] & -> & Hin). exists id.
    apply elem_of_map_to_list. by rewrite <- (Hr _ m).
  - intros [id Hid]. exists (id, site). split; [done|].
    rewrite (Hr _ m). by apply elem_of_map_to_list.
Qed.


Lemma bind_eq {S A B} (c : Step S A) (k : A → Step S B) (s : S) :
  step_bind c k s =
    match c s with
    | (Ok a, s') => k a s'
    | (Err e, s') => (Err e, s')
    end.
Proof. reflexivity. Qed.

(** *** Strings through [encoding/json] *)

Lemma DecodeRune_size (p : list ascii) :
  p ≠ [] → (1 ≤ (utf8.DecodeRune p).2 ≤ length p)%nat.
Proof.
  destruct p as [|c0 p1]; [done|]. intros _. unfold utf8.DecodeRune.
  case_decide; [simpl; lia|].
  destruct (utf8.leading _) as [[[[|[|[|[|n]]]] lo] hi]|]; try (simpl; lia).
  - destruct p1 as [|c1 p2]; [simpl; lia|]. cbv zeta.
    destruct (bool_decide _); simpl; lia.
  - destruct p1 as [|c1 [|c2 p3]]; try (simpl; lia). cbv zeta.
    destruct (_ && _); simpl; lia.
  - destruct p1 as [|c1 [|c2 [|c3 p4]]]; try (simpl; lia). cbv zeta.
    destruct (_ && _); simpl; lia.
Qed.

Lemma runes_go_bytes (fuel : nat) (p : list ascii) :
  (length p ≤ fuel)%nat → concat (utf8.runes_go fuel p).*2 = p.
Proof.
  revert p. induction fuel as [|fuel IH]; intros p Hlen.
  - destruct p; [done|simpl in Hlen; lia].
  - destruct p as [|c p']; [done|].
    pose proof (DecodeRune_size (c :: p') ltac:(done)) as Hsize.
    cbn [utf8.runes_go]. cbv zeta. rewrite fmap_cons. cbn [snd concat].
    rewrite IH; [apply take_drop|].
    rewrite length_drop. simpl in *. lia.
Qed.

Lemma bytes_runes (s : string) : utf8.bytes (utf8.runes s) = s.
Proof.
  unfold utf8.bytes, utf8.runes. rewrite runes_go_bytes.
  - apply string_of_list_ascii_of_string.
  - clear. induction s; simpl; lia.
Qed.

(** A valid string is its own JSON round trip. *)
Lemma text_valid (s : string) : utf8.ValidString s = true → json.text s = s.
Proof.
  intros Hv. unfold json.text, utf8.ValidString in *.
  rewrite <- (bytes_runes s) at 2. f_equal.
  rewrite forallb_forall in Hv.
  induction (utf8.runes s) as [|r rs IH]; [done|].
  rewrite fmap_cons. f_equal.
  - specialize (Hv r (or_introl eq_refl)). by destruct (utf8.invalid r).
  - apply IH. intros x Hx. apply Hv. by right.
Qed.




(** *** [Load] and [Save] *)

Lemma for_load_site (entries : list (option models.Site)) (s : sites.St) :
  step_for entries sites.load_site s =
    (if has_null entries then Err ErrNilPointer else Ok tt,
     (with_sites (before_null entries) s.1, s.2)).
Proof.
  revert s. induction entries as [|[site|] entries IH]; intros [[] w].
  - done.
  - cbn [step_for]. rewrite bind_eq. cbn [sites.load_site].
    rewrite add_to_maps_run. rewrite IH. done.
  - done.
Qed.

Lemma for_load_limit (entries : list (option models.UserLimits)) (s : sites.St) :
  step_for entries sites.load_limit s =
    (if has_null entries then Err ErrNilPointer else Ok tt,
     (with_limits (before_null entries) s.1, s.2)).
Proof.
  revert s. induction entries as [|[limit|] entries IH]; intros [[] w].
  - done.
  - cbn [step_for]. rewrite bind_eq. cbn [sites.load_limit].
    unfold sites.modify_userLimits at 1, step_modify. rewrite IH. done.
  - done.
Qed.

Lemma try_read_eq h path (s : sites.St) :
  step_try (sites.in_world (os.ReadFile h path)) s =
    (Ok (os.ReadFile h path s.2).1, s).
Proof.
  unfold step_try, sites.in_world, os.ReadFile. destruct s as [m w]. cbn [fst snd].
  destruct (os.files w !! path); [by destruct (os.read_ok h path)|].
  by destruct (bool_decide _).
Qed.

(** The second half of [Load], on the limits file. *)
Lemma Load_limits_run cdc h (s : sites.St) :
  let entries := limits_entries cdc h (sites.dataPath s.1) s.2 in
  (do limitsData <- step_try (sites.in_world
        (os.ReadFile h (filepath.Join [sites.dataPath s.1; "user_limits.json"])));
   match limitsData with
   | Ok limitsData =>
       match json.unmarshal_limits cdc limitsData with
       | Some limits => step_for limits sites.load_limit
       | None => step_ret tt
       end
   | Err _ => step_ret tt
   end) s =
    (if has_null entries then Err ErrNilPointer else Ok tt,
     (with_limits (before_null entries) s.1, s.2)).
Proof.
  intros entries. subst entries. unfold limits_entries.
  rewrite bind_eq, try_read_eq.
  destruct (os.ReadFile h _ s.2).1 as [data|e].
  - destruct (json.unmarshal_limits cdc data) as [entries|].
    + apply for_load_limit.
    + by destruct s as [[] w].
  - by destruct s as [[] w].
Qed.

(** What [Load] does, case by case. *)
Lemma Load_cases cdc h (s : sites.St) :
  let limits := limits_entries cdc h (sites.dataPath s.1) s.2 in
  let finish m :=
    (if has_null limits then Err ErrNilPointer else Ok tt,
     (with_limits (before_null limits) m, s.2)) in
  sites.Load cdc h s =
    match read_sites h (sites.dataPath s.1) s.2 with
    | Err e =>
        if os.IsNotExist (Err (A := os.Content) e) then finish s.1
        else (Err e, s)
    | Ok data =>
        match json.unmarshal_sites cdc data with
        | None => (Err ErrJSON, s)
        | Some entries =>
            if has_null entries
            then (Err ErrNilPointer, (with_sites (before_null entries) s.1, s.2))
            else finish (with_sites (before_null entries) s.1)
        end
    end.
Proof.
  intros limits finish. unfold sites.Load, read_sites.
  rewrite bind_eq. unfold sites.get_mgr at 1. cbv beta iota.
  rewrite bind_eq, try_read_eq.
  destruct (os.ReadFile h _ s.2).1 as [data|e].
  - destruct (json.unmarshal_sites cdc data) as [entries|].
    + rewrite bind_eq, for_load_site.
      destruct (has_null entries); [done|].
      apply (Load_limits_run cdc h (with_sites (before_null entries) s.1, s.2)).
    + by rewrite bind_eq.
  - rewrite bind_eq. destruct (os.IsNotExist _).
    + destruct s as [m w]. apply (Load_limits_run cdc h (m, w)).
    + done.
Qed.




Lemma has_null_Some {A B} (f : A → B) (l : list A) :
  has_null (Some ∘ f <$> l) = false.
Proof. by induction l. Qed.

Lemma before_null_Some {A B} (f : A → B) (l : list A) :
  before_null (Some ∘ f <$> l) = f <$> l.
Proof. induction l as [|a l IH]; [done|]. simpl. f_equal. exact IH. Qed.



(** ** The generator *)

Import models.

Lemma cat_cons x l : caddy.cat (x :: l) = x +:+ caddy.cat l.
Proof.
  unfold caddy.cat. destruct l as [|y l]; simpl; [|done].
  by rewrite append_nil_r.
Qed.

Lemma occurs_in_refl x : occurs_in x x.
Proof. exists "", "". by rewrite append_nil_r. Qed.

Lemma occurs_in_app_l x a b : occurs_in x a → occurs_in x (a +:+ b).
Proof.
  intros (pre & post & ->). exists pre, (post +:+ b).
  by rewrite !append_assoc.
Qed.

Lemma occurs_in_app_r x a b : occurs_in x b → occurs_in x (a +:+ b).
Proof.
  intros (pre & post & ->). exists (a +:+ pre), post.
  by rewrite !append_assoc.
Qed.

Lemma occurs_in_cat x y l : y ∈ l → occurs_in x y → occurs_in x (caddy.cat l).
Proof.
  intros Hin Hx. induction l as [|z l IH]; [by apply elem_of_nil in Hin|].
  rewrite cat_cons. apply elem_of_cons in Hin as [<-|Hin].
  - by apply occurs_in_app_l.
  - by apply occurs_in_app_r, IH.
Qed.

Section worker.
Context (h : os.Host) (w : os.World) (cfg : config.Config).
Context (r : nat → RangeOrder) (version : string) (port adminPort : Z).


End worker.

(** Both orders are orders a Go [range] may take. *)
Lemma ascending_valid : range_valid sample.ascending.
Proof. by intros A m. Qed.

Lemma descending_valid : range_valid sample.descending.
Proof. intros A m. apply reverse_Permutation. Qed.

(** C2 (evaluation). The same input rendered under two admissible orders of
    the [range] over one site's [Environment] gives two different
    documents. *)
Theorem GeneratePHPInstance_depends_on_range_order :
  range_valid sample.ascending ∧ range_valid sample.descending ∧
  (caddy.GeneratePHPInstance sample.host sample.world0 sample.cfg
     (λ _, sample.ascending) "8.3" 9001 2020 [sample.env_site]).1 ≠
  (caddy.GeneratePHPInstance sample.host sample.world0 sample.cfg
     (λ _, sample.descending) "8.3" 9001 2020 [sample.env_site]).1.
Proof.
  split; [apply ascending_valid|]. split; [apply descending_valid|].
  apply String.eqb_neq. by vm_compute.
Qed.

Lemma replace_byte_other old new c s :
  c ≠ old → c ≠ new →
  has_byte c (strings.replace_byte old new s) = has_byte c s.
Proof.
  intros Ho Hn. induction s as [|x s IH]; simpl; [done|]. rewrite IH.
  destruct (Ascii.eqb_spec x old) as [->|Hx]; [|done].
  f_equal. transitivity false; [|symmetry]; by apply Ascii.eqb_neq.
Qed.

(** Every byte other than [-], [.] and [_] is in the matcher name exactly
    when it is in the ID: blanks, line breaks and braces pass through. *)
Lemma sanitizeName_other_bytes s c :
  c ≠ "-"%char → c ≠ "."%char → c ≠ "_"%char →
  has_byte c (caddy.sanitizeName s) = has_byte c s.
Proof.
  intros. unfold caddy.sanitizeName, strings.ReplaceAll.
  by rewrite !replace_byte_other.
Qed.

(** C5 (evaluation). A site ID with a blank in it is its own matcher name;
    the matcher line of the rendered document then reads as four fields, the
    matcher token being [@my] and [site] standing where [host] should. *)
Theorem sanitizeName_keeps_blank :
  caddy.sanitizeName "my site" = "my site" ∧
  let doc := (caddy.GeneratePHPInstance sample.host sample.world0 sample.cfg
                (λ _, sample.ascending) "8.3" 9001 2020 [sample.spaced_site]).1 in
  ∃ i line,
    strings.Split doc "010" !! i = Some line ∧
    line = caddy.tab +:+ "@my site host s.test" ∧
    strings.Fields line = ["@my"; "site"; "host"; "s.test"].
Proof.
  split; [done|]. exists 20%nat. eexists. split; [by vm_compute|].
  split; by vm_compute.
Qed.

(** ** The registry on the sample sites *)

Lemma two_sites_reachable : reachable sample.two_sites.
Proof. unfold sample.two_sites. do 2 apply reach_Create. apply reach_new. Qed.

Lemma after_failed_update_reachable : reachable sample.after_failed_update.
Proof. apply reach_Update, two_sites_reachable. Qed.

Lemma claims_b_spec site host : claims_b site host = true → claims site host.
Proof.
  unfold claims_b, claims. intros [H|H]%orb_true_iff.
  - left. by apply bool_decide_eq_true in H.
  - right. by apply bool_decide_eq_true in H.
Qed.

Lemma index_consistent_b_spec m :
  index_consistent_b m = true → index_consistent m.
Proof.
  unfold index_consistent_b. intros [H1 H2]%andb_true_iff host id.
  rewrite forallb_forall in H1, H2. split.
  - intros Hd. specialize (H1 (host, id)). simpl in H1.
    destruct (sites.sites m !! id) as [site|].
    + exists site. split; [done|]. apply claims_b_spec, H1.
      apply list_elem_of_In. by apply elem_of_map_to_list.
    + discriminate H1. apply list_elem_of_In. by apply elem_of_map_to_list.
  - intros (site & Hs & Hc). specialize (H2 (id, site)). simpl in H2.
    assert (forallb (λ host, bool_decide (sites.domains m !! host = Some id))
              (Domain site :: aliases site) = true) as H3.
    { apply H2, list_elem_of_In. by apply elem_of_map_to_list. }
    rewrite forallb_forall in H3.
    eapply bool_decide_eq_true_1, H3, list_elem_of_In.
    destruct Hc as [<-|Hc]; [left|by right].
Qed.

(** A conflicting [Create] is rejected with the conflict error and leaves
    the registry and the machine as they were. *)
Lemma Create_conflict_no_effect h cfg r fresh t1 t2 site (s : sites.St) :
  domain_conflict s.1 site →
  ∃ e, sites.Create h cfg r fresh t1 t2 site s = (Err e, s) ∧
       (e = ErrDomainExists ∨ ∃ alias, e = ErrAliasExists alias).
Proof.
  intros Hc.
  destruct (Create_checks h cfg r fresh t1 t2 site s)
    as [(_ & He)|[(Hn & _)|[(Hn & _)|(Hn & _)]]]; done.
Qed.

(** An [Update] to a domain that is already indexed is rejected before
    anything is written. *)
Lemma Update_domain_conflict_no_effect h cfg r now id patch site (s : sites.St) :
  sites.sites s.1 !! id = Some site →
  Domain patch ≠ "" → Domain patch ≠ Domain site →
  is_Some (sites.domains s.1 !! Domain patch) →
  sites.Update h cfg r now id patch s = (Err ErrDomainExists, s).
Proof.
  intros Hs Hne Hd Htaken. unfold sites.Update.
  rewrite bind_eq. unfold sites.get_mgr at 1. cbv beta iota. rewrite Hs.
  rewrite bind_eq. unfold sites.update_domain.
  rewrite bind_eq. unfold sites.get_mgr at 1. cbv beta iota.
  rewrite decide_True by done. by rewrite decide_True.
Qed.

(** C1 (evaluation). In the registry holding [siteA] (a.test, alias
    www.a.test) and [siteB] (b.test), [Update("a", {Aliases: [b.test]})]
    returns the alias-conflict error, yet the index entry of www.a.test is
    gone afterwards while the site still lists that alias. *)
Theorem Update_alias_conflict_drops_mappings :
  reachable sample.two_sites ∧
  sites.domains sample.two_sites.1 !! "b.test" = Some "b" ∧
  sites.domains sample.two_sites.1 !! "www.a.test" = Some "a" ∧
  (sites.Update sample.host sample.cfg sample.ascending 3 "a"
     sample.alias_patch sample.two_sites).1 = Err (ErrAliasExists "b.test") ∧
  sites.domains sample.after_failed_update.1 !! "www.a.test" = None ∧
  Aliases <$> sites.sites sample.after_failed_update.1 !! "a"
    = Some (Some ["www.a.test"]).
Proof. split; [apply two_sites_reachable|]. by vm_compute. Qed.

(** C10 (evaluation). The state after that failed [Update] is reachable and
    its index is not consistent: site "a" lists www.a.test, the index does
    not. *)
Theorem index_inconsistent_after_failed_update :
  reachable sample.after_failed_update ∧
  ¬ index_consistent sample.after_failed_update.1.
Proof.
  split; [apply after_failed_update_reachable|].
  intros Hc.
  assert (sites.domains sample.after_failed_update.1 !! "www.a.test"
          = Some "a") as E.
  { apply Hc. eexists. split; [by vm_compute|]. right. simpl. by left. }
  vm_compute in E. discriminate E.
Qed.

(** C3, as stated, fails: an [Update] with an empty [Status] succeeds and
    the stored status is still "active". *)
Lemma Update_empty_status_kept :
  ¬ (∀ h cfg r now id patch s s' site' stored,
       sites.Update h cfg r now id patch s = (Ok site', s') →
       sites.sites s'.1 !! id = Some stored →
       WorkerMode stored = WorkerMode patch ∧ Status stored = Status patch).
Proof.
  intros H.
  pose (res := sites.Update sample.host sample.cfg sample.ascending 3 "a"
                 sample.empty_patch sample.two_sites).
  pose (site' := match res.1 with Ok site => site | Err _ => sample.siteA end).
  pose (stored := default sample.siteA (sites.sites res.2.1 !! "a")).
  assert (res = (Ok site', res.2)) as E by (vm_compute; reflexivity).
  assert (sites.sites res.2.1 !! "a" = Some stored) as Es
    by (vm_compute; reflexivity).
  destruct (H sample.host sample.cfg sample.ascending 3 "a"
              sample.empty_patch sample.two_sites res.2 site' stored E Es)
    as [_ Hs].
  vm_compute in Hs. discriminate Hs.
Qed.

(** C4, as stated, fails: with an invalid PHP version and a taken domain the
    error is the domain conflict. *)
Lemma Create_invalid_php_other_error :
  ¬ (∀ h cfg r fresh t1 t2 site s,
       sites.validPHP cfg (PHPVersion site) = false →
       sites.Create h cfg r fresh t1 t2 site s = (Err ErrInvalidPHPVersion, s)).
Proof.
  intros H.
  specialize (H sample.host sample.cfg sample.ascending "u3" 3 3 sample.clash
                sample.two_sites eq_refl).
  apply (f_equal fst) in H. vm_compute in H. discriminate H.
Qed.

(** C6, as stated, fails: an owner at the limit who asks for a taken domain
    gets the domain conflict, not the quota error. *)
Lemma Create_conflict_before_quota :
  ¬ (∀ h cfg r fresh t1 t2 site s limit,
       UserID site ≠ "" → UserID site ≠ "admin" →
       sites.userLimits s.1 !! sites.getUsernameFromID h (UserID site)
         = Some limit →
       0 < MaxSites limit →
       ((sites.Create h cfg r fresh t1 t2 site s).1 = Err ErrSiteLimitReached ↔
        MaxSites limit ≤ sites.countUserSitesUnlocked s.1 (UserID site))).
Proof.
  intros H.
  assert (sites.userLimits sample.bob_full.1 !!
            sites.getUsernameFromID sample.host (UserID sample.bob_again)
          = Some sample.bob_limit) as El by (by vm_compute).
  destruct (H sample.host sample.cfg sample.ascending "u2" 2 2
              sample.bob_again sample.bob_full sample.bob_limit)
    as [_ Hback]; [discriminate|discriminate|exact El|reflexivity|].
  assert (MaxSites sample.bob_limit ≤
            sites.countUserSitesUnlocked sample.bob_full.1
              (UserID sample.bob_again)) as Hc by (by vm_compute).
  specialize (Hback Hc). vm_compute in Hback. discriminate Hback.
Qed.



(** ** The theorems at sample inputs *)

Lemma ApplyLimits_zero_writes_no_control_witness :
  MaxRAMMB sample.no_limits = 0 ∧
  ∃ calls,
    os.trace (limits.ApplyLimits sample.host limits.NewManager
                sample.no_limits sample.cgroup_world).2
      = calls ++ os.trace sample.cgroup_world ∧
    (∀ data,
       os.SysWriteFile "/sys/fs/cgroup/fastcp-bob/memory.max" data ∉ calls) ∧
    (∀ argv, os.SysExec argv ∉ calls).
Proof.
  split; [reflexivity|].
  destruct (ApplyLimits_zero_writes_no_control sample.host limits.NewManager
              sample.no_limits sample.cgroup_world)
    as (calls & E & Hmem & _ & _ & Hdisk).
  exists calls. split; [exact E|]. split.
  - apply Hmem. reflexivity.
  - apply Hdisk. reflexivity.
Defined.

Lemma Create_invalid_php_no_effect_witness :
  sites.validPHP sample.cfg (PHPVersion sample.no_php) = false ∧
  ∃ e,
    sites.Create sample.host sample.cfg sample.ascending "u3" 3 3
      sample.no_php sample.two_sites = (Err e, sample.two_sites) ∧
    (e = ErrInvalidPHPVersion ∨ e = ErrDomainExists ∨
     (∃ alias, e = ErrAliasExists alias) ∨ e = ErrSiteLimitReached) ∧
    (¬ domain_conflict sample.two_sites.1 sample.no_php →
     ¬ over_quota sample.host sample.two_sites.1 sample.no_php →
     e = ErrInvalidPHPVersion).
Proof.
  split; [reflexivity|].
  apply (Create_invalid_php_no_effect sample.host sample.cfg sample.ascending
           "u3" 3 3 sample.no_php sample.two_sites).
  reflexivity.
Defined.

Lemma Create_site_limit_witness :
  (sites.Create sample.host sample.cfg sample.ascending "u2" 2 2
     sample.bob_other sample.bob_full).1 = Err ErrSiteLimitReached ∧
  (sites.Create sample.host sample.cfg sample.ascending "u2" 2 2
     sample.admin_site sample.bob_full).1 ≠ Err ErrSiteLimitReached.
Proof.
  split.
  - apply (proj1 (Create_site_limit sample.host sample.cfg sample.ascending
                    "u2" 2 2 sample.bob_other sample.bob_full)
             sample.bob_limit).
    + discriminate.
    + discriminate.
    + vm_compute. reflexivity.
    + reflexivity.
    + intros [[x Hx]|(alias & Hin & _)].
      * vm_compute in Hx. discriminate Hx.
      * vm_compute in Hin. by apply elem_of_nil in Hin.
    + vm_compute. discriminate.
  - apply (proj2 (Create_site_limit sample.host sample.cfg sample.ascending
                    "u2" 2 2 sample.admin_site sample.bob_full)).
    right. left. reflexivity.
Defined.

Lemma Update_merges_patch_witness :
  let res := sites.Update sample.host sample.cfg sample.ascending 3 "a"
               sample.rename_patch sample.two_sites in
  let site' := match res.1 with Ok site => site | Err _ => sample.siteA end in
  res = (Ok site', res.2) ∧
  ∃ old,
    sites.sites sample.two_sites.1 !! "a" = Some old ∧
    sites.sites res.2.1 !! "a" = Some site' ∧
    site' = merge_patch 3 sample.rename_patch old ∧
    WorkerMode site' = WorkerMode sample.rename_patch ∧
    Status site' =
      (if decide (Status sample.rename_patch = "")
       then Status old else Status sample.rename_patch).
Proof.
  intros res site'.
  assert (res = (Ok site', res.2)) as E by (vm_compute; reflexivity).
  split; [exact E|].
  exact (Update_merges_patch sample.host sample.cfg sample.ascending 3 "a"
           sample.rename_patch sample.two_sites res.2 site' E).
Defined.



(** * Further properties of the code *)

(** ** The registry: operations and the domain index *)

Lemma saveUnlocked_run h r (s : sites.St) :
  ∃ res w, sites.saveUnlocked h r s = (res, (s.1, w)).
Proof.
  unfold sites.saveUnlocked. rewrite bind_eq. unfold sites.get_mgr at 1.
  cbv beta iota. rewrite bind_eq. unfold sites.in_world. cbn [fst snd].
  destruct (os.MkdirAll h (sites.dataPath s.1) s.2) as [[[]|e] w1]; cbn [fst snd];
    by eexists _, _.
Qed.

Lemma foldl_delete_lookup (l : list string) (d : gmap string string) host :
  foldl (λ d alias, delete alias d) d l !! host =
    if decide (host ∈ l) then None else d !! host.
Proof.
  revert d. induction l as [|a l IH]; intros d; [done|].
  cbn [foldl]. rewrite IH. destruct (decide (host ∈ l)) as [Hin|Hin].
  - rewrite decide_True; [done|]. by right.
  - destruct (decide (host = a)) as [->|Hne].
    + rewrite decide_True by left. by rewrite lookup_delete_eq.
    + rewrite decide_False by (by intros [?|?]%elem_of_cons).
      by rewrite lookup_delete_ne.
Qed.

(** What [Delete] leaves in the registry. *)
Lemma Delete_run h r id site (s : sites.St) :
  sites.sites s.1 !! id = Some site →
  ∃ res w, sites.Delete h r id s =
    (res, (sites.mkManager (delete id (sites.sites s.1))
             (foldl (λ d alias, delete alias d)
                    (delete (models.Domain site) (sites.domains s.1))
                    (models.aliases site))
             (sites.userLimits s.1) (sites.dataPath s.1), w)).
Proof.
  intros Hs. unfold sites.Delete. rewrite bind_eq. unfold sites.get_mgr at 1.
  cbv beta iota. cbn [fst]. rewrite Hs.
  rewrite bind_eq. unfold sites.modify_domains at 1, step_modify at 1.
  cbv beta iota. rewrite bind_eq, for_modify_domains. cbv beta iota.
  rewrite bind_eq. unfold sites.modify_sites at 1, step_modify at 1.
  cbv beta iota. cbn [fst snd sites.sites sites.domains sites.userLimits sites.dataPath].
  match goal with |- context [sites.saveUnlocked h r ?s0] =>
    destruct (saveUnlocked_run h r s0) as (res & w & ->) end.
  by eexists _, _.
Qed.


Lemma same_hosts_claims a b host : same_hosts a b → claims a host ↔ claims b host.
Proof. intros [Hd Ha]. unfold claims, models.aliases. by rewrite Hd, Ha. Qed.

Lemma index_neutral_refl s : index_neutral s s.
Proof.
  split; [done|]. intros id. destruct (sites.sites s.1 !! id); by constructor.
Qed.

Lemma index_neutral_trans s1 s2 s3 :
  index_neutral s1 s2 → index_neutral s2 s3 → index_neutral s1 s3.
Proof.
  intros [D1 H1] [D2 H2]. split; [congruence|]. intros id.
  specialize (H1 id). specialize (H2 id).
  destruct H1 as [a b [??]|]; inversion H2 as [b' c [??]|]; subst;
    constructor. split; congruence.
Qed.

Lemma index_neutral_consistent s s' :
  index_neutral s s' → index_consistent s.1 → index_consistent s'.1.
Proof.
  intros [Hd Hs] Hc host id. rewrite Hd, (Hc host id). specialize (Hs id).
  split; intros (site & E & Hcl); rewrite E in Hs; inversion Hs as [a b Hab|];
    subst; eexists; (split; [done|]); eapply same_hosts_claims; eauto.
  destruct Hab. by split.
Qed.

Section preserves.
Context (R : relation sites.St) `{!Reflexive R} `{!Transitive R}.

Lemma preserves_same {A} (c : Step sites.St A) :
  (∀ s, (c s).2 = s) → preserves R c.
Proof. intros H s. by rewrite H. Qed.

Lemma preserves_ret {A} (a : A) : preserves R (step_ret a).
Proof. by apply preserves_same. Qed.

Lemma preserves_fail {A} e : preserves R (@step_fail _ A e).
Proof. by apply preserves_same. Qed.

Lemma preserves_bind {A B} (c : Step sites.St A) (k : A → Step sites.St B) :
  preserves R c → (∀ a, preserves R (k a)) → preserves R (step_bind c k).
Proof.
  intros Hc Hk s. specialize (Hc s). unfold step_bind.
  destruct (c s) as [[a|e] s1]; [|done].
  etrans; [exact Hc|apply Hk].
Qed.

Lemma preserves_for {A} (l : list A) (body : A → Step sites.St unit) :
  (∀ x, preserves R (body x)) → preserves R (step_for l body).
Proof.
  intros Hb. induction l as [|x l IH]; simpl; [apply preserves_ret|].
  apply preserves_bind; [apply Hb|]. intros _. apply IH.
Qed.

Lemma preserves_wrap_error {A} f (c : Step sites.St A) :
  preserves R c → preserves R (wrap_error f c).
Proof.
  intros Hc s. specialize (Hc s). unfold wrap_error.
  by destruct (c s) as [[a|e] s1].
Qed.

Lemma preserves_get_mgr : preserves R sites.get_mgr.
Proof. by apply preserves_same. Qed.

End preserves.

#[local] Instance index_neutral_reflexive : Reflexive index_neutral.
Proof. exact index_neutral_refl. Qed.
#[local] Instance index_neutral_transitive : Transitive index_neutral.
Proof. exact index_neutral_trans. Qed.

Lemma index_neutral_fields (s s' : sites.St) :
  sites.sites s'.1 = sites.sites s.1 → sites.domains s'.1 = sites.domains s.1 →
  index_neutral s s'.
Proof.
  intros Hs Hd. split; [done|]. intros id. rewrite Hs.
  destruct (sites.sites s.1 !! id); by constructor.
Qed.

Lemma neutral_in_world {A} (c : Step os.World A) :
  preserves index_neutral (sites.in_world c).
Proof. intros s. by apply index_neutral_fields. Qed.

Lemma neutral_modify_userLimits f :
  preserves index_neutral (sites.modify_userLimits f).
Proof. intros s. by apply index_neutral_fields. Qed.

Lemma neutral_modify_site id f :
  (∀ site, same_hosts site (f site)) →
  preserves index_neutral (sites.modify_site id f).
Proof.
  intros Hf s. split; [done|]. intros i. simpl. rewrite lookup_alter.
  case_decide as Hi; [subst i|].
  - destruct (sites.sites s.1 !! id); constructor. apply Hf.
  - destruct (sites.sites s.1 !! i); by constructor.
Qed.

Lemma neutral_saveUnlocked h r : preserves index_neutral (sites.saveUnlocked h r).
Proof.
  unfold sites.saveUnlocked.
  apply preserves_bind; [tc_solve|apply preserves_get_mgr; tc_solve|]. intros m.
  apply preserves_bind; [tc_solve|apply neutral_in_world|]. intros _.
  apply neutral_in_world.
Qed.

Lemma neutral_saveUserLimitsUnlocked h r :
  preserves index_neutral (sites.saveUserLimitsUnlocked h r).
Proof.
  unfold sites.saveUserLimitsUnlocked.
  apply preserves_bind; [tc_solve|apply preserves_get_mgr; tc_solve|]. intros m.
  apply preserves_bind; [tc_solve|apply neutral_in_world|]. intros _.
  apply neutral_in_world.
Qed.

Ltac neutral_step :=
  lazymatch goal with
  | |- preserves _ (step_bind _ _) => apply preserves_bind; [tc_solve| |intros ?]
  | |- preserves _ (step_ret _) => apply preserves_ret; tc_solve
  | |- preserves _ (step_fail _) => apply preserves_fail; tc_solve
  | |- preserves _ sites.get_mgr => apply preserves_get_mgr; tc_solve
  | |- preserves _ (sites.in_world _) => apply neutral_in_world
  | |- preserves _ (sites.modify_userLimits _) => apply neutral_modify_userLimits
  | |- preserves _ (sites.modify_site _ _) =>
      apply neutral_modify_site; by intros []
  | |- preserves _ (sites.saveUnlocked _ _) => apply neutral_saveUnlocked
  | |- preserves _ (sites.saveUserLimitsUnlocked _ _) =>
      apply neutral_saveUserLimitsUnlocked
  | |- preserves _ (sites.check_php_version _ _) =>
      unfold sites.check_php_version
  | |- preserves _ (match ?x with _ => _ end) => destruct x
  end.

Lemma neutral_Suspend h r now id : preserves index_neutral (sites.Suspend h r now id).
Proof. unfold sites.Suspend. repeat neutral_step. Qed.

Lemma neutral_Unsuspend h r now id :
  preserves index_neutral (sites.Unsuspend h r now id).
Proof. unfold sites.Unsuspend. repeat neutral_step. Qed.

Lemma neutral_SetUserLimit h r limit :
  preserves index_neutral (sites.SetUserLimit h r limit).
Proof. unfold sites.SetUserLimit. repeat neutral_step. Qed.

Lemma neutral_Update h cfg r now id patch :
  models.Domain patch = "" → models.Aliases patch = None →
  preserves index_neutral (sites.Update h cfg r now id patch).
Proof.
  intros Hd Ha. unfold sites.Update, sites.update_domain. rewrite Hd, Ha.
  neutral_step; [neutral_step|]. neutral_step; [|neutral_step].
  neutral_step.
  { neutral_step; [neutral_step|]. case_decide as Hne; [by destruct Hne|].
    neutral_step. }
  repeat neutral_step.
Qed.

Lemma Delete_missing h r id (s : sites.St) :
  sites.sites s.1 !! id = None → sites.Delete h r id s = (Err ErrSiteNotFound, s).
Proof.
  intros Hs. unfold sites.Delete. rewrite bind_eq. unfold sites.get_mgr.
  cbv beta iota. cbn [fst]. by rewrite Hs.
Qed.

Lemma set_status_run h r now status id site (s : sites.St) :
  sites.sites s.1 !! id = Some site →
  ∃ res w,
    (do_ sites.modify_site id (models.set_Status status);
     do_ sites.modify_site id (models.set_UpdatedAt now);
     sites.saveUnlocked h r) s =
    (res, (sites.mkManager
             (<[id := models.set_UpdatedAt now (models.set_Status status site)]>
                (sites.sites s.1))
             (sites.domains s.1) (sites.userLimits s.1) (sites.dataPath s.1), w)).
Proof.
  intros Hs. rewrite bind_eq.
  unfold sites.modify_site at 1, sites.modify_sites at 1, step_modify at 1.
  cbv beta iota. rewrite bind_eq.
  unfold sites.modify_site at 1, sites.modify_sites at 1, step_modify at 1.
  cbv beta iota. cbn [fst snd sites.sites sites.domains sites.userLimits sites.dataPath].
  match goal with |- context [sites.saveUnlocked h r ?s0] =>
    destruct (saveUnlocked_run h r s0) as (res & w & ->) end.
  cbn [fst]. rewrite alter_alter_eq, (alter_alt_Some _ _ _ _ Hs).
  by eexists _, _.
Qed.

Lemma Suspend_run h r now id site (s : sites.St) :
  sites.sites s.1 !! id = Some site →
  ∃ res w, sites.Suspend h r now id s =
    (res, (sites.mkManager
             (<[id := models.set_UpdatedAt now (models.set_Status "suspended" site)]>
                (sites.sites s.1))
             (sites.domains s.1) (sites.userLimits s.1) (sites.dataPath s.1), w)).
Proof.
  intros Hs. unfold sites.Suspend. rewrite bind_eq. unfold sites.get_mgr at 1.
  cbv beta iota. cbn [fst]. rewrite Hs. by apply set_status_run.
Qed.

Lemma Unsuspend_run h r now id site (s : sites.St) :
  sites.sites s.1 !! id = Some site →
  ∃ res w, sites.Unsuspend h r now id s =
    (res, (sites.mkManager
             (<[id := models.set_UpdatedAt now (models.set_Status "active" site)]>
                (sites.sites s.1))
             (sites.domains s.1) (sites.userLimits s.1) (sites.dataPath s.1), w)).
Proof.
  intros Hs. unfold sites.Unsuspend. rewrite bind_eq. unfold sites.get_mgr at 1.
  cbv beta iota. cbn [fst]. rewrite Hs. by apply set_status_run.
Qed.

(** X1. An operation on an ID the registry does not hold fails with
    [ErrSiteNotFound] and leaves the registry and the machine as they were:
    [Get], [Update], [Delete], [Suspend] and [Unsuspend] alike. *)
Theorem missing_id_not_found h cfg r now id patch (s : sites.St) :
  sites.sites s.1 !! id = None →
  sites.Get s.1 id = Err ErrSiteNotFound ∧
  sites.Update h cfg r now id patch s = (Err ErrSiteNotFound, s) ∧
  sites.Delete h r id s = (Err ErrSiteNotFound, s) ∧
  sites.Suspend h r now id s = (Err ErrSiteNotFound, s) ∧
  sites.Unsuspend h r now id s = (Err ErrSiteNotFound, s).
Proof.
  intros Hs. unfold sites.Get, sites.Update, sites.Delete, sites.Suspend,
    sites.Unsuspend. rewrite !bind_eq. unfold sites.get_mgr. cbv beta iota.
  cbn [fst]. by rewrite Hs.
Qed.

(** X2. [Delete] of a stored site removes the site and every hostname it
    answers to, and nothing else, whether or not the snapshot can be written
    afterwards. *)
Theorem Delete_removes_site_and_hostnames h r id site (s : sites.St) :
  sites.sites s.1 !! id = Some site →
  let m' := (sites.Delete h r id s).2.1 in
  sites.Get m' id = Err ErrSiteNotFound ∧
  (∀ host, claims site host → sites.GetByDomain m' host = Err ErrSiteNotFound) ∧
  (∀ host, ¬ claims site host →
     sites.domains m' !! host = sites.domains s.1 !! host) ∧
  (∀ id', id' ≠ id → sites.sites m' !! id' = sites.sites s.1 !! id') ∧
  sites.userLimits m' = sites.userLimits s.1.
Proof.
  intros Hs m'. destruct (Delete_run h r id site s Hs) as (res & w & E).
  subst m'. rewrite E. cbn [fst snd].
  unfold sites.Get, sites.GetByDomain.
  cbn [sites.sites sites.domains sites.userLimits].
  split; [by rewrite lookup_delete_eq|].
  split; [|split; [|split; [|done]]].
  - intros host Hc. rewrite foldl_delete_lookup.
    case_decide as Hin; [done|].
    destruct Hc as [<-|Hc]; [|done]. by rewrite lookup_delete_eq.
  - intros host Hc. rewrite foldl_delete_lookup.
    rewrite decide_False by (intros ?; apply Hc; by right).
    rewrite lookup_delete_ne; [done|]. intros ?. apply Hc. by left.
  - intros id' Hne. by rewrite lookup_delete_ne.
Qed.

(** X3. [Delete] keeps the domain index consistent with the sites: if the
    index listed exactly the hostnames of the stored sites before, it does
    so afterwards, whatever the call returns. *)
Theorem Delete_keeps_index_consistent h r id (s : sites.St) :
  index_consistent s.1 → index_consistent (sites.Delete h r id s).2.1.
Proof.
  intros Hc. destruct (sites.sites s.1 !! id) as [site|] eqn:Hs.
  2:{ by rewrite Delete_missing. }
  destruct (Delete_run h r id site s Hs) as (res & w & E). rewrite E.
  cbn [fst snd]. intros host j.
  cbn [sites.sites sites.domains]. rewrite foldl_delete_lookup.
  split.
  - case_decide as Hin; [done|]. rewrite lookup_delete.
    case_decide as Hd; [done|]. intros Hj.
    apply Hc in Hj as (site' & Hj & Hcl). exists site'. split; [|done].
    rewrite lookup_delete_ne; [done|]. intros <-.
    rewrite Hs in Hj. simplify_eq. destruct Hcl; done.
  - intros (site' & Hj & Hcl). rewrite lookup_delete in Hj.
    case_decide as Hne; [done|].
    assert (sites.domains s.1 !! host = Some j) as Hd by (apply Hc; eauto).
    assert (¬ claims site host) as Hno.
    { intros Hcs.
      assert (sites.domains s.1 !! host = Some id) by (apply Hc; eauto).
      congruence. }
    rewrite decide_False by (intros ?; apply Hno; by right).
    rewrite lookup_delete_ne; [done|]. intros ?. apply Hno. by left.
Qed.

(** X4. [Suspend] and [Unsuspend] of a stored site rewrite its [Status]
    (to suspended, to active) and its [UpdatedAt] and nothing else: every
    other field, every other site, the domain index and the user limits are
    as before, also when the snapshot cannot be written. *)
Theorem Suspend_Unsuspend_effect h r now id site (s : sites.St) :
  sites.sites s.1 !! id = Some site →
  let suspended := (sites.Suspend h r now id s).2.1 in
  let resumed := (sites.Unsuspend h r now id s).2.1 in
  sites.sites suspended =
    <[id := models.set_UpdatedAt now (models.set_Status "suspended" site)]>
      (sites.sites s.1) ∧
  sites.sites resumed =
    <[id := models.set_UpdatedAt now (models.set_Status "active" site)]>
      (sites.sites s.1) ∧
  sites.domains suspended = sites.domains s.1 ∧
  sites.domains resumed = sites.domains s.1 ∧
  sites.userLimits suspended = sites.userLimits s.1 ∧
  sites.userLimits resumed = sites.userLimits s.1.
Proof.
  intros Hs suspended resumed. subst suspended resumed.
  destruct (Suspend_run h r now id site s Hs) as (res1 & w1 & ->).
  destruct (Unsuspend_run h r now id site s Hs) as (res2 & w2 & ->).
  done.
Qed.

(** X5. Suspending an active site and resuming it later gives the site
    back with every field as it was except [UpdatedAt], which is the time of
    the resume; no other site changes. *)
Theorem Suspend_then_Unsuspend h r t1 t2 id site (s : sites.St) :
  sites.sites s.1 !! id = Some site →
  models.Status site = "active" →
  let s1 := (sites.Suspend h r t1 id s).2 in
  let s2 := (sites.Unsuspend h r t2 id s1).2 in
  sites.sites s2.1 = <[id := models.set_UpdatedAt t2 site]> (sites.sites s.1).
Proof.
  intros Hs Ha s1 s2. subst s1 s2.
  destruct (Suspend_run h r t1 id site s Hs) as (res1 & w1 & ->).
  cbn [snd].
  edestruct (Unsuspend_run h r t2 id) as (res2 & w2 & ->).
  { cbn [fst sites.sites]. apply lookup_insert_eq. }
  cbn [fst snd sites.sites]. rewrite insert_insert_eq.
  f_equal. destruct site; simpl in *. by subst.
Qed.

(** X6. [Suspend], [Unsuspend] and [SetUserLimit] keep the domain index
    consistent with the sites: an index that listed exactly the hostnames of
    the stored sites still does after any of them, whatever the call
    returns. *)
Theorem status_and_limits_keep_index h r now id limit (s : sites.St) :
  index_consistent s.1 →
  index_consistent (sites.Suspend h r now id s).2.1 ∧
  index_consistent (sites.Unsuspend h r now id s).2.1 ∧
  index_consistent (sites.SetUserLimit h r limit s).2.1.
Proof.
  intros Hc.
  pose proof (neutral_Suspend h r now id s) as H1.
  pose proof (neutral_Unsuspend h r now id s) as H2.
  pose proof (neutral_SetUserLimit h r limit s) as H3.
  split; [by eapply index_neutral_consistent|].
  split; by eapply index_neutral_consistent.
Qed.

Lemma saveUnlocked_cases h r (s : sites.St) :
  let sitesFile := filepath.Join [sites.dataPath s.1; "sites.json"] in
  (∃ w, sites.saveUnlocked h r s = (Ok tt, (s.1, w)) ∧
        os.files w !! sitesFile =
          Some (os.SitesDoc (r _ (sites.sites s.1)).*2)) ∨
  (∃ e w, sites.saveUnlocked h r s = (Err e, (s.1, w)) ∧
          (e = ErrOS "mkdir" (sites.dataPath s.1) ∨ e = ErrOS "write" sitesFile)).
Proof.
  intros sitesFile.
  unfold sites.saveUnlocked, step_bind, sites.get_mgr, sites.in_world,
    os.MkdirAll, os.WriteFile.
  cbn [fst snd]. fold sitesFile.
  destruct (os.mkdir_ok h (sites.dataPath s.1)); cbn [fst snd];
    [|right; eexists _, _; split; [done|by left]].
  destruct (os.write_ok h sitesFile); cbn [fst snd];
    [|right; eexists _, _; split; [done|by right]].
  left. eexists. split; [done|]. cbn [os.files]. apply lookup_insert_eq.
Qed.

(** The three ways [Create] can end once its checks have passed. *)
Lemma Create_register_cases h cfg r fresh t1 t2 site (s : sites.St) :
  let site' := sites.with_defaults h cfg fresh t1 t2 site in
  let m' := sites.mkManager (<[models.ID site' := site']> (sites.sites s.1))
              (index_site site' (sites.domains s.1))
              (sites.userLimits s.1) (sites.dataPath s.1) in
  let sitesFile := filepath.Join [sites.dataPath s.1; "sites.json"] in
  (∃ cause w, Create_register h cfg r fresh t1 t2 site s =
                (Err (ErrCreateDirectories cause), (s.1, w))) ∨
  (∃ e w, Create_register h cfg r fresh t1 t2 site s = (Err e, (m', w)) ∧
          (e = ErrOS "mkdir" (sites.dataPath s.1) ∨ e = ErrOS "write" sitesFile)) ∨
  (∃ w, Create_register h cfg r fresh t1 t2 site s = (Ok site', (m', w)) ∧
        os.files w !! sitesFile = Some (os.SitesDoc (r _ (sites.sites m')).*2)).
Proof.
  intros site' m' sitesFile. unfold Create_register. fold site'.
  rewrite bind_eq. unfold wrap_error, sites.in_world. cbn [fst snd].
  destruct (sites.createSiteDirectories h cfg site' s.2) as [[[]|e] w1];
    cbn [fst snd]; [|left; by eexists _, _].
  right. rewrite bind_eq, add_to_maps_run. cbv beta iota. cbn [fst snd].
  fold m'. rewrite bind_eq.
  destruct (saveUnlocked_cases h r (m', w1))
    as [(w & -> & Hf)|(e & w & -> & He)].
  - right. exists w. split; [done|]. exact Hf.
  - left. eexists _, _. split; [done|]. exact He.
Qed.

Lemma with_defaults_hosts h cfg fresh t1 t2 site :
  same_hosts site (sites.with_defaults h cfg fresh t1 t2 site).
Proof.
  unfold sites.with_defaults.
  repeat (case_decide; cbv zeta); by destruct site.
Qed.

(** A [Create] that returns a site went through all three checks and
    registered the site. *)
Lemma Create_ok_inv h cfg r fresh t1 t2 site site' (s s' : sites.St) :
  sites.Create h cfg r fresh t1 t2 site s = (Ok site', s') →
  ¬ domain_conflict s.1 site ∧ ¬ over_quota h s.1 site ∧
  sites.validPHP cfg (models.PHPVersion site) = true ∧
  site' = sites.with_defaults h cfg fresh t1 t2 site ∧
  s'.1 = sites.mkManager (<[models.ID site' := site']> (sites.sites s.1))
           (index_site site' (sites.domains s.1))
           (sites.userLimits s.1) (sites.dataPath s.1) ∧
  os.files s'.2 !! filepath.Join [sites.dataPath s.1; "sites.json"] =
    Some (os.SitesDoc (r _ (sites.sites s'.1)).*2).
Proof.
  intros E.
  destruct (Create_checks h cfg r fresh t1 t2 site s)
    as [(_ & e & E' & _)|[(_ & _ & E')|[(_ & _ & _ & E')|(Hd & Hq & Hv & E')]]];
    rewrite E' in E; try discriminate E.
  destruct (Create_register_cases h cfg r fresh t1 t2 site s)
    as [(e & w & E2)|[(e & w & E2 & _)|(w & E2 & Hf)]];
    rewrite E2 in E; try discriminate E.
  injection E as <- <-. cbn [fst snd]. done.
Qed.

Ltac with_defaults_step :=
  cbn [models.ID models.UserID models.Domain models.RootPath
       models.PublicPath models.Status models.set_ID models.set_Status
       models.set_PublicPath models.set_RootPath models.set_CreatedAt
       models.set_UpdatedAt].

(** The site [Create] stores, field by field. *)
Lemma with_defaults_fields h cfg fresh t1 t2 site :
  let username := sites.getUsernameFromID h (models.UserID site) in
  sites.with_defaults h cfg fresh t1 t2 site =
    models.mkSite
      (if decide (models.ID site = "") then fresh else models.ID site)
      (models.UserID site) (models.Name site) (models.Domain site)
      (models.Aliases site) (models.PHPVersion site)
      (if decide (models.RootPath site = "") then
         if decide (username ≠ "" ∧ username ≠ "admin")
         then filepath.Join [config.SitesDir cfg; username; models.Domain site]
         else filepath.Join [config.SitesDir cfg; models.Domain site]
       else models.RootPath site)
      (if decide (models.PublicPath site = "") then "public"
       else models.PublicPath site)
      (if decide (models.Status site = "") then "active" else models.Status site)
      (models.WorkerMode site) (models.WorkerFile site) (models.WorkerNum site)
      (models.Environment site) t1 t2.
Proof.
  intros username. subst username. unfold sites.with_defaults.
  destruct site as [id uid name dom al php root pub st wm wf wn env c u].
  cbv zeta. with_defaults_step. destruct (decide (id = ""));
    with_defaults_step; destruct (decide (st = ""));
    with_defaults_step; destruct (decide (pub = ""));
    with_defaults_step; destruct (decide (root = ""));
    with_defaults_step; try done; case_decide; by with_defaults_step.
Qed.

(** X7. A [Create] that succeeds returns and stores the site it was given
    with these fields set: the ID, when empty, to the generated one; the
    status, when empty, to active; the public path, when empty, to public;
    the root path, when empty, to the site's directory under the sites
    directory (under the owner's name when the owner is a user other than
    admin); and the two time stamps to the clock readings.  The site is
    stored under its ID; every hostname of the site resolves to it; no other
    site and no other hostname changes; and the snapshot on disk lists the
    sites of the registry, the new one included.  It only succeeds when no
    hostname of the site was taken and its PHP version is enabled. *)
Theorem Create_success_registers h cfg r fresh t1 t2 site site'
    (s s' : sites.St) :
  sites.Create h cfg r fresh t1 t2 site s = (Ok site', s') →
  let username := sites.getUsernameFromID h (models.UserID site) in
  site' =
    models.mkSite
      (if decide (models.ID site = "") then fresh else models.ID site)
      (models.UserID site) (models.Name site) (models.Domain site)
      (models.Aliases site) (models.PHPVersion site)
      (if decide (models.RootPath site = "") then
         if decide (username ≠ "" ∧ username ≠ "admin")
         then filepath.Join [config.SitesDir cfg; username; models.Domain site]
         else filepath.Join [config.SitesDir cfg; models.Domain site]
       else models.RootPath site)
      (if decide (models.PublicPath site = "") then "public"
       else models.PublicPath site)
      (if decide (models.Status site = "") then "active" else models.Status site)
      (models.WorkerMode site) (models.WorkerFile site) (models.WorkerNum site)
      (models.Environment site) t1 t2 ∧
  sites.Get s'.1 (models.ID site') = Ok site' ∧
  (∀ host, claims site' host → sites.GetByDomain s'.1 host = Ok (Some site')) ∧
  (∀ host, ¬ claims site' host →
     sites.domains s'.1 !! host = sites.domains s.1 !! host) ∧
  (∀ id, id ≠ models.ID site' → sites.sites s'.1 !! id = sites.sites s.1 !! id) ∧
  os.files s'.2 !! filepath.Join [sites.dataPath s.1; "sites.json"] =
    Some (os.SitesDoc (r _ (sites.sites s'.1)).*2) ∧
  ¬ domain_conflict s.1 site ∧
  sites.validPHP cfg (models.PHPVersion site) = true.
Proof.
  intros E username. apply Create_ok_inv in E as (Hd & _ & Hv & Hsite & Hm & Hf).
  split; [by rewrite Hsite, with_defaults_fields|].
  unfold sites.Get, sites.GetByDomain. rewrite Hm in *.
  cbn [sites.sites sites.domains] in *.
  split; [by rewrite lookup_insert_eq|].
  split; [|split; [|split; [|done]]].
  - intros host Hc.
    destruct (index_site_lookup site' (sites.domains s.1) host)
      as [[_ ->]|[Hno _]]; [|done].
    by rewrite lookup_insert_eq.
  - intros host Hc.
    by destruct (index_site_lookup site' (sites.domains s.1) host)
      as [[? _]|[_ ->]].
  - intros id Hne. by rewrite lookup_insert_ne.
Qed.

Lemma insert_index_consistent (m : sites.Manager) site :
  index_consistent m →
  sites.sites m !! models.ID site = None →
  ¬ domain_conflict m site →
  index_consistent
    (sites.mkManager (<[models.ID site := site]> (sites.sites m))
       (index_site site (sites.domains m)) (sites.userLimits m)
       (sites.dataPath m)).
Proof.
  intros Hc Hfresh Hfree host j. cbn [sites.sites sites.domains].
  assert (claims site host → sites.domains m !! host = None) as Hnone.
  { intros Hcl. destruct (sites.domains m !! host) as [x|] eqn:E; [|done].
    exfalso. apply Hfree. destruct Hcl as [<-|Hin]; [left; eauto|].
    right. exists host. eauto. }
  destruct (index_site_lookup site (sites.domains m) host) as [[Hcl ->]|[Hcl ->]].
  - split.
    + intros [= <-]. exists site. by rewrite lookup_insert_eq.
    + intros (site' & Hj & Hcl'). rewrite lookup_insert in Hj.
      case_decide as Hid; [by subst|].
      assert (sites.domains m !! host = Some j) as Hd by (apply Hc; eauto).
      rewrite Hnone in Hd; done.
  - rewrite (Hc host j). split.
    + intros (site' & Hj & Hcl'). exists site'. split; [|done].
      rewrite lookup_insert_ne; [done|]. intros <-. congruence.
    + intros (site' & Hj & Hcl'). rewrite lookup_insert in Hj.
      case_decide as Hid; [by simplify_eq|]. eauto.
Qed.

Lemma domain_conflict_hosts m a b :
  same_hosts a b → domain_conflict m a → domain_conflict m b.
Proof.
  intros [Hd Ha]. unfold domain_conflict, models.aliases. by rewrite Hd, Ha.
Qed.

(** X8. [Create] keeps the domain index consistent with the sites provided
    the ID the site is stored under (its own, or the generated one when it
    has none) is not in use: on every path, rejected, failed or successful,
    an index that listed exactly the hostnames of the stored sites still
    does. *)
Theorem Create_keeps_index_consistent h cfg r fresh t1 t2 site (s : sites.St) :
  index_consistent s.1 →
  sites.sites s.1 !! models.ID (sites.with_defaults h cfg fresh t1 t2 site) = None →
  index_consistent (sites.Create h cfg r fresh t1 t2 site s).2.1.
Proof.
  intros Hc Hfresh.
  destruct (Create_checks h cfg r fresh t1 t2 site s)
    as [(_ & e & E' & _)|[(_ & _ & E')|[(_ & _ & _ & E')|(Hd & Hq & Hv & E')]]];
    rewrite E'; try done.
  destruct (Create_register_cases h cfg r fresh t1 t2 site s)
    as [(e & w & E2)|[(e & w & E2 & _)|(w & E2 & Hf)]];
    rewrite E2; cbn [fst snd]; try done;
    (apply insert_index_consistent; [done|done|]);
    intros Hcf; apply Hd; revert Hcf; apply domain_conflict_hosts;
    destruct (with_defaults_hosts h cfg fresh t1 t2 site); by split.
Qed.

(** X9. When reading the snapshot file reports that it does not exist and
    the limits file holds no [null] entry, [Load] succeeds and leaves the
    sites, the domain index and the machine as they are: a first start is
    not an error. *)
Theorem Load_without_snapshot cdc h (s : sites.St) :
  let loaded := sites.Load cdc h s in
  os.IsNotExist (read_sites h (sites.dataPath s.1) s.2) = true →
  has_null (limits_entries cdc h (sites.dataPath s.1) s.2) = false →
  loaded.1 = Ok tt ∧
  sites.sites loaded.2.1 = sites.sites s.1 ∧
  sites.domains loaded.2.1 = sites.domains s.1 ∧
  loaded.2.2 = s.2.
Proof.
  intros loaded Hne Hnull. subst loaded. rewrite Load_cases. cbv zeta.
  destruct (read_sites h _ s.2) as [data|e]; [done|].
  rewrite Hne, Hnull. done.
Qed.

(** X10. [Load] never changes the machine, and it ends in one of four ways.
    It succeeds.  It returns the error of reading the snapshot file, other
    than that the file does not exist, or the error of decoding it, with the
    registry exactly as it was.  It panics at a [null] entry of the snapshot,
    the entries before it indexed.  Or it panics at a [null] entry of the
    limits file.  An error of reading or decoding the limits file is never
    returned. *)
Theorem Load_outcomes cdc h (s : sites.St) :
  let loaded := sites.Load cdc h s in
  let snapshot := read_sites h (sites.dataPath s.1) s.2 in
  loaded.2.2 = s.2 ∧
  match loaded.1 with
  | Ok _ => True
  | Err e =>
      (loaded.2 = s ∧
       ((snapshot = Err e ∧ os.IsNotExist snapshot = false) ∨
        (e = ErrJSON ∧
         ∃ data, snapshot = Ok data ∧ json.unmarshal_sites cdc data = None))) ∨
      (e = ErrNilPointer ∧
       ((∃ data entries,
           snapshot = Ok data ∧
           json.unmarshal_sites cdc data = Some entries ∧
           has_null entries = true ∧
           loaded.2.1 = with_sites (before_null entries) s.1) ∨
        has_null (limits_entries cdc h (sites.dataPath s.1) s.2) = true))
  end.
Proof.
  intros loaded snapshot. subst loaded snapshot. rewrite Load_cases. cbv zeta.
  destruct (read_sites h _ s.2) as [data|e].
  - destruct (json.unmarshal_sites cdc data) as [entries|] eqn:Hd.
    + destruct (has_null entries) eqn:Hn.
      * split; [done|]. right. split; [done|]. left. by exists data, entries.
      * destruct (has_null (limits_entries _ _ _ _)) eqn:Hl; [|done].
        split; [done|]. right. split; [done|]. by right.
    + split; [done|]. left. split; [done|]. right. split; [done|]. by exists data.
  - destruct (os.IsNotExist (Err e)) eqn:Hne.
    + destruct (has_null (limits_entries _ _ _ _)) eqn:Hl; [|done].
      split; [done|]. right. split; [done|]. by right.
    + split; [done|]. left. split; [done|]. by left.
Qed.

(** X11. Loading into a new manager a snapshot that is read and decodes to
    an array without [null] in which no two entries share an ID or a
    hostname, on a machine whose limits file holds no [null] entry, succeeds
    and gives a registry that holds exactly the entries of the snapshot, each
    under its own ID, with a domain index consistent with them. *)
Theorem Load_well_formed_snapshot cdc h dataPath (w : os.World) data
    (l : list models.Site) :
  let loaded := sites.Load cdc h (sites.NewManager dataPath, w) in
  read_sites h dataPath w = Ok data →
  json.unmarshal_sites cdc data = Some (Some <$> l) →
  well_formed_snapshot l →
  has_null (limits_entries cdc h dataPath w) = false →
  loaded.1 = Ok tt ∧
  keyed_by_id loaded.2.1 ∧
  index_consistent loaded.2.1 ∧
  ∀ site, site ∈ l ↔ ∃ id, sites.sites loaded.2.1 !! id = Some site.
Proof.
  intros loaded Hf Hd Hwf Hnull. subst loaded. rewrite Load_cases.
  cbv zeta. cbn [fst snd sites.NewManager sites.dataPath].
  rewrite Hf, Hd, Hnull.
  change (Some <$> l) with (Some ∘ id <$> l).
  rewrite has_null_Some, before_null_Some, list_fmap_id.
  cbn [fst snd].
  unfold keyed_by_id, index_consistent, with_limits, with_sites, sites.NewManager.
  cbn [sites.sites sites.domains].
  set (ss := foldl (λ m site, <[models.ID site := site]> m)
               (∅ : gmap string models.Site) l).
  set (dd := foldl (λ d site, index_site site d) (∅ : gmap string string) l).
  assert (∀ id site, ss !! id = Some site → site ∈ l ∧ models.ID site = id) as Hss.
  { intros id site [?|E]%insert_sites_lookup; [done|].
    by rewrite lookup_empty in E. }
  assert (∀ site, site ∈ l → ss !! models.ID site = Some site) as Hin.
  { intros site Hl. destruct (insert_sites_present l ∅ (models.ID site)) as [x Hx].
    { right. eauto. }
    fold ss in Hx. rewrite Hx. f_equal.
    destruct (Hss _ _ Hx) as [Hxl Hid]. apply Hwf; eauto. }
  split; [done|]. split; [|split].
  - intros id site E. by apply Hss.
  - intros host id. cbn [sites.sites sites.domains]. split.
    + intros [(site & Hl & Hid & Hc)|E]%index_sites_lookup;
        [|by rewrite lookup_empty in E].
      exists site. split; [|done]. subst id. by apply Hin.
    + intros (site & E & Hc). destruct (Hss _ _ E) as [Hl Hid].
      destruct (index_sites_claimed l ∅ host) as [j Hj].
      { right. eauto. }
      fold dd in Hj. rewrite Hj. f_equal.
      apply index_sites_lookup in Hj as [(site2 & Hl2 & Hid2 & Hc2)|E2];
        [|by rewrite lookup_empty in E2].
      assert (site2 = site) by (apply Hwf; eauto). congruence.
  - intros site. split.
    + intros Hl. exists (models.ID site). by apply Hin.
    + intros [id E]. by apply Hss in E as [? _].
Qed.

Lemma saveUserLimitsUnlocked_cases h r (s : sites.St) :
  let limitsFile := filepath.Join [sites.dataPath s.1; "user_limits.json"] in
  ∃ w, (sites.saveUserLimitsUnlocked h r s).2 = (s.1, w) ∧
    (os.mkdir_ok h (sites.dataPath s.1) = true →
     os.write_ok h limitsFile = true →
     (sites.saveUserLimitsUnlocked h r s).1 = Ok tt ∧
     os.files w !! limitsFile =
       Some (os.LimitsDoc (r _ (sites.userLimits s.1)).*2)).
Proof.
  intros limitsFile.
  unfold sites.saveUserLimitsUnlocked, step_bind, sites.get_mgr, sites.in_world,
    os.MkdirAll, os.WriteFile.
  cbn [fst snd]. fold limitsFile.
  destruct (os.mkdir_ok h (sites.dataPath s.1)); cbn [fst snd];
    [|eexists; split; [done|]; done].
  destruct (os.write_ok h limitsFile); cbn [fst snd];
    [|eexists; split; [done|]; done].
  eexists. split; [done|]. intros _ _. split; [done|].
  cbn [os.files]. apply lookup_insert_eq.
Qed.

Lemma SetUserLimit_run h r limit (s : sites.St) :
  let m' := sites.mkManager (sites.sites s.1) (sites.domains s.1)
              (<[models.Username limit := limit]> (sites.userLimits s.1))
              (sites.dataPath s.1) in
  let limitsFile := filepath.Join [sites.dataPath s.1; "user_limits.json"] in
  ∃ w, (sites.SetUserLimit h r limit s).2 = (m', w) ∧
    (os.mkdir_ok h (sites.dataPath s.1) = true →
     os.write_ok h limitsFile = true →
     (sites.SetUserLimit h r limit s).1 = Ok tt ∧
     os.files w !! limitsFile =
       Some (os.LimitsDoc (r _ (sites.userLimits m')).*2)).
Proof.
  intros m' limitsFile. unfold sites.SetUserLimit. rewrite bind_eq.
  unfold sites.modify_userLimits at 1, step_modify at 1. cbv beta iota.
  fold m'. apply (saveUserLimitsUnlocked_cases h r (m', s.2)).
Qed.

Lemma insert_limits_lookup (l : list models.UserLimits)
    (m : gmap string models.UserLimits) (name : string) limit :
  foldl (λ ul limit, <[models.Username limit := limit]> ul) m l !! name
    = Some limit →
  (limit ∈ l ∧ models.Username limit = name) ∨ m !! name = Some limit.
Proof.
  revert m. induction l as [|a l IH]; intros m; simpl; [by right|].
  intros [[Hin Hid]|Hm]%IH.
  - left. split; [by right|done].
  - rewrite lookup_insert in Hm. case_decide; [|by right].
    left. simplify_eq. split; [left|done].
Qed.

Lemma insert_limits_present (l : list models.UserLimits)
    (m : gmap string models.UserLimits) (name : string) :
  (is_Some (m !! name) ∨ ∃ limit, limit ∈ l ∧ models.Username limit = name) →
  is_Some (foldl (λ ul limit, <[models.Username limit := limit]> ul) m l !! name).
Proof.
  revert m. induction l as [|a l IH]; intros m; simpl.
  - intros [?|(? & []%elem_of_nil & _)]; done.
  - intros H. apply IH. rewrite lookup_insert. case_decide; [left; eauto|].
    destruct H as [?|(limit & [->|Hin]%elem_of_cons & Hid)]; eauto. done.
Qed.

Lemma snapshot_limits (r : RangeOrder) (m : gmap string models.UserLimits) limit :
  range_valid r →
  limit ∈ (r _ m).*2 ↔ ∃ name, m !! name = Some limit.
Proof.
  intros Hr. rewrite list_elem_of_fmap. split.
  - intros ([name x] & -> & Hin). exists name.
    apply elem_of_map_to_list. by rewrite <- (Hr _ m).
  - intros [name Hn]. exists (name, limit). split; [done|].
    rewrite (Hr _ m). by apply elem_of_map_to_list.
Qed.

Lemma rebuild_limits (r : RangeOrder) (ul : gmap string models.UserLimits) :
  range_valid r →
  (∀ name limit, ul !! name = Some limit → models.Username limit = name) →
  foldl (λ ul limit, <[models.Username limit := limit]> ul) ∅ (r _ ul).*2 = ul.
Proof.
  intros Hr Hk. apply map_eq. intros k.
  destruct (ul !! k) as [limit|] eqn:E.
  - destruct (insert_limits_present (r _ ul).*2 ∅ k) as [limit' E'].
    { right. exists limit. split; [|by apply Hk]. apply snapshot_limits; eauto. }
    rewrite E'. f_equal.
    apply insert_limits_lookup in E' as [[Hin Hid]|?]; [|done].
    apply snapshot_limits in Hin as [name Hin]; [|done].
    pose proof (Hk _ _ Hin). congruence.
  - destruct (foldl _ ∅ _ !! k) as [limit'|] eqn:E'; [|done].
    apply insert_limits_lookup in E' as [[Hin Hid]|?]; [|done].
    apply snapshot_limits in Hin as [name Hin]; [|done].
    pose proof (Hk _ _ Hin). congruence.
Qed.

(** X12. After [SetUserLimit], [GetUserLimit] returns the new limit for
    that user, also when the limits file could not be written; the limits of
    other users, the sites and the domain index are unchanged, and the limits
    stay stored under the user name they carry. *)
Theorem SetUserLimit_then_GetUserLimit h r limit (s : sites.St) :
  let m' := (sites.SetUserLimit h r limit s).2.1 in
  sites.GetUserLimit m' (models.Username limit) = limit ∧
  (∀ name, name ≠ models.Username limit →
     sites.GetUserLimit m' name = sites.GetUserLimit s.1 name) ∧
  sites.sites m' = sites.sites s.1 ∧
  sites.domains m' = sites.domains s.1 ∧
  (limits_keyed s.1 → limits_keyed m').
Proof.
  intros m'. subst m'.
  destruct (SetUserLimit_run h r limit s) as (w & -> & _). cbn [fst snd].
  unfold sites.GetUserLimit, limits_keyed. cbn [sites.userLimits sites.sites sites.domains].
  split; [by rewrite lookup_insert_eq|].
  split; [intros name Hne; by rewrite lookup_insert_ne|].
  split; [done|]. split; [done|].
  intros Hk name lim. rewrite lookup_insert. case_decide; [naive_solver|apply Hk].
Qed.

Lemma limits_valid (l : list models.UserLimits) :
  Forall (λ limit, utf8.ValidString (models.Username limit) = true) l →
  json.limits <$> l = l.
Proof.
  induction 1 as [|limit l Hv _ IH]; [done|].
  rewrite fmap_cons, IH. f_equal. unfold json.limits.
  rewrite text_valid by done. by destruct limit.
Qed.

(** X13. Limits written by [SetUserLimit] are the limits a new manager
    loads from the same data directory.  Where the limits in memory are
    stored under the user name they carry and all user names, the new one
    included, are valid UTF-8, on a machine where the directory can be made
    and the limits file written and read, and where [Load] gets past the
    snapshot of the sites: [SetUserLimit] succeeds, [Load] succeeds, and the
    loaded limits are those in memory after the call, whatever order they
    were written in. *)
Theorem SetUserLimit_Load_roundtrip cdc h r limit (s : sites.St) :
  let limitsFile := filepath.Join [sites.dataPath s.1; "user_limits.json"] in
  let saved := sites.SetUserLimit h r limit s in
  let loaded :=
    sites.Load cdc h (sites.NewManager (sites.dataPath s.1), saved.2.2) in
  range_valid r → limits_keyed s.1 →
  (∀ name l, sites.userLimits s.1 !! name = Some l →
     utf8.ValidString (models.Username l) = true) →
  utf8.ValidString (models.Username limit) = true →
  os.mkdir_ok h (sites.dataPath s.1) = true →
  os.write_ok h limitsFile = true → os.read_ok h limitsFile = true →
  snapshot_loads cdc h (sites.dataPath s.1) saved.2.2 = true →
  saved.1 = Ok tt ∧ loaded.1 = Ok tt ∧
  sites.userLimits loaded.2.1 = sites.userLimits saved.2.1 ∧
  sites.userLimits saved.2.1 =
    <[models.Username limit := limit]> (sites.userLimits s.1).
Proof.
  intros limitsFile saved loaded Hr Hk Hv Hvl Hmk Hwr Hrd. subst saved loaded.
  destruct (SetUserLimit_run h r limit s) as (w & E & Hsave).
  destruct (Hsave Hmk Hwr) as [Eok Hf]. rewrite E in *. cbn [fst snd] in *.
  intros Hpast.
  set (ul := <[models.Username limit := limit]> (sites.userLimits s.1)) in *.
  assert (limits_entries cdc h (sites.dataPath s.1) w =
            Some <$> (r _ ul).*2) as Hl.
  { unfold limits_entries, os.ReadFile. subst limitsFile.
    cbn [sites.userLimits] in Hf. rewrite Hf, Hrd. cbn [fst].
    rewrite json.unmarshal_limits_doc. cbn [default].
    rewrite <- (limits_valid (r _ ul).*2) at 2; [by rewrite list_fmap_compose|].
    apply Forall_forall. intros x [name Hx]%snapshot_limits; [|done].
    subst ul. rewrite lookup_insert in Hx. case_decide; [by simplify_eq|eauto]. }
  assert (has_null (limits_entries cdc h (sites.dataPath s.1) w) = false ∧
          before_null (limits_entries cdc h (sites.dataPath s.1) w) = (r _ ul).*2)
    as [Hn Hb].
  { rewrite Hl. change (Some <$> (r _ ul).*2) with (Some ∘ id <$> (r _ ul).*2).
    by rewrite has_null_Some, before_null_Some, list_fmap_id. }
  assert (foldl (λ ul limit, <[models.Username limit := limit]> ul) ∅
            (r _ ul).*2 = ul) as Hre.
  { apply rebuild_limits; [done|]. intros name lim. subst ul.
    rewrite lookup_insert. case_decide; [naive_solver|apply Hk]. }
  split; [done|]. cbn [sites.userLimits].
  rewrite Load_cases. cbv zeta. unfold snapshot_loads in Hpast.
  cbn [fst snd sites.NewManager sites.dataPath] in *.
  rewrite Hn, Hb.
  destruct (read_sites h _ w) as [data|e].
  - destruct (json.unmarshal_sites cdc data) as [entries|]; [|done].
    destruct (has_null entries); [done|].
    by cbn [fst snd with_limits with_sites sites.userLimits].
  - rewrite Hpast. by cbn [fst snd with_limits sites.userLimits].
Qed.


Lemma update_domain_cases id site patch (s : sites.St) :
  let d := models.Domain patch in
  (sites.update_domain id site patch s).2 = s ∨
  (d ≠ "" ∧ d ≠ models.Domain site ∧ sites.domains s.1 !! d = None ∧
   sites.update_domain id site patch s =
     (Ok tt, (sites.mkManager (alter (models.set_Domain d) id (sites.sites s.1))
                (<[d := id]> (delete (models.Domain site) (sites.domains s.1)))
                (sites.userLimits s.1) (sites.dataPath s.1), s.2))).
Proof.
  intros d. destruct s as [[ss dd ul dp] w].
  unfold sites.update_domain, step_bind, sites.get_mgr. cbn [fst snd].
  fold d. cbn [sites.domains].
  case_decide as Hd; [|by left]. destruct Hd as [Hd1 Hd2].
  case_decide as Hc; [by left|]. right.
  split; [done|]. split; [done|]. split; [|done].
  destruct (dd !! d) eqn:E; [|done]. destruct Hc. eauto.
Qed.

Lemma rename_index_consistent (m : sites.Manager) id site d :
  index_consistent m →
  sites.sites m !! id = Some site →
  sites.domains m !! d = None →
  models.Domain site ∉ models.aliases site →
  index_consistent
    (sites.mkManager (alter (models.set_Domain d) id (sites.sites m))
       (<[d := id]> (delete (models.Domain site) (sites.domains m)))
       (sites.userLimits m) (sites.dataPath m)).
Proof.
  intros Hc Hs Hfree Hdup host j. cbn [sites.sites sites.domains].
  assert (∀ site' k, sites.sites m !! k = Some site' → ¬ claims site' d) as Hnod.
  { intros site' k Hk Hcl.
    assert (sites.domains m !! d = Some k) by (apply Hc; eauto). congruence. }
  rewrite (alter_alt_Some _ _ _ _ Hs).
  destruct (decide (host = d)) as [->|Hhd].
  { rewrite lookup_insert_eq. split.
    - intros [= <-]. eexists. rewrite lookup_insert_eq. split; [done|]. by left.
    - intros (site' & Hj & Hcl). rewrite lookup_insert in Hj.
      case_decide as Hid; [by subst|]. by destruct (Hnod _ _ Hj). }
  rewrite lookup_insert_ne by done.
  destruct (decide (host = models.Domain site)) as [->|Hho].
  { rewrite lookup_delete_eq. split; [done|].
    intros (site' & Hj & Hcl). exfalso. rewrite lookup_insert in Hj.
    case_decide as Hid.
    - subst j. injection Hj as <-. destruct Hcl as [Hcl|Hcl].
      + destruct site; simpl in *. congruence.
      + apply Hdup. by destruct site.
    - assert (sites.domains m !! models.Domain site = Some j) as E1
        by (apply Hc; eauto).
      assert (sites.domains m !! models.Domain site = Some id) as E2.
      { apply Hc. exists site. split; [done|by left]. }
      congruence. }
  rewrite lookup_delete_ne by done. rewrite (Hc host j). split.
  - intros (site' & Hj & Hcl). destruct (decide (j = id)) as [->|Hid].
    + rewrite Hs in Hj. injection Hj as <-. eexists. rewrite lookup_insert_eq.
      split; [done|]. destruct Hcl as [?|Hin]; [done|]. right.
      by destruct site.
    + exists site'. by rewrite lookup_insert_ne.
  - intros (site' & Hj & Hcl). rewrite lookup_insert in Hj.
    case_decide as Hid.
    + subst j. injection Hj as <-. exists site. split; [done|].
      destruct Hcl as [Hcl|Hin]; [by destruct site; simpl in *|].
      right. by destruct site.
    + eauto.
Qed.

(** X14. An [Update] whose patch has nil [Aliases] keeps the domain index
    consistent with the sites on every path (success, a taken domain, an
    invalid PHP version, a snapshot that cannot be written), provided that,
    when it changes the domain, the old domain is not also listed among the
    site's aliases.  When the patch has an empty [Domain] as well, the
    domain index is not touched at all. *)
Theorem Update_without_aliases_keeps_index h cfg r now id patch (s : sites.St) :
  models.Aliases patch = None →
  (models.Domain patch = "" →
   sites.domains (sites.Update h cfg r now id patch s).2.1 = sites.domains s.1) ∧
  (index_consistent s.1 →
   (∀ site, sites.sites s.1 !! id = Some site →
      models.Domain patch ≠ "" → models.Domain patch ≠ models.Domain site →
      models.Domain site ∉ models.aliases site) →
   index_consistent (sites.Update h cfg r now id patch s).2.1).
Proof.
  intros Ha. split.
  { intros Hd. apply (neutral_Update h cfg r now id patch Hd Ha s). }
  intros Hc Hdup. unfold sites.Update. rewrite bind_eq.
  unfold sites.get_mgr at 1. cbv beta iota. cbn [fst].
  destruct (sites.sites s.1 !! id) as [site|] eqn:Hs; [|done].
  rewrite bind_eq.
  assert (index_consistent (sites.update_domain id site patch s).2.1) as Hc1.
  { destruct (update_domain_cases id site patch s) as [->|(H1 & H2 & H3 & ->)];
      [done|].
    cbn [fst snd]. apply rename_index_consistent; auto. }
  destruct (sites.update_domain id site patch s) as [[[]|e] s1]; [|done].
  cbn [fst snd] in Hc1. rewrite Ha. cbv beta.
  match goal with |- index_consistent (?c s1).2.1 =>
    assert (preserves index_neutral c) as Hn
  end.
  { repeat neutral_step. }
  eapply index_neutral_consistent; [apply Hn|done].
Qed.


(** X15. A [Create] that fails has not rolled anything back.  If the
    error is one of the three checks' or comes from making the site's
    directories (wrapped as such), the registry is as it was.  The only other
    errors are those of writing the snapshot, and then the site is
    registered in memory, under its ID and its hostnames, although the call
    returned an error. *)
Theorem Create_failure_modes h cfg r fresh t1 t2 site e (s s' : sites.St) :
  sites.Create h cfg r fresh t1 t2 site s = (Err e, s') →
  let site' := sites.with_defaults h cfg fresh t1 t2 site in
  (s'.1 = s.1 ∧
   (e = ErrDomainExists ∨ (∃ alias, e = ErrAliasExists alias) ∨
    e = ErrSiteLimitReached ∨ e = ErrInvalidPHPVersion ∨
    ∃ cause, e = ErrCreateDirectories cause)) ∨
  ((e = ErrOS "mkdir" (sites.dataPath s.1) ∨
    e = ErrOS "write" (filepath.Join [sites.dataPath s.1; "sites.json"])) ∧
   sites.Get s'.1 (models.ID site') = Ok site' ∧
   sites.GetByDomain s'.1 (models.Domain site') = Ok (Some site')).
Proof.
  intros E site'.
  destruct (Create_checks h cfg r fresh t1 t2 site s)
    as [(_ & e' & E' & He)|[(_ & _ & E')|[(_ & _ & _ & E')|(Hd & Hq & Hv & E')]]];
    rewrite E' in E.
  - injection E as <- <-. left. split; [done|].
    destruct He as [->|[alias ->]]; [by left|right; left; by eexists].
  - injection E as <- <-. left. split; [done|]. by do 2 right; left.
  - injection E as <- <-. left. split; [done|]. by do 3 right; left.
  - destruct (Create_register_cases h cfg r fresh t1 t2 site s)
      as [(cause & w & E2)|[(e2 & w & E2 & He)|(w & E2 & Hf)]];
      rewrite E2 in E; [| |discriminate E].
    + injection E as <- <-. left. split; [done|]. do 4 right. by eexists.
    + injection E as <- <-. right. split; [exact He|]. cbn [fst snd].
      unfold sites.Get, sites.GetByDomain. cbn [sites.sites sites.domains].
      fold site'. rewrite lookup_insert_eq. split; [done|].
      destruct (index_site_lookup site' (sites.domains s.1) (models.Domain site'))
        as [[_ ->]|[Hno _]]; [by rewrite lookup_insert_eq|].
      destruct Hno. by left.
Qed.


(** ** The registry: listings and statistics *)


Lemma length_filter_values {V} (P : V → Prop) `{!∀ x, Decision (P x)}
    (l : list (string * V)) :
  length (filter P l.*2) = length (filter (λ entry : string * V, P entry.2) l).
Proof.
  induction l as [|[k v] l IH]; [done|].
  rewrite fmap_cons, !filter_cons. cbn [snd].
  destruct (decide (P v)); simpl; by rewrite IH.
Qed.

Lemma length_filter_map_to_list {V} (P : string * V → Prop)
    `{!∀ x, Decision (P x)} (m : gmap string V) :
  length (filter P (map_to_list m)) = size (filter P m).
Proof.
  induction m as [|i x m Hi IH] using map_ind.
  - by rewrite map_to_list_empty, map_filter_empty.
  - rewrite map_to_list_insert by done. rewrite filter_cons, map_filter_insert.
    destruct (decide (P (i, x))); simpl.
    + rewrite map_size_insert_None; [by rewrite IH|].
      by rewrite map_lookup_filter, Hi.
    + by rewrite delete_id.
Qed.

(** The number of entries a [range] visits that satisfy [P]. *)
Lemma length_filter_range {V} (r : RangeOrder) (P : V → Prop)
    `{!∀ x, Decision (P x)} (m : gmap string V) :
  range_valid r →
  length (filter P (r _ m).*2) = size (filter (λ entry : string * V, P entry.2) m).
Proof.
  intros Hr. rewrite length_filter_values, <- length_filter_map_to_list.
  by rewrite (Hr _ m).
Qed.

Lemma foldl_count (l : list (string * models.Site)) (acc : Z) :
  foldl (λ (active : Z) (entry : string * models.Site),
           if decide (models.Status entry.2 = "active")
           then active + 1 else active)
        acc l
  = acc + Z.of_nat (length (filter (λ site, models.Status site = "active") l.*2)).
Proof.
  revert acc. induction l as [|[k v] l IH]; intros acc; [simpl; lia|].
  cbn [foldl]. rewrite IH, fmap_cons, filter_cons. cbn [snd].
  destruct (decide (models.Status v = "active")); simpl; lia.
Qed.

Lemma foldl_counts (l : list (string * models.Site)) (counts : gmap string Z)
    (version : string) :
  let n := length (filter (λ site, models.Status site = "active" ∧
                                   models.PHPVersion site = version) l.*2) in
  foldl (λ (counts : gmap string Z) (entry : string * models.Site),
           let site := entry.2 in
           if decide (models.Status site = "active")
           then <[models.PHPVersion site :=
                    default 0 (counts !! models.PHPVersion site) + 1]> counts
           else counts)
        counts l !! version
  = if decide (n = 0%nat) then counts !! version
    else Some (default 0 (counts !! version) + Z.of_nat n).
Proof.
  revert counts. induction l as [|[k site] l IH]; intros counts; [done|].
  cbn [foldl]. cbv zeta in IH |- *. rewrite IH, fmap_cons, filter_cons.
  cbn [snd]. clear IH.
  destruct (decide (models.Status site = "active")) as [Ha|Ha].
  - destruct (decide (models.PHPVersion site = version)) as [Hv|Hv].
    + rewrite (decide_True (P := _ ∧ _)) by done. cbn [length]. subst version.
      rewrite lookup_insert_eq. cbn [default].
      rewrite (decide_False (P := S _ = 0%nat)) by done.
      unfold id. case_decide as Hn; [rewrite Hn; f_equal; lia|f_equal; lia].
    + rewrite (decide_False (P := _ ∧ _)) by (by intros [_ ?]).
      by rewrite lookup_insert_ne.
  - by rewrite (decide_False (P := _ ∧ _)) by (by intros [? _]).
Qed.

(** X16. [List] with a user ID returns exactly the stored sites of that
    user, and as many as [Create] counts against the user's site limit;
    with the empty user ID it returns every stored site, which are the sites
    [GetAll] returns, each as often, though the two calls may visit the
    registry in different orders. *)
Theorem List_lists_the_users_sites (r r' : RangeOrder) (m : sites.Manager)
    (userID : string) :
  range_valid r → range_valid r' →
  (∀ site, site ∈ sites.List r m userID ↔
     ∃ id, sites.sites m !! id = Some site ∧
           (userID = "" ∨ models.UserID site = userID)) ∧
  (userID ≠ "" →
   Z.of_nat (length (sites.List r m userID)) =
     sites.countUserSitesUnlocked m userID) ∧
  sites.List r m "" ≡ₚ sites.GetAll r' m ∧
  length (sites.List r m "") = size (sites.sites m) ∧
  length (sites.GetAll r' m) = size (sites.sites m).
Proof.
  intros Hr Hr'.
  assert (sites.List r m "" = (r _ (sites.sites m)).*2) as Hall.
  { unfold sites.List.
    induction (r models.Site (sites.sites m)).*2 as [|x l IH]; [done|].
    rewrite filter_cons, decide_True by (by left). by rewrite IH. }
  split; [|split; [|split; [|split]]].
  - intros site. unfold sites.List. rewrite list_elem_of_filter.
    rewrite (snapshot_sites r _ site Hr). naive_solver.
  - intros Hne. rewrite countUserSitesUnlocked_size. f_equal.
    unfold sites.List. rewrite (length_filter_range r _ _ Hr).
    f_equal. apply map_filter_ext. intros id site _. cbn [snd]. naive_solver.
  - rewrite Hall. unfold sites.GetAll.
    by rewrite (Hr _ (sites.sites m)), (Hr' _ (sites.sites m)).
  - rewrite Hall, length_fmap, (Hr _ (sites.sites m)).
    apply length_map_to_list.
  - unfold sites.GetAll. rewrite length_fmap, (Hr' _ (sites.sites m)).
    apply length_map_to_list.
Qed.

(** X17. [GetStats] returns the number of stored sites and the number of
    those whose status is active, and [CountByPHPVersion] maps each PHP
    version to the number of active sites on it; a version without an active
    site has no entry.  Neither depends on the order the registry is visited
    in. *)
Theorem GetStats_CountByPHPVersion (r : RangeOrder) (m : sites.Manager) :
  range_valid r →
  let active := size (filter (λ entry : string * models.Site,
                                models.Status entry.2 = "active") (sites.sites m)) in
  let on version :=
    size (filter (λ entry : string * models.Site,
                    models.Status entry.2 = "active" ∧
                    models.PHPVersion entry.2 = version) (sites.sites m)) in
  sites.GetStats r m = (Z.of_nat (size (sites.sites m)), Z.of_nat active) ∧
  (active ≤ size (sites.sites m))%nat ∧
  ∀ version,
    sites.CountByPHPVersion r m !! version =
      if decide (on version = 0%nat) then None else Some (Z.of_nat (on version)).
Proof.
  intros Hr active on. split; [|split].
  - unfold sites.GetStats. f_equal.
    rewrite foldl_count, Z.add_0_l. f_equal.
    pose proof (length_filter_range r
      (λ site, models.Status site = "active") (sites.sites m) Hr) as E.
    exact E.
  - apply map_subseteq_size, map_filter_subseteq.
  - intros version. unfold sites.CountByPHPVersion.
    rewrite foldl_counts. cbv zeta.
    pose proof (length_filter_range r
      (λ site, models.Status site = "active" ∧ models.PHPVersion site = version)
      (sites.sites m) Hr) as E.
    cbv beta in E. rewrite E. fold (on version).
    rewrite lookup_empty. cbn [default].
    case_decide; [done|]. f_equal.
Qed.


(** ** The registry: ownership of the site's files *)


Lemma emits_for (P : os.SysCall → Prop) {A} (l : list A)
    (body : A → Step os.World unit) :
  (∀ x, x ∈ l → emits P (body x)) → emits P (step_for l body).
Proof.
  induction l as [|x l IH]; intros Hb; simpl; [apply emits_ret|].
  apply emits_bind; [apply Hb; left|]. intros _. apply IH.
  intros y Hy. apply Hb. by right.
Qed.

Lemma emits_log (P : os.SysCall → Prop) call :
  P call → emits P (step_modify (os.log call)).
Proof. intros HP w. exists [call]. split; [done|]. by constructor. Qed.

Lemma emits_Stat (P : os.SysCall → Prop) h path : emits P (os.Stat h path).
Proof.
  intros w. exists []. split; [|done]. unfold os.Stat.
  destruct (os.exists_ w path); [destruct (os.read_ok h path)|]; done.
Qed.

Lemma emits_setOwnership (P : os.SysCall → Prop) path uid gid :
  (0 < uid → P (os.SysChown path uid gid)) →
  emits P (sites.setOwnership path uid gid).
Proof.
  intros HP. unfold sites.setOwnership. case_decide; [apply emits_ret|].
  apply emits_log, HP. lia.
Qed.

Lemma emits_setACL h site path username :
  emits (owner_call h site) (sites.setACL h path username).
Proof.
  unfold sites.setACL. case_decide as Hos; [apply emits_ret|].
  assert (os.GOOS h = "linux") as Hl by (by destruct (decide (os.GOOS h = "linux"))).
  apply emits_bind.
  { apply emits_ignore, emits_Exec. split; [done|by left]. }
  intros _. apply emits_for. intros cmd Hcmd.
  apply emits_ignore, emits_Exec. split; [done|]. right.
  repeat (apply elem_of_cons in Hcmd as [->|Hcmd]; [done|]).
  by apply elem_of_nil in Hcmd.
Qed.

Lemma createSiteDirectories_emits h cfg site :
  emits (owner_call h site) (sites.createSiteDirectories h cfg site).
Proof.
  unfold sites.createSiteDirectories.
  set (uid := (sites.getUIDGID h (models.UserID site)).1).
  set (gid := (sites.getUIDGID h (models.UserID site)).2).
  assert (∀ path, os.GOOS h = "linux" → 0 < uid →
            owner_call h site (os.SysChown path uid gid)) as Hown.
  { intros path Hl Hu. split; [done|]. split; [done|].
    subst uid gid. by destruct (sites.getUIDGID h _). }
  apply emits_bind.
  { case_decide; [|apply emits_ret].
    apply emits_bind; [by apply emits_MkdirAll|]. intros _.
    case_decide as Hl; [|apply emits_ret].
    apply emits_bind.
    { apply emits_ignore, emits_setOwnership. by apply Hown. }
    intros _. apply emits_ignore, emits_setACL. }
  intros _. apply emits_bind.
  { apply emits_for. intros dir _.
    apply emits_bind; [by apply emits_MkdirAll|]. intros _.
    case_decide as Hl; [|apply emits_ret]. destruct Hl as [Hl Hu].
    apply emits_ignore, emits_setOwnership. intros _. by apply Hown. }
  intros _. apply emits_bind; [apply emits_try, emits_Stat|]. intros st.
  apply emits_bind.
  { destruct (os.IsNotExist st); [|apply emits_ret].
    apply emits_bind; [by apply emits_WriteFile|]. intros _.
    case_decide as Hl; [|apply emits_ret]. destruct Hl as [Hl Hu].
    apply emits_ignore. unfold os.Chown. apply emits_log. by apply Hown. }
  intros _. case_decide as Hl; [|apply emits_ret]. destruct Hl as [Hl Hu].
  apply emits_ignore. unfold sites.setOwnershipRecursive.
  case_decide; [apply emits_ret|]. apply emits_log.
  split; [done|]. split; [done|]. subst uid gid.
  by destruct (sites.getUIDGID h _).
Qed.

Section calls_between.
Context (P : os.SysCall → Prop).

#[local] Instance calls_between_reflexive : Reflexive (calls_between P).
Proof. intros s. exists []. by split. Qed.

#[local] Instance calls_between_transitive : Transitive (calls_between P).
Proof.
  intros s1 s2 s3 (l1 & E1 & F1) (l2 & E2 & F2). exists (l2 ++ l1).
  rewrite E2, E1, app_assoc. split; [done|]. by apply Forall_app.
Qed.

Lemma calls_in_world {A} (c : Step os.World A) :
  emits P c → preserves (calls_between P) (sites.in_world c).
Proof. intros Hc s. apply (Hc s.2). Qed.

Lemma calls_modify_sites f : preserves (calls_between P) (sites.modify_sites f).
Proof. intros s. exists []. by split. Qed.

Lemma calls_modify_domains f : preserves (calls_between P) (sites.modify_domains f).
Proof. intros s. exists []. by split. Qed.

End calls_between.

Ltac calls_step :=
  lazymatch goal with
  | |- preserves _ (step_bind _ _) =>
      apply preserves_bind; [apply calls_between_transitive| |intros ?]
  | |- preserves _ (step_ret _) =>
      apply preserves_ret; apply calls_between_reflexive
  | |- preserves _ (step_fail _) =>
      apply preserves_fail; apply calls_between_reflexive
  | |- preserves _ (step_for _ _) =>
      apply preserves_for;
        [apply calls_between_reflexive|apply calls_between_transitive|intros ?]
  | |- preserves _ (wrap_error _ _) => apply preserves_wrap_error
  | |- preserves _ sites.get_mgr =>
      apply preserves_get_mgr; apply calls_between_reflexive
  | |- preserves _ (sites.modify_sites _) => apply calls_modify_sites
  | |- preserves _ (sites.modify_domains _) => apply calls_modify_domains
  | |- preserves _ (sites.in_world (os.MkdirAll _ _)) =>
      apply calls_in_world, emits_MkdirAll; exact I
  | |- preserves _ (sites.in_world (os.WriteFile _ _ _)) =>
      apply calls_in_world, emits_WriteFile; exact I
  | |- preserves _ (match ?x with _ => _ end) => destruct x
  end.

Lemma with_defaults_UserID h cfg fresh t1 t2 site :
  models.UserID (sites.with_defaults h cfg fresh t1 t2 site) = models.UserID site.
Proof.
  unfold sites.with_defaults.
  repeat (case_decide; cbv zeta); by destruct site.
Qed.

(** X18. Whatever [Create] does to ownership and permissions, it does on
    Linux only and for the site's owner only: every [chown] it issues, of a
    path or of a tree, names the owner's uid and gid with a uid above 0,
    never root, and the only commands it runs are [chmod] and [setfacl].
    On any other system it makes directories and writes files, nothing
    else. *)
Theorem Create_ownership_calls h cfg r fresh t1 t2 site (s : sites.St) :
  ∃ calls,
    os.trace (sites.Create h cfg r fresh t1 t2 site s).2.2 = calls ++ os.trace s.2 ∧
    Forall (owner_call h site) calls.
Proof.
  assert (preserves (calls_between (owner_call h site))
            (sites.Create h cfg r fresh t1 t2 site)) as H; [|apply H].
  unfold sites.Create, sites.check_domain, sites.check_site_limit,
    sites.check_php_version, sites.add_to_maps, sites.saveUnlocked.
  calls_step; [calls_step|]. do 3 (calls_step; [repeat calls_step|]).
  calls_step.
  { calls_step. apply calls_in_world.
    pose proof (createSiteDirectories_emits h cfg
                  (sites.with_defaults h cfg fresh t1 t2 site)) as He.
    intros w. destruct (He w) as (calls & E & F). exists calls.
    split; [done|]. eapply Forall_impl; [exact F|].
    intros c. unfold owner_call. by rewrite with_defaults_UserID. }
  repeat calls_step.
Qed.


(** ** The generator: which sites are rendered, and where the documents go *)

Lemma versionPorts_foldl_skip (after : list PHPVersionConfig)
    (ports : gmap string Z) (version : string) :
  (∀ pv, pv ∈ after → Enabled pv = true → Version pv ≠ version) →
  foldl (λ (ports : gmap string Z) pv,
           if Enabled pv then <[Version pv := Port pv]> ports else ports)
        ports after !! version = ports !! version.
Proof.
  revert ports. induction after as [|pv after IH]; intros ports Hno; [done|].
  cbn [foldl]. rewrite IH by (intros pv' Hin; apply Hno; by right).
  destruct (Enabled pv) eqn:E; [|done].
  rewrite lookup_insert_ne; [done|]. apply Hno; [left|done].
Qed.

(** The port of a version is the one of its last enabled entry. *)
Lemma versionPorts_last_enabled (before after : list PHPVersionConfig)
    (pv : PHPVersionConfig) :
  Enabled pv = true →
  (∀ pv', pv' ∈ after → Enabled pv' = true → Version pv' ≠ Version pv) →
  caddy.versionPorts (before ++ pv :: after) !! Version pv = Some (Port pv).
Proof.
  intros He Hno. unfold caddy.versionPorts. rewrite foldl_app. cbn [foldl].
  rewrite versionPorts_foldl_skip by done. rewrite He.
  apply lookup_insert_eq.
Qed.

Lemma versionPorts_none (phpVersions : list PHPVersionConfig) (version : string) :
  (∀ pv, pv ∈ phpVersions → Enabled pv = true → Version pv ≠ version) →
  caddy.versionPorts phpVersions !! version = None.
Proof.
  intros Hno. unfold caddy.versionPorts.
  by rewrite versionPorts_foldl_skip.
Qed.

Lemma cat_app l1 l2 : caddy.cat (l1 ++ l2) = caddy.cat l1 +:+ caddy.cat l2.
Proof.
  induction l1 as [|x l1 IH]; [done|].
  rewrite <- app_comm_cons, !cat_cons, IH. by rewrite append_assoc.
Qed.

(** X19. The main proxy document routes every active site whose PHP version
    has an enabled entry in the version table: it contains the site's block,
    with all its hostnames, proxying to the port of the last enabled entry
    for that version. *)
Theorem GenerateMainProxy_routes_active_site cfg (sites : list Site)
    (before after : list PHPVersionConfig) (pv : PHPVersionConfig)
    (httpPort httpsPort : Z) (site : Site) :
  site ∈ sites → Status site = "active" →
  Enabled pv = true → Version pv = PHPVersion site →
  (∀ pv', pv' ∈ after → Enabled pv' = true → Version pv' ≠ PHPVersion site) →
  occurs_in
    (caddy.cat [
       caddy.cat ["# Site: "; Name site; " (PHP "; PHPVersion site; ")"; caddy.nl];
       strings.Join ((λ d, "http://" +:+ d) <$> (Domain site :: aliases site)) ", ";
       " {"; caddy.nl;
       caddy.cat [caddy.tab; "reverse_proxy localhost:"; pretty (Port pv); caddy.nl];
       "}"; caddy.nl; caddy.nl])
    (caddy.GenerateMainProxy cfg sites (before ++ pv :: after)
       httpPort httpsPort).1.
Proof.
  intros Hin Ha He Hv Hno. unfold caddy.GenerateMainProxy. cbn [fst].
  eapply occurs_in_cat; [right; left|].
  eapply occurs_in_cat; [apply list_elem_of_fmap; by exists site|].
  unfold caddy.proxy_block. rewrite decide_False by (by intros []).
  rewrite <- Hv in Hno |- *. rewrite versionPorts_last_enabled by done.
  apply occurs_in_refl.
Qed.

(** X20. Sites that are not active, and sites whose PHP version has no
    enabled entry in the version table, leave no trace in the main proxy
    document; sites that are not active or are on another PHP version leave
    none in the document of a PHP instance. *)
Theorem generators_skip_other_sites h w cfg r phpVersions httpPort httpsPort
    version port adminPort (l1 l2 : list Site) (site : Site) :
  (Status site ≠ "active" ∨
   (∀ pv, pv ∈ phpVersions → Enabled pv = true → Version pv ≠ PHPVersion site) →
   caddy.GenerateMainProxy cfg (l1 ++ site :: l2) phpVersions httpPort httpsPort =
   caddy.GenerateMainProxy cfg (l1 ++ l2) phpVersions httpPort httpsPort) ∧
  (Status site ≠ "active" ∨ PHPVersion site ≠ version →
   caddy.GeneratePHPInstance h w cfg r version port adminPort (l1 ++ site :: l2) =
   caddy.GeneratePHPInstance h w cfg r version port adminPort (l1 ++ l2)).
Proof.
  split.
  - intros Hskip. unfold caddy.GenerateMainProxy. do 3 f_equal.
    rewrite !fmap_app, fmap_cons, !cat_app, cat_cons.
    assert (caddy.proxy_block (caddy.versionPorts phpVersions) site = "") as ->;
      [|done].
    unfold caddy.proxy_block. case_decide; [done|].
    destruct Hskip as [?|Hno]; [done|]. by rewrite versionPorts_none.
  - intros Hskip. unfold caddy.GeneratePHPInstance.
    assert (caddy.versionSites version (l1 ++ site :: l2) =
            caddy.versionSites version (l1 ++ l2)) as ->; [|done].
    unfold caddy.versionSites. rewrite !filter_app, filter_cons.
    rewrite decide_False; [done|]. intros [??]. by destruct Hskip.
Qed.

(** X21. When no site of a PHP version is active, the document of its
    instance is the header followed by a block that listens on the instance
    port and answers 503; it depends neither on the file system nor on any
    iteration order, and generation reports no error. *)
Theorem GeneratePHPInstance_placeholder h w cfg r version port adminPort
    (sites : list Site) :
  (∀ site, site ∈ sites → PHPVersion site = version → Status site ≠ "active") →
  caddy.GeneratePHPInstance h w cfg r version port adminPort sites =
    (caddy.cat [
       caddy.instance_header version adminPort
         (filepath.Join [config.LogDir cfg; caddy.cat ["php-"; version; ".log"]]);
       caddy.cat ["# No sites configured for PHP "; version; caddy.nl];
       caddy.cat [":"; pretty port; " {"; caddy.nl];
       caddy.cat [caddy.tab; "respond "; caddy.dq; "No sites configured";
                  caddy.dq; " 503"; caddy.nl];
       "}"; caddy.nl], None).
Proof.
  intros Hno. unfold caddy.GeneratePHPInstance.
  assert (caddy.versionSites version sites = []) as ->; [|done].
  unfold caddy.versionSites. induction sites as [|site sites IH]; [done|].
  rewrite filter_cons, decide_False.
  - apply IH. intros s Hs. apply Hno. by right.
  - intros [Hv Ha]. by apply (Hno site); [left|..].
Qed.

Lemma replace_byte_length old new s :
  String.length (strings.replace_byte old new s) = String.length s.
Proof. induction s as [|c s IH]; simpl; by rewrite ?IH. Qed.

Lemma replace_byte_gone old new s :
  old ≠ new → has_byte old (strings.replace_byte old new s) = false.
Proof.
  intros Hne. induction s as [|c s IH]; simpl; [done|]. rewrite IH.
  destruct (Ascii.eqb_spec c old) as [->|Hc]; rewrite orb_false_r;
    apply Ascii.eqb_neq; congruence.
Qed.

Lemma replace_byte_absent old new s :
  has_byte old s = false → strings.replace_byte old new s = s.
Proof.
  induction s as [|c s IH]; simpl; [done|].
  intros [Hc Hs]%orb_false_iff. rewrite Hc. by rewrite IH.
Qed.

(** X22. A matcher name has as many bytes as the ID it is made from and
    contains neither [-] nor [.]; an ID without these two bytes is its own
    matcher name, so sanitizing twice changes nothing more. *)
Theorem sanitizeName_replaces_dash_and_dot (s : string) :
  String.length (caddy.sanitizeName s) = String.length s ∧
  has_byte "-" (caddy.sanitizeName s) = false ∧
  has_byte "." (caddy.sanitizeName s) = false ∧
  (has_byte "-" s = false → has_byte "." s = false → caddy.sanitizeName s = s) ∧
  caddy.sanitizeName (caddy.sanitizeName s) = caddy.sanitizeName s.
Proof.
  unfold caddy.sanitizeName, strings.ReplaceAll.
  assert (has_byte "-" (strings.replace_byte "." "_"
            (strings.replace_byte "-" "_" s)) = false) as Hdash.
  { rewrite replace_byte_other by done. by apply replace_byte_gone. }
  assert (has_byte "." (strings.replace_byte "." "_"
            (strings.replace_byte "-" "_" s)) = false) as Hdot.
  { by apply replace_byte_gone. }
  split; [by rewrite !replace_byte_length|].
  split; [done|]. split; [done|]. split.
  - intros H1 H2. rewrite (replace_byte_absent "-") by done.
    by apply replace_byte_absent.
  - rewrite (replace_byte_absent "-" "_" (strings.replace_byte _ _ _)) by done.
    by apply replace_byte_absent.
Qed.

Lemma instance_name_plain version :
  has_byte "/" version = false → plain_name (caddy.cat ["Caddyfile.php-"; version]).
Proof.
  intros Hv. unfold plain_name. repeat split; try discriminate.
  unfold caddy.cat. simpl. by rewrite !append_nil_l.
Qed.

Lemma writeFile_files h path content (w : os.World) :
  let written := caddy.writeFile h path content w in
  (∀ other, other ≠ path →
     os.files written.2 !! other = os.files w !! other) ∧
  ((written.1 = Ok tt ∧
    os.files written.2 !! path = Some (os.Text content)) ∨
   ((∃ e, written.1 = Err e) ∧
    os.files written.2 !! path =
      if os.mkdir_ok h (filepath.Dir path) then
        match os.write_fault h path with
        | os.NotOpened => os.files w !! path
        | os.Truncated => Some (os.Partial (os.Text content))
        | os.Completed => Some (os.Text content)
        end
      else os.files w !! path)).
Proof.
  unfold caddy.writeFile, step_bind, os.MkdirAll, os.WriteFile.
  destruct (os.mkdir_ok h _); cbn [fst snd os.files];
    [|split; [done|right; split; [by eexists|done]]].
  destruct (os.write_ok h _); cbn [fst snd os.files].
  - split; [by intros other Ho; rewrite lookup_insert_ne|].
    left. by rewrite lookup_insert_eq.
  - destruct (os.write_fault h path).
    + split; [done|]. right. split; [by eexists|done].
    + split; [by intros other Ho; rewrite lookup_insert_ne|].
      right. split; [by eexists|]. by rewrite lookup_insert_eq.
    + split; [by intros other Ho; rewrite lookup_insert_ne|].
      right. split; [by eexists|]. by rewrite lookup_insert_eq.
Qed.

(** X23. The documents go to files of their own: writing the document of a
    PHP instance (a version without a slash in it) stores the content under
    the instance's file when it succeeds, and never touches the main proxy
    file or the file of another version.  When it fails, the instance's file
    is as it was if the directory could not be made or the file not opened,
    holds the content cut short if the write stopped half-way, and holds the
    whole content if the error came after the last byte. *)
Theorem WritePHPInstance_own_file h g (v1 v2 content : string) (w : os.World) :
  has_byte "/" v1 = false → has_byte "/" v2 = false → v1 ≠ v2 →
  let proxy := filepath.Join [caddy.outputDir g; "Caddyfile.proxy"] in
  let file v := filepath.Join [caddy.outputDir g; caddy.cat ["Caddyfile.php-"; v]] in
  let written := caddy.WritePHPInstance h g v1 content w in
  os.files written.2 !! proxy = os.files w !! proxy ∧
  os.files written.2 !! file v2 = os.files w !! file v2 ∧
  (written.1 = Ok tt → os.files written.2 !! file v1 = Some (os.Text content)) ∧
  (written.1 ≠ Ok tt →
     os.files written.2 !! file v1 =
       if os.mkdir_ok h (filepath.Dir (file v1)) then
         match os.write_fault h (file v1) with
         | os.NotOpened => os.files w !! file v1
         | os.Truncated => Some (os.Partial (os.Text content))
         | os.Completed => Some (os.Text content)
         end
       else os.files w !! file v1).
Proof.
  intros H1 H2 Hne proxy file written. subst written.
  unfold caddy.WritePHPInstance. fold (file v1).
  assert (file v1 ≠ proxy) as Hp.
  { apply Join_distinct; [by apply instance_name_plain|done|].
    unfold caddy.cat. simpl. discriminate. }
  assert (file v1 ≠ file v2) as Hf.
  { apply Join_distinct; [by apply instance_name_plain..|].
    unfold caddy.cat. simpl. rewrite !append_nil_l. intros E. by simplify_eq. }
  destruct (writeFile_files h (file v1) content w) as [Ho Hw].
  split; [by apply Ho|]. split; [by apply Ho|].
  destruct Hw as [[-> ->]|[[e ->] Hw]]; [done|].
  split; [done|]. by intros _.
Qed.


(** ** Limits: what is written, what is reported, what is read back *)


Lemma wrap64_small z : - 2 ^ 63 ≤ z < 2 ^ 63 → wrap64 z = z.
Proof.
  intros Hz. unfold wrap64. rewrite Z.mod_small; lia.
Qed.

Lemma optional_write (P : Prop) `{!Decision P} h path data (w : os.World) :
  ∃ files,
    (if decide P then step_ignore (os.WriteFile h path data) else step_ret tt) w =
    (Ok tt, os.mkWorld files (os.dirs w)
              ((if decide P then [os.SysWriteFile path data] else []) ++ os.trace w)).
Proof.
  destruct (decide P); [|destruct w; by eexists].
  unfold step_ignore, os.WriteFile.
  destruct (os.write_ok h path); by eexists.
Qed.

Lemma cpu_quota (percent : Z) :
  0 ≤ percent < 2 ^ 46 → wrap64 (percent * 100000) `quot` 100 = percent * 1000.
Proof.
  intros Hp. rewrite wrap64_small by lia.
  replace (percent * 100000) with (percent * 1000 * 100) by lia.
  by rewrite Z.quot_mul.
Qed.

Lemma mem_bytes (mb : Z) :
  0 ≤ mb < 2 ^ 43 → wrap64 (wrap64 (mb * 1024) * 1024) = mb * 1048576.
Proof. intros Hm. rewrite !wrap64_small by (rewrite ?wrap64_small; lia). lia. Qed.

Lemma applyCgroupLimits_run h m lim (w : os.World) :
  limits.isCgroupV2 h m w = true →
  os.mkdir_ok h (limits.cgroupDir m lim) = true →
  0 ≤ MaxRAMMB lim < 2 ^ 43 → 0 ≤ MaxCPUPercent lim < 2 ^ 46 →
  ∃ w', limits.applyCgroupLimits h m lim w = (Ok tt, w') ∧
        os.trace w' = cgroup_calls m lim ++ os.trace w.
Proof.
  intros Hv2 Hmk Hram Hcpu. unfold limits.applyCgroupLimits.
  rewrite bind_eq. unfold step_get at 1. cbv beta iota. rewrite Hv2.
  cbn [negb]. cbv zeta. rewrite bind_eq. unfold wrap_error, os.MkdirAll.
  rewrite Hmk. cbv beta iota. rewrite bind_eq.
  unfold step_ignore at 1. cbv beta iota.
  set (w1 := (os.WriteFile h _ _ _).2).
  assert (os.trace w1 =
            os.SysWriteFile
              (filepath.Join [limits.cgroupPath m; "cgroup.subtree_control"])
              (os.Text "+cpu +memory +pids")
            :: os.SysMkdirAll (limits.cgroupDir m lim) :: os.trace w) as E1.
  { subst w1. unfold os.WriteFile. by destruct (os.write_ok h _). }
  clearbody w1. rewrite bind_eq.
  rewrite mem_bytes, cpu_quota by done.
  unfold strconv.FormatInt, strconv.Itoa.
  match goal with |- context [(if decide ?P then step_ignore (os.WriteFile h ?p ?d)
                               else step_ret tt) w1] =>
    destruct (optional_write P h p d w1) as [f2 ->] end.
  cbv beta iota. rewrite bind_eq.
  match goal with |- context [(if decide ?P then step_ignore (os.WriteFile h ?p ?d)
                               else step_ret tt) ?w0] =>
    destruct (optional_write P h p d w0) as [f3 ->] end.
  cbv beta iota.
  match goal with |- context [(if decide ?P then step_ignore (os.WriteFile h ?p ?d)
                               else step_ret tt) ?w0] =>
    destruct (optional_write P h p d w0) as [f4 ->] end.
  eexists. split; [done|]. cbn [os.trace]. rewrite E1. unfold cgroup_calls.
  by rewrite <- !app_assoc.
Qed.

Lemma applyCgroupLimits_result h m lim (w : os.World) :
  (limits.applyCgroupLimits h m lim w).1 =
    if limits.isCgroupV2 h m w && negb (os.mkdir_ok h (limits.cgroupDir m lim))
    then Err (ErrCreateCgroup (ErrOS "mkdir" (limits.cgroupDir m lim)))
    else Ok tt.
Proof.
  unfold limits.applyCgroupLimits.
  rewrite bind_eq. unfold step_get at 1. cbv beta iota.
  destruct (limits.isCgroupV2 h m w); [|done]. cbn [negb andb]. cbv zeta.
  rewrite bind_eq. unfold wrap_error, os.MkdirAll.
  destruct (os.mkdir_ok h _); [|done]. cbv beta iota. cbn [negb].
  rewrite bind_eq. unfold step_ignore at 1. cbv beta iota.
  set (w1 := (os.WriteFile h _ _ _).2). clearbody w1. rewrite bind_eq.
  match goal with |- context [(if decide ?P then step_ignore (os.WriteFile h ?p ?d)
                               else step_ret tt) w1] =>
    destruct (optional_write P h p d w1) as [f2 ->] end.
  cbv beta iota. rewrite bind_eq.
  match goal with |- context [(if decide ?P then step_ignore (os.WriteFile h ?p ?d)
                               else step_ret tt) ?w0] =>
    destruct (optional_write P h p d w0) as [f3 ->] end.
  cbv beta iota.
  match goal with |- context [(if decide ?P then step_ignore (os.WriteFile h ?p ?d)
                               else step_ret tt) ?w0] =>
    destruct (optional_write P h p d w0) as [f4 ->] end.
  done.
Qed.

Lemma applyDiskQuota_result h lim (w : os.World) :
  is_ok (limits.applyDiskQuota h lim w).1 =
    bool_decide (MaxDiskMB lim = 0) ||
    negb (os.look_path h "setquota") ||
    (bool_decide (is_Some (os.run h ["id"; "-u"; models.Username lim])) &&
     bool_decide (is_Some (os.run h ["id"; "-g"; models.Username lim]))).
Proof.
  unfold limits.applyDiskQuota.
  case_decide as Hd; [by rewrite bool_decide_eq_true_2|].
  rewrite bool_decide_eq_false_2 by done. cbn [orb].
  destruct (os.look_path h "setquota"); [|done]. cbn [negb orb]. cbv zeta.
  rewrite bind_eq. unfold wrap_error, limits.lookupUser.
  rewrite bind_eq. unfold os.Exec at 1.
  destruct (os.run h ["id"; "-u"; _]) as [uidOut|]; [|done].
  rewrite bool_decide_eq_true_2 by eauto. cbn [andb]. cbv beta iota zeta.
  rewrite bind_eq. unfold os.Exec at 1.
  destruct (os.run h ["id"; "-g"; _]) as [gidOut|]; [|done].
  rewrite bool_decide_eq_true_2 by eauto. cbv beta iota.
  unfold step_ret at 1. cbv beta iota. rewrite bind_eq.
  unfold step_try at 1. cbv beta iota.
  destruct (limits.getFilesystem h "/var/www" _).1; done.
Qed.

Lemma ApplyLimits_result h m lim (w : os.World) :
  os.GOOS h = "linux" →
  is_ok (limits.ApplyLimits h m lim w).1 =
    is_ok (limits.applyCgroupLimits h m lim w).1 &&
    is_ok (limits.applyDiskQuota h lim (limits.applyCgroupLimits h m lim w).2).1.
Proof.
  intros Hl. unfold limits.ApplyLimits. rewrite decide_False by (by intros []).
  rewrite bind_eq. unfold step_try at 1. cbv beta iota. rewrite bind_eq.
  unfold step_try at 1. cbv beta iota.
  destruct (limits.applyCgroupLimits h m lim w).1;
    destruct (limits.applyDiskQuota h lim _).1; done.
Qed.

(** X24. On Linux, [ApplyLimits] reports an error in exactly two cases:
    cgroup v2 is mounted and the tenant's cgroup directory cannot be made,
    or a disk quota is configured, [setquota] is installed and the user's
    uid or gid cannot be looked up.  A control file that cannot be written,
    a [df] or [setquota] that fails, cgroup v2 or [setquota] missing: none
    of these is reported. *)
Theorem ApplyLimits_reports_only_two_failures h m lim (w : os.World) :
  os.GOOS h = "linux" →
  is_ok (limits.ApplyLimits h m lim w).1 = false ↔
  (limits.isCgroupV2 h m w = true ∧
   os.mkdir_ok h (limits.cgroupDir m lim) = false) ∨
  (MaxDiskMB lim ≠ 0 ∧ os.look_path h "setquota" = true ∧
   (os.run h ["id"; "-u"; models.Username lim] = None ∨
    os.run h ["id"; "-g"; models.Username lim] = None)).
Proof.
  intros Hl. rewrite (ApplyLimits_result _ _ _ _ Hl).
  rewrite applyDiskQuota_result, applyCgroupLimits_result.
  destruct (limits.isCgroupV2 h m w), (os.mkdir_ok h (limits.cgroupDir m lim)),
    (os.look_path h "setquota"); cbn [andb orb negb is_ok];
    try (split; [done|intros [[??]|(?&?&?)]; done]);
    try (split; [intros _; by left|done]).
  all: case_bool_decide as Hd; cbn [orb];
    [split; [done|intros [[??]|(?&?&?)]; done]|].
  all: destruct (os.run h ["id"; "-u"; _]) as [u|];
    destruct (os.run h ["id"; "-g"; _]) as [g|];
    repeat (rewrite bool_decide_eq_true_2 by eauto);
    repeat (rewrite bool_decide_eq_false_2 by (by intros [??]));
    cbn [andb];
    try (split; [done|intros [[??]|(?&?&[?|?])]; done]);
    split; try done; intros _; right; eauto.
Qed.

Lemma applyDiskQuota_execs h lim : emits is_exec (limits.applyDiskQuota h lim).
Proof.
  unfold limits.applyDiskQuota.
  case_decide as Hd; [apply emits_ret|].
  destruct (negb _); [apply emits_ret|].
  pose proof (λ argv, emits_Exec is_exec h argv I) as Hexec.
  apply emits_bind.
  { apply emits_wrap_error. unfold limits.lookupUser.
    apply emits_bind; [apply Hexec|]. intros uidOutput.
    apply emits_bind; [apply Hexec|]. intros gidOutput. apply emits_ret. }
  intros u. apply emits_bind.
  { apply emits_try. unfold limits.getFilesystem.
    apply emits_bind; [apply Hexec|]. intros out.
    destruct (strings.Split out _) as [|? [|line1 ?]]; try apply emits_fail.
    destruct (strings.Fields line1); [apply emits_fail|apply emits_ret]. }
  intros [fs|e]; [|apply emits_ret].
  apply emits_ignore, Hexec.
Qed.

Lemma ApplyLimits_world h m lim (w : os.World) :
  os.GOOS h = "linux" →
  (limits.ApplyLimits h m lim w).2 =
    (limits.applyDiskQuota h lim (limits.applyCgroupLimits h m lim w).2).2.
Proof.
  intros Hl. unfold limits.ApplyLimits. rewrite decide_False by (by intros []).
  rewrite bind_eq. unfold step_try at 1. cbv beta iota. rewrite bind_eq.
  unfold step_try at 1. cbv beta iota.
  destruct (limits.applyCgroupLimits h m lim w).1;
    destruct (limits.applyDiskQuota h lim _).1; done.
Qed.

(** X25. On a Linux machine with cgroup v2 where the tenant's cgroup
    directory can be made, [ApplyLimits] makes that directory, enables the
    cpu, memory and pids controllers, and then writes one control file per
    limit above zero, in this order: [memory.max] with the limit in bytes
    (MB times 1048576), [cpu.max] with the quota (the percentage times
    1000) followed by the period 100000, [pids.max] with the process limit.
    It does so whether or not the writes succeed, and everything it does
    afterwards is spawning commands for the disk quota. *)
Theorem ApplyLimits_cgroup_calls h m lim (w : os.World) :
  os.GOOS h = "linux" →
  limits.isCgroupV2 h m w = true →
  os.mkdir_ok h (limits.cgroupDir m lim) = true →
  0 ≤ MaxRAMMB lim < 2 ^ 43 → 0 ≤ MaxCPUPercent lim < 2 ^ 46 →
  ∃ later,
    os.trace (limits.ApplyLimits h m lim w).2 =
      later ++ cgroup_calls m lim ++ os.trace w ∧
    Forall is_exec later.
Proof.
  intros Hl Hv2 Hmk Hram Hcpu. rewrite ApplyLimits_world by done.
  destruct (applyCgroupLimits_run h m lim w Hv2 Hmk Hram Hcpu) as (w' & -> & E).
  cbn [snd]. destruct (applyDiskQuota_execs h lim w') as (later & E2 & F).
  exists later. by rewrite E2, E.
Qed.

(** X26. Off Linux the limits are not enforced and nothing is touched:
    [ApplyLimits] and [AddProcessToCgroup] succeed, [GetUsage] reports zero
    usage, and [SecureBaseDirectory] succeeds, all without a single call to
    the system. *)
Theorem not_linux_no_effect h bytes m lim username pid sitesDir (w : os.World) :
  os.GOOS h ≠ "linux" →
  limits.ApplyLimits h m lim w = (Ok tt, w) ∧
  limits.AddProcessToCgroup h m username pid w = (Ok tt, w) ∧
  limits.GetUsage h bytes m username w =
    (Ok (limits.mkResourceUsage username 0 0 0 0), w) ∧
  sites.SecureBaseDirectory h sitesDir w = (Ok tt, w).
Proof.
  intros Hl. unfold limits.ApplyLimits, limits.AddProcessToCgroup,
    limits.GetUsage, sites.SecureBaseDirectory.
  by rewrite !decide_True by done.
Qed.

(** ** Reading the usage back *)

Lemma is_nat_pretty_N_char (d : N) :
  (d < 10)%N → Ascii.is_nat (pretty_N_char d) = Some (N.to_nat d).
Proof.
  intros Hd.
  assert (d = 0 ∨ d = 1 ∨ d = 2 ∨ d = 3 ∨ d = 4 ∨ d = 5 ∨ d = 6 ∨ d = 7 ∨
          d = 8 ∨ d = 9)%N as Hc by lia.
  repeat (destruct Hc as [->|Hc]; [done|]). by subst.
Qed.

Lemma digits_pretty_N_go (x : N) :
  ∃ k : Z, ∀ acc s,
    strconv.digits acc (pretty_N_go x s) = strconv.digits (acc * k + Z.of_N x) s.
Proof.
  induction (N.lt_wf_0 x) as [x _ IH].
  assert (x = 0 ∨ 0 < x)%N as [->|Hx] by lia.
  - exists 1. intros acc s. rewrite pretty_N_go_0. f_equal. lia.
  - destruct (IH (x `div` 10)%N) as [k Hk]; [by apply N.div_lt|].
    exists (10 * k). intros acc s. rewrite pretty_N_go_step by done.
    rewrite Hk. cbn [strconv.digits].
    rewrite is_nat_pretty_N_char by (by apply N.mod_lt).
    f_equal. rewrite N_nat_Z.
    pose proof (N.div_mod x 10 ltac:(done)) as E.
    apply (f_equal Z.of_N) in E. rewrite N2Z.inj_add, N2Z.inj_mul in E.
    change (Z.of_N 10) with 10 in E. lia.
Qed.

Lemma ParseInt_digits (s : string) (z : Z) :
  s ≠ "" → strconv.digits 0 s = Some z → 0 ≤ z ≤ 2 ^ 63 - 1 →
  strconv.ParseInt s = Some z.
Proof.
  intros Hne Hd Hz. destruct s as [|c t]; [done|].
  assert (is_Some (Ascii.is_nat c)) as [d Hc].
  { cbn [strconv.digits] in Hd. destruct (Ascii.is_nat c); [eauto|done]. }
  assert (strconv.ParseInt (String c t) =
            (z' ← strconv.digits 0 (String c t);
             if decide (- 2 ^ 63 ≤ z' ≤ 2 ^ 63 - 1) then Some z' else None)) as ->.
  { destruct c as [[] [] [] [] [] [] [] []]; try done; discriminate Hc. }
  rewrite Hd. cbn [mbind option_bind]. rewrite decide_True; [done|lia].
Qed.

(** [ParseInt] reads back what [FormatInt] and [Itoa] print. *)
Lemma ParseInt_pretty (n : Z) :
  - 2 ^ 63 ≤ n ≤ 2 ^ 63 - 1 → strconv.ParseInt (pretty n) = Some n.
Proof.
  intros Hn. destruct n as [|p|p].
  - done.
  - change (pretty (Z.pos p)) with (pretty (N.pos p)).
    unfold pretty, pretty_N. rewrite decide_False by done.
    destruct (digits_pretty_N_go (N.pos p)) as [k Hk].
    specialize (Hk 0 ""). cbn [strconv.digits] in Hk.
    rewrite Z.mul_0_l, Z.add_0_l in Hk.
    apply ParseInt_digits; [|done|change (Z.of_N (N.pos p)) with (Z.pos p); lia].
    intros E. rewrite E in Hk. by cbn in Hk.
  - change (pretty (Z.neg p)) with ("-" +:+ pretty (N.pos p)).
    unfold pretty, pretty_N. rewrite decide_False by done.
    destruct (digits_pretty_N_go (N.pos p)) as [k Hk].
    specialize (Hk 0 ""). cbn [strconv.digits] in Hk.
    rewrite Z.mul_0_l, Z.add_0_l in Hk.
    change ("-" +:+ pretty_N_go (N.pos p) "")
      with (String "-" (pretty_N_go (N.pos p) "")).
    unfold strconv.ParseInt.
    destruct (pretty_N_go (N.pos p) "") as [|c t] eqn:E; [by cbn in Hk|].
    rewrite Hk. cbn [mbind option_bind]. change (Z.of_N (N.pos p)) with (Z.pos p).
    rewrite decide_True; [done|lia].
Qed.

Lemma try_ReadFile h path (w : os.World) :
  step_try (os.ReadFile h path) w = (Ok (os.ReadFile h path w).1, w).
Proof.
  unfold step_try, os.ReadFile.
  destruct (os.files w !! path); [by destruct (os.read_ok h path)|].
  by destruct (bool_decide _).
Qed.

Lemma try_Exec h argv (w : os.World) :
  step_try (os.Exec h argv) w =
    (Ok (os.Exec h argv w).1,
     os.mkWorld (os.files w) (os.dirs w) (os.SysExec argv :: os.trace w)).
Proof. unfold step_try, os.Exec. by destruct (os.run h argv). Qed.

Lemma getDiskUsage_world h username (w : os.World) :
  ∃ later,
    (limits.getDiskUsage h username w).2 =
      os.mkWorld (os.files w) (os.dirs w) (later ++ os.trace w) ∧
    Forall is_exec later.
Proof.
  unfold limits.getDiskUsage. rewrite bind_eq, try_Exec. cbv beta iota.
  match goal with |- context [match ?x with Some _ => _ | None => _ end] =>
    destruct x as [used|] end.
  - exists [os.SysExec ["quota"; "-u"; username]]. split; [done|].
    by repeat constructor.
  - rewrite bind_eq. unfold os.Exec at 1. cbn [os.files os.dirs os.trace].
    exists [os.SysExec ["du"; "-sm"; filepath.Join ["/var/www"; username]];
            os.SysExec ["quota"; "-u"; username]].
    split; [|by repeat constructor].
    destruct (os.run h _) as [out|]; [|done].
    destruct (strings.Fields out); done.
Qed.

(** [GetUsage] on Linux, step by step. *)
Lemma GetUsage_run h bytes m username (w : os.World) :
  os.GOOS h = "linux" →
  let cgroupDir := filepath.Join [limits.cgroupPath m; "fastcp-" +:+ username] in
  let read name := (os.ReadFile h (filepath.Join [cgroupDir; name]) w).1 in
  let number data := strconv.ParseInt (strings.TrimSpace (bytes data)) in
  limits.GetUsage h bytes m username w =
    (Ok (limits.mkResourceUsage username
           match read "memory.current" with
           | Ok data => match number data with
                        | Some n => n `quot` (1024 * 1024)
                        | None => 0
                        end
           | Err _ => 0
           end
           match read "cpu.stat" with
           | Ok data => foldl (λ cpu line, default cpu (limits.usage_usec line)) 0
                          (strings.Split (bytes data) "010")
           | Err _ => 0
           end
           match (limits.getDiskUsage h username w).1 with
           | Ok mb => mb
           | Err _ => 0
           end
           match read "pids.current" with
           | Ok data => default 0 (number data)
           | Err _ => 0
           end),
     (limits.getDiskUsage h username w).2).
Proof.
  intros Hl cgroupDir read number. unfold limits.GetUsage.
  rewrite decide_False by (by intros []). cbv zeta.
  rewrite bind_eq, try_ReadFile. cbv beta iota.
  rewrite bind_eq, try_ReadFile. cbv beta iota.
  rewrite bind_eq, try_ReadFile. cbv beta iota.
  rewrite bind_eq. unfold step_try at 1. cbv beta iota. done.
Qed.

(** X27. [GetUsage] never fails and never writes: on Linux it returns a
    usage record for the user whatever the cgroup files hold, leaves files
    and directories as they are, and the only calls it makes are the
    commands it spawns to measure the disk; a counter whose file is missing
    is reported as zero. *)
Theorem GetUsage_never_fails h bytes m username (w : os.World) :
  os.GOOS h = "linux" →
  let cgroupDir := filepath.Join [limits.cgroupPath m; "fastcp-" +:+ username] in
  ∃ usage later,
    limits.GetUsage h bytes m username w =
      (Ok usage, os.mkWorld (os.files w) (os.dirs w) (later ++ os.trace w)) ∧
    Forall is_exec later ∧
    limits.UsageUsername usage = username ∧
    (os.files w !! filepath.Join [cgroupDir; "memory.current"] = None →
     limits.RAMUsedMB usage = 0) ∧
    (os.files w !! filepath.Join [cgroupDir; "cpu.stat"] = None →
     limits.CPUUsageMicros usage = 0) ∧
    (os.files w !! filepath.Join [cgroupDir; "pids.current"] = None →
     limits.ProcessCount usage = 0).
Proof.
  intros Hl cgroupDir. rewrite GetUsage_run by done. cbv zeta. fold cgroupDir.
  destruct (getDiskUsage_world h username w) as (later & -> & F).
  eexists _, later. split; [done|]. split; [done|].
  cbn [limits.UsageUsername limits.RAMUsedMB limits.CPUUsageMicros
       limits.ProcessCount].
  split; [done|]. unfold os.ReadFile.
  split; [|split]; intros ->; by destruct (bool_decide _).
Qed.

(** *** White space around a number *)

Lemma runes_go_fuel (fuel fuel' : nat) (p : list ascii) :
  (length p ≤ fuel)%nat → (length p ≤ fuel')%nat →
  utf8.runes_go fuel p = utf8.runes_go fuel' p.
Proof.
  revert fuel' p. induction fuel as [|fuel IH]; intros fuel' p H1 H2.
  - destruct p; [by destruct fuel'|simpl in H1; lia].
  - destruct p as [|c p]; [by destruct fuel'|].
    destruct fuel' as [|fuel']; [simpl in H2; lia|].
    pose proof (DecodeRune_size (c :: p) ltac:(done)) as Hsize.
    cbn [utf8.runes_go]. cbv zeta. f_equal.
    apply IH; rewrite length_drop; simpl in *; lia.
Qed.

(** A rune that is decoded is decoded from its own bytes only. *)
Lemma DecodeRune_app (p q : list ascii) :
  (utf8.DecodeRune p).1 ≠ utf8.RuneError →
  utf8.DecodeRune (p ++ q) = utf8.DecodeRune p.
Proof.
  destruct p as [|c0 p1]; [done|]. rewrite <- app_comm_cons.
  unfold utf8.DecodeRune. case_decide; [done|].
  destruct (utf8.leading _) as [[[[|[|[|[|n]]]] lo] hi]|]; try done.
  - destruct p1 as [|c1 p2]; done.
  - destruct p1 as [|c1 [|c2 p3]]; done.
  - destruct p1 as [|c1 [|c2 [|c3 p4]]]; done.
Qed.

Lemma runes_go_app (fuel : nat) (p q : list ascii) :
  (length p ≤ fuel)%nat →
  Forall (λ r, r.1 ≠ utf8.RuneError) (utf8.runes_go fuel p) →
  utf8.runes_go (fuel + length q) (p ++ q) =
    utf8.runes_go fuel p ++ utf8.runes_go (length q) q.
Proof.
  revert p. induction fuel as [|fuel IH]; intros p Hlen Hok.
  - destruct p; [done|simpl in Hlen; lia].
  - destruct p as [|c p].
    { cbn [app utf8.runes_go]. apply runes_go_fuel; lia. }
    pose proof (DecodeRune_size (c :: p) ltac:(done)) as Hsize.
    cbn [utf8.runes_go] in Hok. cbv zeta in Hok.
    apply Forall_cons in Hok as [Hr Hok]. cbn [fst] in Hr.
    change (S fuel + length q)%nat with (S (fuel + length q)).
    rewrite <- app_comm_cons. cbn [utf8.runes_go]. cbv zeta.
    rewrite (app_comm_cons p q c), (DecodeRune_app _ q Hr).
    rewrite take_app_le, drop_app_le by lia. rewrite <- app_comm_cons.
    f_equal. apply IH; [|done].
    rewrite length_drop. simpl in *. lia.
Qed.

Lemma length_list_ascii (s : string) :
  length (list_ascii_of_string s) = String.length s.
Proof. induction s; simpl; by f_equal. Qed.

Lemma list_ascii_app (a b : string) :
  list_ascii_of_string (a +:+ b) = list_ascii_of_string a ++ list_ascii_of_string b.
Proof. induction a; simpl; by f_equal. Qed.

Lemma runes_app (a b : string) :
  Forall (λ r, r.1 ≠ utf8.RuneError) (utf8.runes a) →
  utf8.runes (a +:+ b) = utf8.runes a ++ utf8.runes b.
Proof.
  intros Hok. unfold utf8.runes in *. rewrite <- !length_list_ascii in *.
  rewrite !list_ascii_app, length_app. by apply runes_go_app.
Qed.

Lemma is_space_decoded (r : Z * list ascii) :
  strings.is_space r = true → r.1 ≠ utf8.RuneError.
Proof. intros Hs E. unfold strings.is_space in Hs. by rewrite E in Hs. Qed.

(** The runes of a string of decimal digits are its bytes, none of them
    white space. *)
Lemma runes_digits (p : list ascii) :
  Forall (λ c, is_Some (Ascii.is_nat c)) p →
  Forall (λ r, strings.is_space r = false ∧ r.1 ≠ utf8.RuneError)
         (utf8.runes_go (length p) p) ∧
  (p ≠ [] → utf8.runes_go (length p) p ≠ []).
Proof.
  intros Hd. split; [|by destruct p].
  induction Hd as [|c p Hc _ IH]; [done|].
  assert (utf8.DecodeRune (c :: p) = (utf8.byte c, 1%nat) ∧
          unicode.IsSpace (utf8.byte c) = false ∧
          utf8.byte c ≠ utf8.RuneError) as (E & Hs & Hr).
  { destruct Hc as [d Hc]. unfold utf8.DecodeRune.
    destruct c as [[] [] [] [] [] [] [] []]; try discriminate Hc; done. }
  cbn [length utf8.runes_go]. cbv zeta. rewrite E. cbn [fst snd].
  apply Forall_cons. split; [done|]. exact IH.
Qed.

Lemma trim_left_spaces (sp rest : list (Z * list ascii)) :
  Forall (λ r, strings.is_space r = true) sp →
  strings.trim_left (sp ++ rest) = strings.trim_left rest.
Proof.
  induction 1 as [|r sp Hr _ IH]; [done|].
  rewrite <- app_comm_cons. cbn [strings.trim_left]. by rewrite Hr.
Qed.

Lemma trim_left_stop (r : Z * list ascii) (rest : list (Z * list ascii)) :
  strings.is_space r = false → strings.trim_left (r :: rest) = r :: rest.
Proof. intros Hr. cbn [strings.trim_left]. by rewrite Hr. Qed.

(** [TrimSpace] strips the white space around a string of digits. *)
Lemma TrimSpace_digits (lead d trail : string) :
  white_space lead = true → white_space trail = true →
  d ≠ "" → Forall (λ c, is_Some (Ascii.is_nat c)) (list_ascii_of_string d) →
  strings.TrimSpace (lead +:+ d +:+ trail) = d.
Proof.
  intros Hl Ht Hne Hd.
  assert (∀ s, forallb strings.is_space (utf8.runes s) = true →
               Forall (λ r, strings.is_space r = true) (utf8.runes s)) as Hall.
  { intros s Hs. apply Forall_forall. intros r Hr.
    rewrite forallb_forall in Hs. by apply Hs, list_elem_of_In. }
  apply Hall in Hl, Ht.
  destruct (runes_digits _ Hd) as [Hrd Hrne].
  rewrite length_list_ascii in Hrd, Hrne. fold (utf8.runes d) in Hrd, Hrne.
  assert (utf8.runes d ≠ []) as Hrne'.
  { apply Hrne. destruct d; [done|discriminate]. }
  unfold strings.TrimSpace.
  rewrite runes_app by (eapply Forall_impl; [exact Hl|apply is_space_decoded]).
  rewrite runes_app by (eapply Forall_impl; [exact Hrd|by intros r [_ ?]]).
  rewrite trim_left_spaces by done.
  destruct (utf8.runes d) as [|r0 rd] eqn:Erd; [done|].
  rewrite <- app_comm_cons, trim_left_stop
    by (by apply Forall_cons in Hrd as [[? _] _]).
  rewrite app_comm_cons, reverse_app, trim_left_spaces
    by (by apply Forall_reverse).
  destruct (reverse (r0 :: rd)) as [|r1 rd'] eqn:Erev.
  { apply (f_equal length) in Erev. rewrite length_reverse in Erev. done. }
  rewrite trim_left_stop.
  - rewrite <- Erev, reverse_involutive, <- Erd. apply bytes_runes.
  - assert (r1 ∈ r0 :: rd) as Hin.
    { apply elem_of_reverse. rewrite Erev. left. }
    rewrite Forall_forall in Hrd. by apply Hrd.
Qed.

Lemma digits_chars (s : string) (acc z : Z) :
  strconv.digits acc s = Some z →
  Forall (λ c, is_Some (Ascii.is_nat c)) (list_ascii_of_string s).
Proof.
  revert acc. induction s as [|c s IH]; intros acc; [done|].
  cbn [strconv.digits list_ascii_of_string].
  destruct (Ascii.is_nat c) eqn:E; [|done].
  intros H. apply Forall_cons. split; [by eexists|by eapply IH].
Qed.

(** A number that is not negative prints as a string of digits. *)
Lemma pretty_digits (n : Z) :
  0 ≤ n →
  pretty n ≠ "" ∧
  Forall (λ c, is_Some (Ascii.is_nat c)) (list_ascii_of_string (pretty n)).
Proof.
  intros Hn. destruct n as [|p|p]; [| |lia].
  - split; [done|]. repeat constructor. by eexists.
  - change (pretty (Z.pos p)) with (pretty (N.pos p)).
    unfold pretty, pretty_N. rewrite decide_False by done.
    destruct (digits_pretty_N_go (N.pos p)) as [k Hk].
    specialize (Hk 0 ""). cbn [strconv.digits] in Hk.
    split; [|by eapply digits_chars].
    intros E. rewrite E in Hk. cbn in Hk. by simplify_eq.
Qed.

(** X28. [GetUsage] reads the counters the kernel prints: with
    [memory.current] holding the decimal number of bytes [ram] and
    [pids.current] the decimal number [count], each with any white space
    before and after it (the white space of [unicode.IsSpace]: blanks, tabs
    and line ends, and also U+0085, U+00A0 and the wide spaces), it reports
    [ram] divided by 1048576 as the memory used in MB and [count] as the
    number of processes. *)
Theorem GetUsage_reads_counters h bytes m username (w : os.World)
    (mem pids : os.Content) (ram count : Z)
    (lead trail lead' trail' : string) :
  os.GOOS h = "linux" →
  let cgroupDir := filepath.Join [limits.cgroupPath m; "fastcp-" +:+ username] in
  let memFile := filepath.Join [cgroupDir; "memory.current"] in
  let pidsFile := filepath.Join [cgroupDir; "pids.current"] in
  os.files w !! memFile = Some mem → os.read_ok h memFile = true →
  bytes mem = lead +:+ strconv.FormatInt ram +:+ trail →
  white_space lead = true → white_space trail = true →
  0 ≤ ram ≤ 2 ^ 63 - 1 →
  os.files w !! pidsFile = Some pids → os.read_ok h pidsFile = true →
  bytes pids = lead' +:+ strconv.Itoa count +:+ trail' →
  white_space lead' = true → white_space trail' = true →
  0 ≤ count ≤ 2 ^ 63 - 1 →
  ∃ usage w',
    limits.GetUsage h bytes m username w = (Ok usage, w') ∧
    limits.RAMUsedMB usage = ram `div` 1048576 ∧
    limits.ProcessCount usage = count.
Proof.
  intros Hl cgroupDir memFile pidsFile Hm Hmr Hmt Hml Hmtr Hram
    Hp Hpr Hpt Hpl Hptr Hcount.
  rewrite GetUsage_run by done. cbv zeta. fold cgroupDir memFile pidsFile.
  eexists _, _. split; [done|]. cbn [limits.RAMUsedMB limits.ProcessCount].
  unfold os.ReadFile. rewrite Hm, Hmr, Hp, Hpr. cbn [fst].
  rewrite Hmt, Hpt. unfold strconv.FormatInt, strconv.Itoa.
  destruct (pretty_digits ram) as [? ?]; [lia|].
  destruct (pretty_digits count) as [? ?]; [lia|].
  rewrite !TrimSpace_digits by done.
  rewrite !ParseInt_pretty by lia. split; [|done].
  rewrite Z.quot_div_nonneg by lia. done.
Qed.

(** ** The properties above, on the sample machine *)

Lemma two_sites_consistent : index_consistent sample.two_sites.1.
Proof. apply index_consistent_b_spec. vm_compute. reflexivity. Qed.

Lemma two_sites_holds_a : sites.sites sample.two_sites.1 !! "a" = Some sample.stored_a.
Proof. vm_compute. reflexivity. Qed.

Lemma missing_id_not_found_witness :
  sites.Delete sample.host sample.ascending "zz" sample.two_sites =
    (Err ErrSiteNotFound, sample.two_sites).
Proof.
  apply (missing_id_not_found sample.host sample.cfg sample.ascending 3 "zz"
           sample.empty_patch sample.two_sites).
  vm_compute. reflexivity.
Defined.

Lemma Delete_removes_site_and_hostnames_witness :
  sites.GetByDomain
    (sites.Delete sample.host sample.ascending "a" sample.two_sites).2.1
    "www.a.test" = Err ErrSiteNotFound.
Proof.
  pose proof (Delete_removes_site_and_hostnames sample.host sample.ascending
                "a" sample.stored_a sample.two_sites two_sites_holds_a) as H.
  cbv zeta in H. destruct H as (_ & H & _). apply H.
  right. vm_compute. apply list_elem_of_here.
Defined.

Lemma Delete_keeps_index_consistent_witness :
  index_consistent
    (sites.Delete sample.host sample.ascending "a" sample.two_sites).2.1.
Proof.
  apply (Delete_keeps_index_consistent sample.host sample.ascending "a"
           sample.two_sites).
  exact two_sites_consistent.
Defined.

Lemma Suspend_Unsuspend_effect_witness :
  sites.sites (sites.Suspend sample.host sample.ascending 5 "a"
                 sample.two_sites).2.1 =
    <["a" := set_UpdatedAt 5 (set_Status "suspended" sample.stored_a)]>
      (sites.sites sample.two_sites.1).
Proof.
  pose proof (Suspend_Unsuspend_effect sample.host sample.ascending 5 "a"
                sample.stored_a sample.two_sites two_sites_holds_a) as H.
  cbv zeta in H. apply H.
Defined.

Lemma Suspend_then_Unsuspend_witness :
  sites.sites
    (sites.Unsuspend sample.host sample.ascending 6 "a"
       (sites.Suspend sample.host sample.ascending 5 "a" sample.two_sites).2).2.1 =
    <["a" := set_UpdatedAt 6 sample.stored_a]> (sites.sites sample.two_sites.1).
Proof.
  apply (Suspend_then_Unsuspend sample.host sample.ascending 5 6 "a"
           sample.stored_a sample.two_sites).
  - exact two_sites_holds_a.
  - reflexivity.
Defined.

Lemma status_and_limits_keep_index_witness :
  index_consistent
    (sites.Suspend sample.host sample.ascending 5 "a" sample.two_sites).2.1.
Proof.
  exact (proj1 (status_and_limits_keep_index sample.host sample.ascending 5 "a"
                  sample.bob_limit sample.two_sites two_sites_consistent)).
Defined.

Lemma Update_without_aliases_keeps_index_witness :
  index_consistent
    (sites.Update sample.host sample.cfg sample.ascending 3 "a"
       sample.rename_patch sample.two_sites).2.1.
Proof.
  refine (proj2 (Update_without_aliases_keeps_index sample.host sample.cfg
                   sample.ascending 3 "a" sample.rename_patch sample.two_sites
                   eq_refl) two_sites_consistent _).
  intros site _ Hd. by destruct Hd.
Defined.

Lemma Create_success_registers_witness :
  let created := sites.Create sample.host sample.cfg sample.ascending "u1" 1 1
                   sample.siteA sample.start in
  let stored :=
    mkSite "a" "" "a" "a.test" (Some ["www.a.test"]) "8.3" "/var/www/a.test"
      "public" "active" false "" 0 None 1 1 in
  created.1 = Ok stored ∧
  sites.GetByDomain created.2.1 "www.a.test" = Ok (Some stored).
Proof.
  intros created stored.
  assert (created = (Ok stored, created.2)) as E by (vm_compute; reflexivity).
  pose proof (Create_success_registers sample.host sample.cfg sample.ascending
                "u1" 1 1 sample.siteA stored sample.start created.2 E) as H.
  cbv zeta in H. destruct H as (_ & _ & H & _).
  split; [by rewrite E|].
  apply H. right. vm_compute. apply list_elem_of_here.
Defined.

Lemma Create_keeps_index_consistent_witness :
  index_consistent
    (sites.Create sample.host sample.cfg sample.ascending "u3" 3 3
       sample.bob_site sample.two_sites).2.1.
Proof.
  apply (Create_keeps_index_consistent sample.host sample.cfg sample.ascending
           "u3" 3 3 sample.bob_site sample.two_sites).
  - exact two_sites_consistent.
  - vm_compute. reflexivity.
Defined.

Lemma Load_without_snapshot_witness :
  let loaded := sites.Load sample.codec sample.host sample.start in
  loaded.1 = Ok tt ∧ sites.sites loaded.2.1 = ∅ ∧ loaded.2.2 = sample.world0.
Proof.
  pose proof (Load_without_snapshot sample.codec sample.host sample.start)
    as H.
  cbv zeta in H. destruct H as (H1 & H2 & H3 & H4).
  - vm_compute. reflexivity.
  - vm_compute. reflexivity.
  - split; [exact H1|]. split; [exact H2|exact H4].
Defined.

Lemma Load_well_formed_snapshot_witness :
  let loaded := sites.Load sample.codec sample.host
                  (sites.NewManager "/var/lib/fastcp", sample.one_site.2) in
  loaded.1 = Ok tt ∧ index_consistent loaded.2.1.
Proof.
  pose proof (Load_well_formed_snapshot sample.codec sample.host
                "/var/lib/fastcp" sample.one_site.2
                (os.SitesDoc [sample.stored_a]) [sample.stored_a]) as H.
  cbv zeta in H. destruct H as (H1 & _ & H2 & _).
  - vm_compute. reflexivity.
  - vm_compute. reflexivity.
  - intros a b ->%list_elem_of_singleton ->%list_elem_of_singleton _.
    reflexivity.
  - vm_compute. reflexivity.
  - split; [exact H1|exact H2].
Defined.

Lemma start_limits_keyed : limits_keyed sample.start.1.
Proof. intros name limit H. vm_compute in H. discriminate H. Qed.

Lemma SetUserLimit_then_GetUserLimit_witness :
  sites.GetUserLimit
    (sites.SetUserLimit sample.host sample.ascending sample.bob_limit
       sample.start).2.1 "bob" = sample.bob_limit ∧
  limits_keyed
    (sites.SetUserLimit sample.host sample.ascending sample.bob_limit
       sample.start).2.1.
Proof.
  pose proof (SetUserLimit_then_GetUserLimit sample.host sample.ascending
                sample.bob_limit sample.start) as H.
  cbv zeta in H. destruct H as (H1 & _ & _ & _ & H2).
  split; [exact H1|]. apply H2. exact start_limits_keyed.
Defined.

Lemma SetUserLimit_Load_roundtrip_witness :
  let loaded :=
    sites.Load sample.codec sample.host
      (sites.NewManager "/var/lib/fastcp",
       (sites.SetUserLimit sample.host sample.descending sample.bob_limit
          sample.start).2.2) in
  loaded.1 = Ok tt ∧
  sites.userLimits loaded.2.1 = <["bob" := sample.bob_limit]> ∅.
Proof.
  pose proof (SetUserLimit_Load_roundtrip sample.codec sample.host
                sample.descending sample.bob_limit sample.start) as H.
  cbv zeta in H. destruct H as (_ & H0 & H1 & H2).
  - apply descending_valid.
  - exact start_limits_keyed.
  - intros name l Hl. vm_compute in Hl. discriminate Hl.
  - vm_compute. reflexivity.
  - reflexivity.
  - reflexivity.
  - reflexivity.
  - vm_compute. reflexivity.
  - split; [exact H0|]. etrans; [exact H1|exact H2].
Defined.

Lemma List_lists_the_users_sites_witness :
  Z.of_nat (length (sites.List sample.descending sample.bob_full.1 "bob")) =
    sites.countUserSitesUnlocked sample.bob_full.1 "bob".
Proof.
  pose proof (List_lists_the_users_sites sample.descending sample.ascending
                sample.bob_full.1 "bob" descending_valid ascending_valid)
    as (_ & H & _).
  apply H. discriminate.
Defined.

Lemma GetStats_CountByPHPVersion_witness :
  (sites.GetStats sample.descending sample.two_sites.1).1 = 2.
Proof.
  pose proof (GetStats_CountByPHPVersion sample.descending sample.two_sites.1
                descending_valid) as H.
  cbv zeta in H. destruct H as (H & _). rewrite H. vm_compute. reflexivity.
Defined.

Lemma GenerateMainProxy_routes_active_site_witness :
  occurs_in
    (caddy.cat [caddy.tab; "reverse_proxy localhost:9001"; caddy.nl])
    (caddy.GenerateMainProxy sample.cfg
       [sample.suspended_site; sample.env_site]
       (config.PHPVersions sample.cfg) 80 443).1.
Proof.
  pose proof (GenerateMainProxy_routes_active_site sample.cfg
                [sample.suspended_site; sample.env_site]
                [] [mkPHPVersionConfig "8.2" 9002 2021 false]
                (mkPHPVersionConfig "8.3" 9001 2020 true) 80 443
                sample.env_site) as H.
  destruct H as (pre & post & E).
  - right. left.
  - reflexivity.
  - reflexivity.
  - reflexivity.
  - intros pv' ->%list_elem_of_singleton He. discriminate He.
  - change (config.PHPVersions sample.cfg)
      with ([] ++ mkPHPVersionConfig "8.3" 9001 2020 true
               :: [mkPHPVersionConfig "8.2" 9002 2021 false]).
    rewrite E. apply occurs_in_app_r, occurs_in_app_l.
    eapply (occurs_in_cat _ _ [_; _; _; _; _; _; _; _]);
      [do 4 right; left|]. apply occurs_in_refl.
Defined.

Lemma generators_skip_other_sites_witness :
  caddy.GenerateMainProxy sample.cfg
    [sample.env_site; sample.legacy_site; sample.worker_site]
    (config.PHPVersions sample.cfg) 80 443 =
  caddy.GenerateMainProxy sample.cfg
    [sample.env_site; sample.worker_site]
    (config.PHPVersions sample.cfg) 80 443 ∧
  caddy.GeneratePHPInstance sample.host sample.world0 sample.cfg
    (λ _, sample.ascending) "8.3" 9001 2020
    [sample.env_site; sample.suspended_site; sample.worker_site] =
  caddy.GeneratePHPInstance sample.host sample.world0 sample.cfg
    (λ _, sample.ascending) "8.3" 9001 2020
    [sample.env_site; sample.worker_site].
Proof.
  split.
  - apply (proj1 (generators_skip_other_sites sample.host sample.world0
                    sample.cfg (λ _, sample.ascending)
                    (config.PHPVersions sample.cfg) 80 443 "8.3" 9001 2020
                    [sample.env_site] [sample.worker_site] sample.legacy_site)).
    right. intros pv Hin He.
    apply elem_of_cons in Hin as [->|Hin]; [discriminate|].
    apply list_elem_of_singleton in Hin as ->. discriminate He.
  - apply (proj2 (generators_skip_other_sites sample.host sample.world0
                    sample.cfg (λ _, sample.ascending)
                    (config.PHPVersions sample.cfg) 80 443 "8.3" 9001 2020
                    [sample.env_site] [sample.worker_site]
                    sample.suspended_site)).
    left. discriminate.
Defined.

Lemma GeneratePHPInstance_placeholder_witness :
  (caddy.GeneratePHPInstance sample.host sample.world0 sample.cfg
     (λ _, sample.ascending) "8.2" 9002 2021
     [sample.env_site; sample.suspended_site]).2 = None.
Proof.
  rewrite (GeneratePHPInstance_placeholder sample.host sample.world0 sample.cfg
             (λ _, sample.ascending) "8.2" 9002 2021
             [sample.env_site; sample.suspended_site]); [reflexivity|].
  intros site Hin Hv.
  apply elem_of_cons in Hin as [->|Hin]; [discriminate Hv|].
  apply list_elem_of_singleton in Hin as ->. discriminate Hv.
Defined.

Lemma sanitizeName_replaces_dash_and_dot_witness :
  caddy.sanitizeName "site_01" = "site_01".
Proof.
  apply (sanitizeName_replaces_dash_and_dot "site_01"); reflexivity.
Defined.

Lemma WritePHPInstance_own_file_witness :
  let g := caddy.NewGenerator "/etc/fastcp/templates" "/etc/fastcp" in
  os.files (caddy.WritePHPInstance sample.host g "8.3" "doc" sample.world0).2
    !! "/etc/fastcp/Caddyfile.php-8.3" = Some (os.Text "doc") ∧
  os.files (caddy.WritePHPInstance sample.full_disk_host g "8.3" "doc"
              sample.world0).2
    !! "/etc/fastcp/Caddyfile.php-8.3" = Some (os.Partial (os.Text "doc")).
Proof.
  intros g. split.
  - pose proof (WritePHPInstance_own_file sample.host g "8.3" "8.2" "doc"
                  sample.world0) as H.
    cbv zeta in H. destruct H as (_ & _ & H & _).
    + reflexivity.
    + reflexivity.
    + discriminate.
    + apply H. reflexivity.
  - pose proof (WritePHPInstance_own_file sample.full_disk_host g "8.3" "8.2"
                  "doc" sample.world0) as H.
    cbv zeta in H. destruct H as (_ & _ & _ & H).
    + reflexivity.
    + reflexivity.
    + discriminate.
    + apply H. discriminate.
Defined.

Lemma ApplyLimits_reports_only_two_failures_witness :
  is_ok (limits.ApplyLimits sample.host limits.NewManager sample.bob_limits
           sample.cgroup_world).1 ≠ false.
Proof.
  intros Hf.
  apply (ApplyLimits_reports_only_two_failures sample.host limits.NewManager
           sample.bob_limits sample.cgroup_world) in Hf.
  - destruct Hf as [[_ Hmk]|[Hd _]]; [discriminate Hmk|by destruct Hd].
  - reflexivity.
Defined.

Lemma ApplyLimits_cgroup_calls_witness :
  ∃ later,
    os.trace (limits.ApplyLimits sample.host limits.NewManager sample.bob_limits
                sample.cgroup_world).2 =
      later ++
      [os.SysWriteFile "/sys/fs/cgroup/fastcp-bob/pids.max" (os.Text "100");
       os.SysWriteFile "/sys/fs/cgroup/fastcp-bob/cpu.max"
         (os.Text "50000 100000");
       os.SysWriteFile "/sys/fs/cgroup/fastcp-bob/memory.max"
         (os.Text "536870912");
       os.SysWriteFile "/sys/fs/cgroup/cgroup.subtree_control"
         (os.Text "+cpu +memory +pids");
       os.SysMkdirAll "/sys/fs/cgroup/fastcp-bob"].
Proof.
  destruct (ApplyLimits_cgroup_calls sample.host limits.NewManager
              sample.bob_limits sample.cgroup_world) as (later & E & _).
  - reflexivity.
  - vm_compute. reflexivity.
  - reflexivity.
  - vm_compute. split; [discriminate|reflexivity].
  - vm_compute. split; [discriminate|reflexivity].
  - exists later. rewrite E. f_equal.
Defined.

Lemma not_linux_no_effect_witness :
  limits.ApplyLimits sample.darwin_host limits.NewManager sample.bob_limits
    sample.cgroup_world = (Ok tt, sample.cgroup_world).
Proof.
  apply (not_linux_no_effect sample.darwin_host sample.text limits.NewManager
           sample.bob_limits "bob" 4242 "/var/www" sample.cgroup_world).
  discriminate.
Defined.

Lemma GetUsage_never_fails_witness :
  is_ok (limits.GetUsage sample.host sample.text limits.NewManager "bob"
           sample.world0).1 = true.
Proof.
  pose proof (GetUsage_never_fails sample.host sample.text limits.NewManager
                "bob" sample.world0 eq_refl) as H.
  cbv zeta in H. destruct H as (usage & later & -> & _). reflexivity.
Defined.

Lemma GetUsage_reads_counters_witness :
  ∃ usage w',
    limits.GetUsage sample.host sample.text limits.NewManager "bob"
      sample.usage_world = (Ok usage, w') ∧
    limits.RAMUsedMB usage = 1024 ∧ limits.ProcessCount usage = 7.
Proof.
  pose proof (GetUsage_reads_counters sample.host sample.text limits.NewManager
                "bob" sample.usage_world
                (os.Text (sample.nbsp +:+ "1073741824" +:+ sample.nel
                          +:+ caddy.nl))
                (os.Text ("7" +:+ caddy.nl)) 1073741824 7
                sample.nbsp (sample.nel +:+ caddy.nl) "" caddy.nl) as H.
  cbv zeta in H. apply H.
  - reflexivity.
  - vm_compute. reflexivity.
  - reflexivity.
  - vm_compute. reflexivity.
  - vm_compute. reflexivity.
  - vm_compute. reflexivity.
  - vm_compute. split; discriminate.
  - vm_compute. reflexivity.
  - reflexivity.
  - vm_compute. reflexivity.
  - vm_compute. reflexivity.
  - vm_compute. reflexivity.
  - vm_compute. split; discriminate.
Defined.

Lemma Create_failure_modes_witness :
  sites.Get
    (sites.Create sample.no_snapshot_host sample.cfg sample.ascending "u1" 1 1
       sample.siteA sample.start).2.1 "a" = Ok sample.stored_a.
Proof.
  pose proof (Create_failure_modes sample.no_snapshot_host sample.cfg
                sample.ascending "u1" 1 1 sample.siteA
                (ErrOS "write" "/var/lib/fastcp/sites.json") sample.start
                (sites.Create sample.no_snapshot_host sample.cfg
                   sample.ascending "u1" 1 1 sample.siteA sample.start).2) as H.
  cbv zeta in H. destruct H as [[_ H]|(_ & H & _)].
  - vm_compute. reflexivity.
  - destruct H as [H|[[? H]|[H|[H|[? H]]]]]; discriminate H.
  - exact H.
Defined.
